(** * Verification of the portfolio autosave / data-synchronisation layer

    A shallow embedding of
    - [DataValidator.validateText] / [validateJson]           (dataValidation.ts),
    - [EnhancedPortfolioDataService] (getElement, saveElement, bulkSave,
      autoSave)                                 (enhancedPortfolioDataService.ts),
    - [RealTimeFormService.validateShareLink]              (realTimeFormService.ts),
    - the SQL functions [upsert_portfolio_data], [get_portfolio_data],
      [bulk_update_portfolio_data], [validate_share_link] and the triggers on
      [portfolio_data_v2]                                   (supabase migrations),
    - further: [deleteElement], [loadAllData], [clearAllAutoSaveTimeouts],
      [onDataChange] / [emitDataChange], [createShareLink], [submitForm],
      [validateEmail] and the SQL function [cleanup_expired_shares],
    followed by the properties established about them.

    Scope of the transport model: a request either reaches the database and
    is answered, or fails before it reaches the database.  A request whose
    statement commits and whose answer is then lost is not modelled; the
    properties that speak of a failed call say so where this matters. *)

From stdpp Require Import base option list gmap strings pretty.
From Stdlib Require Import ZArith NArith Lia Ascii String.

Set Warnings "-register-all".
Local Open Scope Z_scope.

(** ** JavaScript strings

    A JavaScript string is a sequence of UTF-16 code units; [length] is the
    [.length] property. *)

Module Js.

Definition code_unit := N.
Definition jsstring := list N.

(** A literal written in ASCII. *)
Definition lit (s : string) : jsstring :=
  map N_of_ascii (list_ascii_of_string s).

(** [\w] without the [u] flag: [A-Za-z0-9_]. *)
Definition is_word (c : code_unit) : bool :=
  ((65 <=? c) && (c <=? 90) || (97 <=? c) && (c <=? 122)
   || (48 <=? c) && (c <=? 57) || (c =? 95))%N.

(** Line terminators: LF, CR, LS, PS.  The regular-expression dot matches
    every code unit except these. *)
Definition is_line_terminator (c : code_unit) : bool :=
  ((c =? 10) || (c =? 13) || (c =? 8232) || (c =? 8233))%N.

(** [\s], which is also the set removed by [String.prototype.trim]:
    WhiteSpace and LineTerminator. *)
Definition is_space (c : code_unit) : bool :=
  ((9 <=? c) && (c <=? 13) || (c =? 32) || (c =? 160) || (c =? 5760)
   || (8192 <=? c) && (c <=? 8202) || (c =? 8232) || (c =? 8233)
   || (c =? 8239) || (c =? 8287) || (c =? 12288) || (c =? 65279))%N.

(** Matching one pattern character under the [i] flag (no [u] flag): the
    canonical form is the upper-case code unit, and a code unit above 127 is
    never folded onto an ASCII one, so an ASCII letter of the pattern matches
    exactly its two cases and any other pattern character matches itself. *)
Definition ci_eq (p c : code_unit) : bool :=
  ((c =? p) || (97 <=? p) && (p <=? 122) && (c =? p - 32)
   || (65 <=? p) && (p <=? 90) && (c =? p + 32))%N.

(** The input starts with the literal [pat], ignoring case; the result is what
    follows the match. *)
Fixpoint prefix_ci (pat s : jsstring) : option jsstring :=
  match pat with
  | [] => Some s
  | p :: pat' =>
      match s with
      | [] => None
      | c :: s' => if ci_eq p c then prefix_ci pat' s' else None
      end
  end.

(** Length of the longest prefix whose code units all satisfy [f] (a greedy
    star over a character class). *)
Fixpoint span (f : code_unit -> bool) (s : jsstring) : nat :=
  match s with
  | c :: s' => if f c then S (span f s') else O
  | [] => O
  end.

Fixpoint drop_while (f : code_unit -> bool) (s : jsstring) : jsstring :=
  match s with
  | c :: s' => if f c then drop_while f s' else s
  | [] => []
  end.

(** [String.prototype.trim]. *)
Definition trim (s : jsstring) : jsstring :=
  rev (drop_while is_space (rev (drop_while is_space s))).

(** The text does not begin with white space. *)
Definition clean_start (s : jsstring) : bool :=
  match s with
  | [] => true
  | c :: _ => negb (is_space c)
  end.

(** A matcher gives, for the text starting at the current position, the
    length of the match of the pattern anchored there, if there is one. *)
Definition matcher := jsstring -> option nat.

(** [s.replace(/re/g, '')]: scan from the left; where the pattern matches,
    drop the match and resume right after it, otherwise keep the code unit
    and move on by one.  [skip] counts the code units of the current match
    still to be dropped. *)
Fixpoint replace_all_go (m : matcher) (skip : nat) (s : jsstring) : jsstring :=
  match s with
  | [] => []
  | c :: s' =>
      match skip with
      | S k => replace_all_go m k s'
      | O =>
          match m s with
          | Some (S k) => replace_all_go m k s'
          | Some O => c :: replace_all_go m O s'
          | None => c :: replace_all_go m O s'
          end
      end
  end.

Definition replace_all (m : matcher) (s : jsstring) : jsstring :=
  replace_all_go m O s.

(** The pattern matches somewhere in [s]. *)
Fixpoint has_match (m : matcher) (s : jsstring) : bool :=
  match s with
  | [] => false
  | _ :: s' => match m s with Some _ => true | None => has_match m s' end
  end.

(** [s.replace(/c/g, rep)] for a single character [c]. *)
Definition replace_char (c : code_unit) (rep : jsstring) (s : jsstring) : jsstring :=
  flat_map (fun x => if (x =? c)%N then rep else [x]) s.

(** [sub] occurs in [s] as a substring (case-sensitive). *)
Fixpoint starts_with (sub s : jsstring) : bool :=
  match sub with
  | [] => true
  | p :: sub' =>
      match s with
      | [] => false
      | c :: s' => (c =? p)%N && starts_with sub' s'
      end
  end.

Fixpoint includes (sub s : jsstring) : bool :=
  starts_with sub s ||
  match s with
  | [] => false
  | _ :: s' => includes sub s'
  end.

(** [parts.join(sep)]. *)
Fixpoint join (sep : jsstring) (parts : list jsstring) : jsstring :=
  match parts with
  | [] => []
  | [p] => p
  | p :: ps => p ++ sep ++ join sep ps
  end.

(** JSON-shaped JavaScript values: what a [string | object] argument, a JSONB
    column or an RPC payload can hold.  Numbers are restricted to integers. *)
Inductive json : Type :=
  | JNull
  | JBool (b : bool)
  | JNum (n : Z)
  | JStr (s : jsstring)
  | JArr (items : list json)
  | JObj (fields : list (jsstring * json)).

Inductive js_type := TString | TObject | TNumber | TBoolean.

(** [typeof v]; [typeof null] is ["object"]. *)
Definition typeof (v : json) : js_type :=
  match v with
  | JStr _ => TString
  | JNum _ => TNumber
  | JBool _ => TBoolean
  | JNull | JArr _ | JObj _ => TObject
  end.

(** JavaScript truthiness ([!!v]). *)
Definition truthy (v : json) : bool :=
  match v with
  | JNull => false
  | JBool b => b
  | JNum n => negb (n =? 0)
  | JStr s => match s with [] => false | _ => true end
  | JArr _ | JObj _ => true
  end.

Fixpoint assoc (k : jsstring) (fields : list (jsstring * json)) : option json :=
  match fields with
  | [] => None
  | (k', v) :: rest => if bool_decide (k' = k) then Some v else assoc k rest
  end.

(** [v.name] for a data property; [None] is [undefined] (a missing property,
    or a property read on a value that is not a plain object). *)
Definition get_prop (v : json) (name : jsstring) : option json :=
  match v with
  | JObj fields => assoc name fields
  | _ => None
  end.

(** Truthiness of a possibly-undefined value. *)
Definition truthy_opt (v : option json) : bool :=
  match v with Some x => truthy x | None => false end.

(** Either a value or a thrown error (carrying its [message]). *)
Inductive outcome (A : Type) : Type :=
  | Returned (a : A)
  | Thrown (message : jsstring).
Arguments Returned {A}.
Arguments Thrown {A}.

End Js.

Import Js.

(** ** DataValidator (dataValidation.ts) *)

Module DataValidator.

(** [/<script[^>]*>.*?<\/script>/gi] anchored at the current position.
    [[^>]*] is greedy and can only stop in front of the first [>]; the lazy
    [.*?] then stops at the first [</script>] reached without crossing a line
    terminator. *)
Fixpoint lazy_until_close (s : jsstring) : option nat :=
  match prefix_ci (lit "</script>") s with
  | Some _ => Some 9%nat
  | None =>
      match s with
      | [] => None
      | c :: s' =>
          if is_line_terminator c then None
          else option_map S (lazy_until_close s')
      end
  end.

Definition script_tag : matcher := fun s =>
  match prefix_ci (lit "<script") s with
  | None => None
  | Some r =>
      let a := span (fun c => negb (c =? 62)%N) r in
      match drop a r with
      | c :: r' =>
          if (c =? 62)%N
          then option_map (fun k => (7 + a + 1 + k)%nat) (lazy_until_close r')
          else None
      | [] => None
      end
  end.

(** [/javascript:/gi]. *)
Definition javascript_protocol : matcher := fun s =>
  match prefix_ci (lit "javascript:") s with
  | Some _ => Some 11%nat
  | None => None
  end.

(** [/on\w+\s*=/gi]: the three classes are disjoint, so the greedy runs are
    the only way to match. *)
Definition event_handler : matcher := fun s =>
  match prefix_ci (lit "on") s with
  | None => None
  | Some r =>
      let w := span is_word r in
      match w with
      | O => None
      | S _ =>
          let r1 := drop w r in
          let sp := span is_space r1 in
          match drop sp r1 with
          | c :: _ => if (c =? 61)%N then Some (2 + w + sp + 1)%nat else None
          | [] => None
          end
      end
  end.

(** The first chain of replacements followed by [trim()]. *)
Definition strip (value : jsstring) : jsstring :=
  trim (replace_all event_handler
          (replace_all javascript_protocol
             (replace_all script_tag value))).

(** The second chain: the four single-character replacements, in order. *)
Definition escape (s : jsstring) : jsstring :=
  replace_char 39%N (lit "&#x27;")
    (replace_char 34%N (lit "&quot;")
       (replace_char 62%N (lit "&gt;")
          (replace_char 60%N (lit "&lt;") s))).

Definition sanitize (value : jsstring) : jsstring := escape (strip value).

(** The four characters [<], [>], double quote and apostrophe. *)
Definition markup (c : code_unit) : bool :=
  ((c =? 60) || (c =? 62) || (c =? 34) || (c =? 39))%N.

(** What the four replacements together do to one code unit. *)
Definition escape_unit (c : code_unit) : jsstring :=
  (if c =? 60 then lit "&lt;"
   else if c =? 62 then lit "&gt;"
   else if c =? 34 then lit "&quot;"
   else if c =? 39 then lit "&#x27;"
   else [c])%N.

Record ValidationResult (A : Type) := mkValidation {
  isValid : bool;
  errors : list jsstring;
  sanitizedValue : option A   (* [None] is an absent (undefined) field *)
}.
Arguments mkValidation {A}.
Arguments isValid {A}.
Arguments errors {A}.
Arguments sanitizedValue {A}.

Definition default_maxLength : Z := 10000.

(** [validateText(value, maxLength)] on a string argument. *)
Definition validateText (value : jsstring) (maxLength : Z) : ValidationResult jsstring :=
  match value with
  | [] => mkValidation false [lit "Value must be a non-empty string"] None
  | _ =>
      let errors :=
        if Z.of_nat (List.length value) >? maxLength
        then [lit "Text must be " ++ lit (pretty maxLength)
                ++ lit " characters or less"]
        else [] in
      mkValidation (match errors with [] => true | _ => false end)
                   errors (Some (sanitize value))
  end.

(** [JSON.stringify(data)] is taken from the host; [None] stands for the
    call throwing (or yielding [undefined], whose [.length] throws). *)
Definition validateJson (stringify : json -> option jsstring)
    (data : json) (maxSize : Z) : ValidationResult json :=
  match stringify data with
  | Some jsonString =>
      if Z.of_nat (List.length jsonString) >? maxSize
      then mkValidation false
             [lit "JSON data too large. Maximum " ++ lit (pretty maxSize)
                ++ lit " bytes allowed"] None
      else mkValidation true [] (Some data)
  | None => mkValidation false [lit "Invalid JSON data"] None
  end.

Definition default_maxSize : Z := 1048576.

End DataValidator.

Import DataValidator.

(** ** The host platform

    Built-ins of the JavaScript runtime and of PostgreSQL that the code calls
    but does not define.  Everything below is stated for an arbitrary host. *)

Class Host := {
  (** [JSON.stringify(v)]; [None] when it throws. *)
  JSON_stringify : json -> option jsstring;
  (** Time value in milliseconds of [new Date(v)] ([None] is an undefined
      argument); the result [None] is an Invalid Date (NaN). *)
  Date_time : option json -> option Z;
  (** [new Date(t).toISOString()]. *)
  toISOString : Z -> jsstring;
  (** [navigator.userAgent]. *)
  navigator_userAgent : jsstring;
  (** PostgreSQL [regexp_replace(source, pattern, replacement, flags)]. *)
  regexp_replace : jsstring -> jsstring -> jsstring -> jsstring -> jsstring;
  (** PostgreSQL [length(text)], in characters. *)
  pg_length : jsstring -> Z;
  (** PostgreSQL [pg_column_size(jsonb)]. *)
  pg_column_size : json -> Z;
  (** [gen_random_uuid()]: the n-th identifier drawn. *)
  gen_random_uuid : nat -> jsstring
}.

(** ** The database (supabase migrations) *)

Module Sql.

Definition uuid := jsstring.
Definition timestamptz := Z.

(** A statement either completes or raises; an exception that leaves the
    function aborts the enclosing transaction, so the caller keeps the
    database it had before the call. *)
Inductive result (A : Type) : Type :=
  | Ok (a : A)
  | Raise (message : jsstring).
Arguments Ok {A}.
Arguments Raise {A}.

#[export] Instance result_ret : MRet result := fun A a => Ok a.
#[export] Instance result_bind : MBind result := fun A B k r =>
  match r with
  | Ok a => k a
  | Raise m => Raise m
  end.

(** [INTEGER] is 32-bit; arithmetic out of its range raises. *)
Definition int4_max : Z := 2147483647.
Definition int4_add (a b : Z) : result Z :=
  if (a + b >? int4_max) || (a + b <? - int4_max - 1)
  then Raise (lit "integer out of range")
  else Ok (a + b).

(** *** Table [portfolio_data_v2] *)

Record portfolio_row := {
  id : uuid;
  user_id : uuid;
  element_type : jsstring;
  element_id : jsstring;
  element_value : option jsstring;
  json_data : option json;
  metadata : option json;
  version : option Z;
  is_active : option bool;
  created_at : timestamptz;
  updated_at : timestamptz
}.

(** *** Table [portfolio_data_backup] *)

Record backup_row := {
  original_id : uuid;
  b_user_id : uuid;
  b_element_type : jsstring;
  b_element_id : jsstring;
  b_element_value : option jsstring;
  b_json_data : option json;
  backup_reason : jsstring;
  b_created_at : timestamptz
}.

(** *** Table [form_shares] *)

Record share_row := {
  s_id : uuid;
  share_id : jsstring;
  form_id : jsstring;
  created_by : uuid;
  permissions : option (list jsstring);
  password_hash : option jsstring;
  expires_at : option timestamptz;
  s_is_active : option bool;
  access_count : option Z;
  last_accessed_at : option timestamptz;
  s_created_at : option timestamptz;
  s_updated_at : option timestamptz
}.

Record database := {
  portfolio_data_v2 : list portfolio_row;
  portfolio_data_backup : list backup_row;
  form_shares : list share_row;
  uuids_drawn : nat
}.

Definition allowed_element_types : list jsstring :=
  [lit "text"; lit "image"; lit "project"; lit "education"; lit "profile"].

(** PostgreSQL [trim(text)]: strips spaces (U+0020 only) at both ends. *)
Definition pg_trim (s : jsstring) : jsstring :=
  rev (drop_while (fun c => (c =? 32)%N) (rev (drop_while (fun c => (c =? 32)%N) s))).

Section WithHost.
Context `{Host}.

(** Trigger function [create_portfolio_backup] (BEFORE UPDATE): copies the old
    row to the backup table, then sets the new version and timestamp. *)
Definition create_portfolio_backup (now : timestamptz) (OLD NEW : portfolio_row)
    (backups : list backup_row) : result (portfolio_row * list backup_row) :=
  let backups' := backups ++
    [ {| original_id := id OLD; b_user_id := user_id OLD;
         b_element_type := element_type OLD; b_element_id := element_id OLD;
         b_element_value := element_value OLD; b_json_data := json_data OLD;
         backup_reason := lit "pre_update_backup"; b_created_at := now |} ] in
  v ← int4_add (default 0 (version OLD)) 1;
  Ok ({| id := id NEW; user_id := user_id NEW;
         element_type := element_type NEW; element_id := element_id NEW;
         element_value := element_value NEW; json_data := json_data NEW;
         metadata := metadata NEW; version := Some v;
         is_active := is_active NEW; created_at := created_at NEW;
         updated_at := now |}, backups').

(** The three assignments to [NEW.element_value] in
    [validate_portfolio_data]. *)
Definition sanitize_text (v : jsstring) : jsstring :=
  let v1 := regexp_replace v (lit "<script[^>]*>.*?</script>") [] (lit "gi") in
  let v2 := regexp_replace v1 (lit "javascript:") [] (lit "gi") in
  pg_trim v2.

(** Trigger function [validate_portfolio_data] (BEFORE INSERT OR UPDATE).
    [user_id] is a NOT NULL column that every writer below supplies, so the
    branch filling it in from [auth.uid()] is never taken. *)
Definition validate_portfolio_data (auth_uid : option uuid) (NEW : portfolio_row)
    : result portfolio_row :=
  if negb (bool_decide (element_type NEW ∈ allowed_element_types))
  then Raise (lit "Invalid element_type: " ++ element_type NEW)
  else
    value ←
      match element_value NEW with
      | Some v =>
          let v' := sanitize_text v in
          if pg_length v' >? 10000
          then Raise (lit "Element value too long. Maximum 10000 characters allowed.")
          else Ok (Some v')
      | None => Ok None
      end;
    (match json_data NEW with
      | Some j =>
          if pg_column_size j >? 1048576
          then Raise (lit "JSON data too large. Maximum 1MB allowed.")
          else Ok tt
      | None => Ok tt
      end);;
    match auth_uid with
    | Some u =>
        if negb (bool_decide (user_id NEW = u))
        then Raise (lit "Access denied. Users can only modify their own data.")
        else Ok tt
    | None => Ok tt
    end;;
    Ok {| id := id NEW; user_id := user_id NEW;
          element_type := element_type NEW; element_id := element_id NEW;
          element_value := value; json_data := json_data NEW;
          metadata := metadata NEW; version := version NEW;
          is_active := is_active NEW; created_at := created_at NEW;
          updated_at := updated_at NEW |}.

Definition same_element (a b : portfolio_row) : bool :=
  bool_decide (user_id a = user_id b)
  && bool_decide (element_type a = element_type b)
  && bool_decide (element_id a = element_id b).

(** Function [upsert_portfolio_data]:
    [INSERT ... ON CONFLICT (user_id, element_type, element_id) DO UPDATE ...
     RETURNING id].  The BEFORE INSERT trigger runs on the proposed row; on a
    conflict the BEFORE UPDATE triggers run on the updated row, in name
    order ([portfolio_data_backup_trigger], then
    [portfolio_data_validation_trigger]).  The AFTER triggers only append to
    the audit log and never raise; they are left out. *)
Definition upsert_portfolio_data (auth_uid : option uuid) (now : timestamptz)
    (p_element_type p_element_id : jsstring) (p_element_value : option jsstring)
    (p_json_data p_metadata : option json) (d : database)
    : result (uuid * database) :=
  match auth_uid with
  | None => Raise (lit "User must be authenticated")
  | Some current_user_id =>
      let rows := portfolio_data_v2 d in
      proposed ← validate_portfolio_data auth_uid
        {| id := gen_random_uuid (uuids_drawn d); user_id := current_user_id;
           element_type := p_element_type; element_id := p_element_id;
           element_value := p_element_value; json_data := p_json_data;
           metadata := p_metadata; version := Some 1; is_active := Some true;
           created_at := now; updated_at := now |};
      match List.find (same_element proposed) rows with
      | None =>
          if existsb (fun r => bool_decide (id r = id proposed)) rows
          then Raise (lit "duplicate key value violates unique constraint")
          else Ok (id proposed,
                   {| portfolio_data_v2 := rows ++ [proposed];
                      portfolio_data_backup := portfolio_data_backup d;
                      form_shares := form_shares d;
                      uuids_drawn := S (uuids_drawn d) |})
      | Some OLD =>
          '(NEW, backups) ← create_portfolio_backup now OLD
            {| id := id OLD; user_id := user_id OLD;
               element_type := element_type OLD; element_id := element_id OLD;
               element_value := element_value proposed;
               json_data := json_data proposed;
               metadata := metadata proposed; version := version OLD;
               is_active := is_active OLD; created_at := created_at OLD;
               updated_at := now |}
            (portfolio_data_backup d);
          NEW ← validate_portfolio_data auth_uid NEW;
          Ok (id NEW,
              {| portfolio_data_v2 :=
                   map (fun r => if same_element proposed r then NEW else r) rows;
                 portfolio_data_backup := backups;
                 form_shares := form_shares d;
                 uuids_drawn := S (uuids_drawn d) |})
      end
  end.

(** [ORDER BY updated_at DESC]. *)
Fixpoint insert_desc (r : portfolio_row) (rows : list portfolio_row) : list portfolio_row :=
  match rows with
  | [] => [r]
  | r' :: rest =>
      if updated_at r' <? updated_at r then r :: rows
      else r' :: insert_desc r rest
  end.

Definition order_by_updated_at_desc (rows : list portfolio_row) : list portfolio_row :=
  foldr insert_desc [] rows.

Definition matches_filter (x : option jsstring) (column : jsstring) : bool :=
  match x with
  | None => true
  | Some v => bool_decide (column = v)
  end.

(** Function [get_portfolio_data]. *)
Definition get_portfolio_data (auth_uid : option uuid)
    (p_element_type p_element_id : option jsstring) (d : database)
    : result (list portfolio_row) :=
  match auth_uid with
  | None => Raise (lit "User must be authenticated")
  | Some current_user_id =>
      Ok (order_by_updated_at_desc
            (List.filter (fun pd =>
                       bool_decide (user_id pd = current_user_id)
                       && bool_decide (is_active pd = Some true)
                       && matches_filter p_element_type (element_type pd)
                       && matches_filter p_element_id (element_id pd))
                    (portfolio_data_v2 d)))
  end.

(** One element of the [p_updates] array, as [bulkSave] builds it.  A JSON
    [null] under [element_value] is read by [->>] as SQL NULL, a JSON [null]
    under [json_data] is read by [->] as the JSONB value [null]. *)
Record bulk_item := {
  bi_element_type : jsstring;
  bi_element_id : jsstring;
  bi_element_value : option jsstring;
  bi_json_data : json;
  bi_metadata : json
}.

(** The [PERFORM public.upsert_portfolio_data(...)] of the loop body. *)
Definition upsert_record (auth_uid : option uuid) (now : timestamptz)
    (update_record : bulk_item) (d : database) : result (uuid * database) :=
  upsert_portfolio_data auth_uid now
    (bi_element_type update_record) (bi_element_id update_record)
    (bi_element_value update_record)
    (Some (bi_json_data update_record))
    (Some (bi_metadata update_record)) d.

(** The loop of [bulk_update_portfolio_data]. *)
Fixpoint bulk_update_loop (auth_uid : option uuid) (now : timestamptz)
    (updates : list bulk_item) (updated_count : Z) (d : database)
    : result (Z * database) :=
  match updates with
  | [] => Ok (updated_count, d)
  | update_record :: rest =>
      '(_, d') ← upsert_record auth_uid now update_record d;
      updated_count' ← int4_add updated_count 1;
      bulk_update_loop auth_uid now rest updated_count' d'
  end.

(** Function [bulk_update_portfolio_data]. *)
Definition bulk_update_portfolio_data (auth_uid : option uuid) (now : timestamptz)
    (p_updates : list bulk_item) (d : database) : result (Z * database) :=
  match auth_uid with
  | None => Raise (lit "User must be authenticated")
  | Some _ => bulk_update_loop auth_uid now p_updates 0 d
  end.

End WithHost.

(** *** Share links *)

Record share_validation := {
  is_valid : bool;
  v_form_id : option jsstring;
  v_permissions : option (list jsstring);
  requires_password : bool
}.

(** The [WHERE] clause of the [SELECT ... INTO share_record]. *)
Definition share_selected (p_share_id : jsstring) (now : timestamptz) (r : share_row) : bool :=
  bool_decide (share_id r = p_share_id)
  && bool_decide (s_is_active r = Some true)
  && match expires_at r with
     | None => true
     | Some e => e >? now
     end.

(** [SET access_count = access_count + 1, last_accessed_at = NOW()];
    [NULL + 1] is [NULL]. *)
Definition record_access (now : timestamptz) (r : share_row) : result share_row :=
  count ← match access_count r with
          | Some c => c' ← int4_add c 1; Ok (Some c')
          | None => Ok None
          end;
  Ok {| s_id := s_id r; share_id := share_id r; form_id := form_id r;
        created_by := created_by r; permissions := permissions r;
        password_hash := password_hash r; expires_at := expires_at r;
        s_is_active := s_is_active r; access_count := count;
        last_accessed_at := Some now; s_created_at := s_created_at r;
        s_updated_at := s_updated_at r |}.

(** Two rows agree on every column other than [access_count] and
    [last_accessed_at]. *)
Definition same_but_access (r r' : share_row) : Prop :=
  s_id r' = s_id r /\ share_id r' = share_id r /\ form_id r' = form_id r
  /\ created_by r' = created_by r /\ permissions r' = permissions r
  /\ password_hash r' = password_hash r /\ expires_at r' = expires_at r
  /\ s_is_active r' = s_is_active r /\ s_created_at r' = s_created_at r
  /\ s_updated_at r' = s_updated_at r.

(** [UPDATE form_shares SET ... WHERE share_id = p_share_id]. *)
Fixpoint update_access (p_share_id : jsstring) (now : timestamptz)
    (rows : list share_row) : result (list share_row) :=
  match rows with
  | [] => Ok []
  | r :: rest =>
      r' ← (if bool_decide (share_id r = p_share_id)
            then record_access now r else Ok r);
      rest' ← update_access p_share_id now rest;
      Ok (r' :: rest')
  end.

(** Function [validate_share_link]. *)
Definition validate_share_link (p_share_id : jsstring) (now : timestamptz)
    (shares : list share_row) : result (share_validation * list share_row) :=
  match List.find (share_selected p_share_id now) shares with
  | None =>
      Ok ({| is_valid := false; v_form_id := None; v_permissions := None;
             requires_password := false |}, shares)
  | Some share_record =>
      shares' ← update_access p_share_id now shares;
      Ok ({| is_valid := true; v_form_id := Some (form_id share_record);
             v_permissions := permissions share_record;
             requires_password :=
               match password_hash share_record with
               | Some _ => true
               | None => false
               end |}, shares')
  end.

End Sql.

(** ** The supabase client *)

Module Client.
Import Sql.

Inductive toast :=
  | ToastError (message : jsstring)
  | ToastSuccess (message : jsstring).

Record DataChangeEvent := {
  ev_elementType : jsstring;
  ev_elementId : jsstring;
  oldValue : json;
  newValue : json;
  timestamp : Z;
  userId : uuid
}.

Inductive rpc_call :=
  | CallGet (p_element_type p_element_id : option jsstring)
  | CallUpsert (p_element_type p_element_id : jsstring)
      (p_element_value : option jsstring) (p_json_data p_metadata : option json)
  | CallBulk (p_updates : list bulk_item).

(** What the page can observe and change: the auth session, the database
    behind the RPC endpoint, the clock, and the calls, toasts and change
    events produced so far.  [faults] gives the transport outcome of the
    forthcoming RPC requests, oldest first: [Some m] is a request that fails
    with message [m] without reaching the database, [None] one that is
    answered.  (An answer lost after the statement has committed is outside
    this model.) *)
Record world := {
  session : option uuid;
  db : database;
  now : Z;
  faults : list (option jsstring);
  rpc_log : list rpc_call;
  toasts : list toast;
  emitted : list DataChangeEvent
}.

(** The [{ data, error }] pair an RPC resolves to. *)
Inductive rpc_result (A : Type) : Type :=
  | RpcData (data : A)
  | RpcError (message : jsstring).
Arguments RpcData {A}.
Arguments RpcError {A}.

Definition set_db (d : database) (w : world) : world :=
  {| session := session w; db := d; now := now w; faults := faults w;
     rpc_log := rpc_log w; toasts := toasts w; emitted := emitted w |}.

Definition add_toast (t : toast) (w : world) : world :=
  {| session := session w; db := db w; now := now w; faults := faults w;
     rpc_log := rpc_log w; toasts := toasts w ++ [t]; emitted := emitted w |}.

Definition emitDataChange (e : DataChangeEvent) (w : world) : world :=
  {| session := session w; db := db w; now := now w; faults := faults w;
     rpc_log := rpc_log w; toasts := toasts w; emitted := emitted w ++ [e] |}.

(** Sending one request: it is logged, and the next transport outcome is
    consumed. *)
Definition send (c : rpc_call) (w : world) : option jsstring * world :=
  (match faults w with Some m :: _ => Some m | _ => None end,
   {| session := session w; db := db w; now := now w; faults := tail (faults w);
      rpc_log := rpc_log w ++ [c]; toasts := toasts w; emitted := emitted w |}).

(** [supabase.rpc(name, args)] for a function that runs [f] in one
    transaction, with [auth.uid()] taken from the session. *)
Definition rpc {A} (c : rpc_call) (f : database -> result (A * database))
    (w : world) : rpc_result A * world :=
  let '(fault, w1) := send c w in
  match fault with
  | Some m => (RpcError m, w1)
  | None =>
      match f (db w1) with
      | Ok (a, d') => (RpcData a, set_db d' w1)
      | Raise m => (RpcError m, w1)
      end
  end.

End Client.

(** ** EnhancedPortfolioDataService (enhancedPortfolioDataService.ts) *)

Module Service.
Import Sql Client.

Record SaveOptions := {
  autoSave : option bool;
  validateData : option bool;
  createBackup : option bool;
  showNotifications : option bool
}.

Definition no_options : SaveOptions :=
  {| autoSave := None; validateData := None; createBackup := None;
     showNotifications := None |}.

Record SaveResult := {
  success : bool;
  data : option json;
  errors : option (list jsstring)
}.

Record BulkResult := {
  b_success : bool;
  savedCount : Z;
  b_errors : list jsstring
}.

Record update := {
  u_elementType : jsstring;
  u_elementId : jsstring;
  u_value : json
}.

(** [item.json_data || item.element_value]. *)
Definition row_value (item : portfolio_row) : json :=
  let element_value := match element_value item with
                       | Some s => JStr s
                       | None => JNull
                       end in
  match json_data item with
  | Some j => if truthy j then j else element_value
  | None => element_value
  end.

Section WithHost.
Context `{Host}.

(** The [try] block of [getElement]. *)
Definition getElement_try (elementType elementId : jsstring) (w : world)
    : outcome json * world :=
  let '(r, w1) :=
    rpc (CallGet (Some elementType) (Some elementId))
        (fun d => rows ← get_portfolio_data (session w) (Some elementType)
                           (Some elementId) d;
                  Ok (rows, d)) w in
  match r with
  | RpcError m => (Thrown m, w1)
  | RpcData rows =>
      match rows with
      | item :: _ => (Returned (row_value item), w1)
      | [] => (Returned JNull, w1)
      end
  end.

(** [getElement]: the [catch] clause logs and returns [null]. *)
Definition getElement (elementType elementId : jsstring) (w : world)
    : outcome json * world :=
  match getElement_try elementType elementId w with
  | (Returned v, w1) => (Returned v, w1)
  | (Thrown _, w1) => (Returned JNull, w1)
  end.

(** The validator chosen by [typeof value]. *)
Definition validation_for (value : json) : ValidationResult json :=
  match value with
  | JStr s =>
      let validation := validateText s default_maxLength in
      mkValidation (isValid validation) (DataValidator.errors validation)
                   (JStr <$> sanitizedValue validation)
  | _ => validateJson JSON_stringify value default_maxSize
  end.

(** [validation.sanitizedValue || value]. *)
Definition sanitized_or (validation : ValidationResult json) (value : json) : json :=
  match sanitizedValue validation with
  | Some sanitized => if truthy sanitized then sanitized else value
  | None => value
  end.

(** The [catch] clause of [saveElement]. *)
Definition save_failed (showNotifications : bool) (message : jsstring) (w : world)
    : SaveResult * world :=
  ({| success := false; data := None; errors := Some [message] |},
   if showNotifications
   then add_toast (ToastError (lit "Failed to save: " ++ message)) w
   else w).

(** The part of [saveElement] after validation: read the current value,
    upsert, emit the change event, notify. *)
Definition save_write (elementType elementId : jsstring) (value : json)
    (autoSave showNotifications : bool) (user : uuid) (w : world)
    : SaveResult * world :=
  match getElement elementType elementId w with
  | (Thrown m, w1) => save_failed showNotifications m w1
  | (Returned currentData, w1) =>
      let elementValue := match value with JStr s => Some s | _ => None end in
      let jsonData := match typeof value with
                      | TObject => match value with JNull => None | _ => Some value end
                      | _ => None
                      end in
      let p_metadata :=
        JObj [(lit "auto_save", JBool autoSave);
              (lit "last_modified", JStr (toISOString (now w1)));
              (lit "user_agent", JStr navigator_userAgent)] in
      let '(r, w2) :=
        rpc (CallUpsert elementType elementId elementValue jsonData (Some p_metadata))
            (upsert_portfolio_data (session w1) (now w1) elementType elementId
               elementValue jsonData (Some p_metadata)) w1 in
      match r with
      | RpcError m => save_failed showNotifications m w2
      | RpcData data =>
          let w3 := emitDataChange
                      {| ev_elementType := elementType; ev_elementId := elementId;
                         oldValue := currentData; newValue := value;
                         timestamp := now w2; userId := user |} w2 in
          ({| success := true; data := Some (JStr data); errors := None |},
           if showNotifications && negb autoSave
           then add_toast (ToastSuccess (lit "Changes saved successfully!")) w3
           else w3)
      end
  end.

(** [saveElement(elementType, elementId, value, options)]. *)
Definition saveElement (elementType elementId : jsstring) (value : json)
    (options : SaveOptions) (w : world) : SaveResult * world :=
  let autoSave := default false (autoSave options) in
  let validateData := default true (validateData options) in
  let showNotifications := default true (showNotifications options) in
  match session w with
  | None =>
      save_failed showNotifications
        (lit "User must be authenticated to save data") w
  | Some user =>
      if validateData then
        let validation := validation_for value in
        if negb (isValid validation) then
          ({| success := false; data := None;
              errors := Some (DataValidator.errors validation) |},
           if showNotifications
           then add_toast
                  (ToastError (lit "Validation failed: "
                                 ++ join (lit ", ") (DataValidator.errors validation))) w
           else w)
        else save_write elementType elementId (sanitized_or validation value)
               autoSave showNotifications user w
      else save_write elementType elementId value autoSave showNotifications user w
  end.

(** [bulkSave(updates)]. *)
Definition bulk_failed (message : jsstring) (w : world) : BulkResult * world :=
  ({| b_success := false; savedCount := 0; b_errors := [message] |},
   add_toast (ToastError (lit "Bulk save failed: " ++ message)) w).

Definition bulk_item_of (now : Z) (u : update) : bulk_item :=
  {| bi_element_type := u_elementType u;
     bi_element_id := u_elementId u;
     bi_element_value := match u_value u with JStr s => Some s | _ => None end;
     bi_json_data := match typeof (u_value u) with
                     | TObject => u_value u
                     | _ => JNull
                     end;
     bi_metadata := JObj [(lit "bulk_operation", JBool true);
                          (lit "timestamp", JStr (toISOString now))] |}.

Definition bulkData (updates : list update) (w : world) : list bulk_item :=
  map (bulk_item_of (now w)) updates.

Definition bulkSave (updates : list update) (w : world) : BulkResult * world :=
  match session w with
  | None => bulk_failed (lit "User must be authenticated") w
  | Some _ =>
      let p_updates := bulkData updates w in
      let '(r, w1) :=
        rpc (CallBulk p_updates)
            (bulk_update_portfolio_data (session w) (now w) p_updates) w in
      match r with
      | RpcError m => bulk_failed m w1
      | RpcData count =>
          ({| b_success := true; savedCount := count; b_errors := [] |},
           add_toast (ToastSuccess (lit "Successfully saved " ++ lit (pretty count)
                                      ++ lit " items!")) w1)
      end
  end.

End WithHost.
End Service.

(** ** Debounced auto-save ([autoSave]) on the page's event loop *)

Module AutoSave.
Import Service.

(** A timer set by [setTimeout]: the callback closes over the [elementType]
    and [elementId] of the call that set it. *)
Record timer := {
  handle : nat;
  due : Z;
  t_elementType : jsstring;
  t_elementId : jsstring
}.

(** A [saveElement] call awaited by a timer callback, and the time at which
    it resolves. *)
Record flight := {
  call_no : nat;
  lands : Z;
  f_key : jsstring
}.

Record save_call := {
  started : Z;
  c_elementType : jsstring;
  c_elementId : jsstring;
  c_value : json;
  c_options : SaveOptions
}.

(** The two static maps of the service, and around them the host's timer
    queue, the awaited calls, the log of [saveElement] invocations and the
    clock.  [latency n] is the time the n-th [saveElement] call takes. *)
Record page := {
  autoSaveTimeouts : gmap (list N) nat;
  pendingChanges : gmap (list N) json;
  timers : list timer;
  next_handle : nat;
  in_flight : list flight;
  save_calls : list save_call;
  clock : Z;
  latency : nat -> Z
}.

(** A freshly loaded page.  Timer handles start at 1. *)
Definition fresh (latency : nat -> Z) : page :=
  {| autoSaveTimeouts := ∅; pendingChanges := ∅; timers := [];
     next_handle := 1; in_flight := []; save_calls := []; clock := 0;
     latency := latency |}.

Definition key_of (elementType elementId : jsstring) : jsstring :=
  elementType ++ lit "_" ++ elementId.

(** [clearTimeout(h)]: a timer that has fired or was cleared is no longer in
    the queue, and clearing it does nothing. *)
Definition clearTimeout (h : nat) (ts : list timer) : list timer :=
  List.filter (fun tm => negb (handle tm =? h)%nat) ts.

Definition default_delay : Z := 2000.

(** [autoSave(elementType, elementId, value, delay)]. *)
Definition autoSave (elementType elementId : jsstring) (value : json)
    (delay : Z) (p : page) : page :=
  let key := key_of elementType elementId in
  let timers1 :=
    match autoSaveTimeouts p !! key with
    | Some existingTimeout =>
        if (existingTimeout =? 0)%nat then timers p
        else clearTimeout existingTimeout (timers p)
    | None => timers p
    end in
  let timeout := next_handle p in
  {| autoSaveTimeouts := <[key := timeout]> (autoSaveTimeouts p);
     pendingChanges := <[key := value]> (pendingChanges p);
     timers := timers1 ++ [ {| handle := timeout;
                               due := clock p + Z.max 0 delay;
                               t_elementType := elementType;
                               t_elementId := elementId |} ];
     next_handle := S timeout;
     in_flight := in_flight p;
     save_calls := save_calls p;
     clock := clock p;
     latency := latency p |}.

(** The timer callback up to its [await]: it reads the pending value and, if
    there is one, starts [saveElement] with [autoSave: true] and
    [showNotifications: false]. *)
Definition fire (tm : timer) (p : page) : page :=
  let key := key_of (t_elementType tm) (t_elementId tm) in
  let t := Z.max (clock p) (due tm) in
  let timers' := clearTimeout (handle tm) (timers p) in
  match pendingChanges p !! key with
  | Some pendingValue =>
      let n := List.length (save_calls p) in
      {| autoSaveTimeouts := autoSaveTimeouts p;
         pendingChanges := pendingChanges p;
         timers := timers';
         next_handle := next_handle p;
         in_flight := in_flight p ++
           [ {| call_no := n; lands := t + Z.max 0 (latency p n); f_key := key |} ];
         save_calls := save_calls p ++
           [ {| started := t;
                c_elementType := t_elementType tm;
                c_elementId := t_elementId tm;
                c_value := pendingValue;
                c_options := {| Service.autoSave := Some true;
                                validateData := None; createBackup := None;
                                showNotifications := Some false |} |} ];
         clock := t;
         latency := latency p |}
  | None =>
      {| autoSaveTimeouts := autoSaveTimeouts p;
         pendingChanges := pendingChanges p;
         timers := timers';
         next_handle := next_handle p;
         in_flight := in_flight p;
         save_calls := save_calls p;
         clock := t;
         latency := latency p |}
  end.

(** The rest of the callback, once the awaited call has resolved: both map
    entries of the key are deleted. *)
Definition land (f : flight) (p : page) : page :=
  {| autoSaveTimeouts := delete (f_key f) (autoSaveTimeouts p);
     pendingChanges := delete (f_key f) (pendingChanges p);
     timers := timers p;
     next_handle := next_handle p;
     in_flight := List.filter (fun g => negb (call_no g =? call_no f)%nat) (in_flight p);
     save_calls := save_calls p;
     clock := Z.max (clock p) (lands f);
     latency := latency p |}.

Inductive event :=
  | Fire (tm : timer)
  | Land (f : flight).

Definition event_time (e : event) : Z :=
  match e with
  | Fire tm => due tm
  | Land f => lands f
  end.

Definition step (e : event) (p : page) : page :=
  match e with
  | Fire tm => fire tm p
  | Land f => land f p
  end.

(** The element with the least time, the earliest in the list among equals. *)
Fixpoint earliest {A} (time : A -> Z) (l : list A) : option A :=
  match l with
  | [] => None
  | x :: rest =>
      match earliest time rest with
      | Some y => if time y <? time x then Some y else Some x
      | None => Some x
      end
  end.

(** The event the loop runs next; a resolved call goes before a timer due at
    the same instant. *)
Definition next_event (p : page) : option event :=
  match earliest lands (in_flight p), earliest due (timers p) with
  | Some f, Some tm => if due tm <? lands f then Some (Fire tm) else Some (Land f)
  | Some f, None => Some (Land f)
  | None, Some tm => Some (Fire tm)
  | None, None => None
  end.

Definition due_by (until : option Z) (t : Z) : bool :=
  match until with
  | Some limit => t <=? limit
  | None => true
  end.

Fixpoint run (fuel : nat) (until : option Z) (p : page) : page :=
  match fuel with
  | O => p
  | S fuel' =>
      match next_event p with
      | Some e =>
          if due_by until (event_time e) then run fuel' until (step e p) else p
      | None => p
      end
  end.

(** Every event either removes a timer and adds at most one awaited call, or
    removes an awaited call. *)
Definition events_left (p : page) : nat :=
  (2 * List.length (timers p) + List.length (in_flight p))%nat.

Definition set_clock (t : Z) (p : page) : page :=
  {| autoSaveTimeouts := autoSaveTimeouts p;
     pendingChanges := pendingChanges p;
     timers := timers p; next_handle := next_handle p;
     in_flight := in_flight p; save_calls := save_calls p;
     clock := Z.max (clock p) t; latency := latency p |}.

(** Let time pass until [t], running whatever falls due. *)
Definition advance (t : Z) (p : page) : page :=
  set_clock t (run (events_left p) (Some t) p).

(** Let time pass until nothing is scheduled any more. *)
Definition settle (p : page) : page :=
  run (events_left p) None p.

(** One edit: its arrival time, value and debounce delay. *)
Record edit := {
  e_time : Z;
  e_value : json;
  e_delay : Z
}.

Definition edit_at (elementType elementId : jsstring) (e : edit) (p : page) : page :=
  autoSave elementType elementId (e_value e) (e_delay e) (advance (e_time e) p).

Definition edits (elementType elementId : jsstring) (es : list edit) (p : page) : page :=
  foldl (fun q e => edit_at elementType elementId e q) p es.

(** Every edit of [es] arrives after [prev], its predecessor, and less than
    the predecessor's debounce delay later. *)
Fixpoint within_window (prev : edit) (es : list edit) : Prop :=
  match es with
  | [] => True
  | e :: rest =>
      e_time prev <= e_time e < e_time prev + e_delay prev
      /\ within_window e rest
  end.

(** The options of the [saveElement] call made by a timer callback. *)
Definition flush_options : SaveOptions :=
  {| Service.autoSave := Some true; validateData := None; createBackup := None;
     showNotifications := Some false |}.

(** The flush of edit [e]: the [saveElement] call its timer makes when it
    expires. *)
Definition flush_of (elementType elementId : jsstring) (e : edit) : save_call :=
  {| started := e_time e + Z.max 0 (e_delay e);
     c_elementType := elementType;
     c_elementId := elementId;
     c_value := e_value e;
     c_options := flush_options |}.

(** The timer that edit [e] sets, under handle [h]. *)
Definition timer_of (elementType elementId : jsstring) (e : edit) (h : nat) : timer :=
  {| handle := h; due := e_time e + Z.max 0 (e_delay e);
     t_elementType := elementType; t_elementId := elementId |}.

(** The page right after edit [e] of a burst: the edit's value is buffered
    and one timer, the edit's own, is running for the key. *)
Definition armed (elementType elementId : jsstring) (e : edit)
    (calls : list save_call) (p : page) : Prop :=
  exists h,
    h <> O
    /\ timers p = [timer_of elementType elementId e h]
    /\ autoSaveTimeouts p !! key_of elementType elementId = Some h
    /\ pendingChanges p !! key_of elementType elementId = Some (e_value e)
    /\ in_flight p = []
    /\ save_calls p = calls
    /\ clock p = e_time e
    /\ next_handle p <> O.

End AutoSave.

(** ** RealTimeFormService.validateShareLink (realTimeFormService.ts) *)

Module Forms.
Import Client Service.

Section WithHost.
Context `{Host}.

(** [new Date(a) < new Date()]: comparison of time values, false when the
    left one is NaN. *)
Definition date_before_now (a : option json) (now : Z) : bool :=
  match Date_time a with
  | Some t => t <? now
  | None => false
  end.

(** The checks of [validateShareLink] on what [getElement] returned. *)
Definition check_share (shareData : json) (now : Z) : outcome json :=
  if negb (truthy shareData) then Thrown (lit "Share link not found")
  else if negb (truthy_opt (get_prop shareData (lit "isActive")))
  then Thrown (lit "Share link is inactive")
  else if date_before_now (get_prop shareData (lit "expiresAt")) now
  then Thrown (lit "Share link has expired")
  else Returned shareData.

(** [validateShareLink(shareId)]; the [catch] clause logs and rethrows. *)
Definition validateShareLink (shareId : jsstring) (w : world) : outcome json * world :=
  match getElement (lit "share") shareId w with
  | (Returned shareData, w1) => (check_share shareData (now w1), w1)
  | (Thrown m, w1) => (Thrown m, w1)
  end.

End WithHost.
End Forms.

(** ** Statements on the tables: the soft delete and the share clean-up *)

Module Statements.
Import Sql.

Section WithHost.
Context `{Host}.

(** One row selected by
    [UPDATE portfolio_data_v2 SET is_active = false, updated_at = ...]: the
    BEFORE UPDATE triggers run on the updated row, the backup trigger first
    (it overwrites [updated_at] with [NOW()]). *)
Definition deactivate_row (auth_uid : option uuid) (now : timestamptz)
    (OLD : portfolio_row) (backups : list backup_row)
    : result (portfolio_row * list backup_row) :=
  '(NEW, backups') ← create_portfolio_backup now OLD
    {| id := id OLD; user_id := user_id OLD;
       element_type := element_type OLD; element_id := element_id OLD;
       element_value := element_value OLD; json_data := json_data OLD;
       metadata := metadata OLD; version := version OLD;
       is_active := Some false; created_at := created_at OLD;
       updated_at := now |} backups;
  NEW ← validate_portfolio_data auth_uid NEW;
  Ok (NEW, backups').

Fixpoint deactivate_rows (auth_uid : option uuid) (now : timestamptz)
    (selected : portfolio_row -> bool) (rows : list portfolio_row)
    (backups : list backup_row)
    : result (list portfolio_row * list backup_row) :=
  match rows with
  | [] => Ok ([], backups)
  | r :: rest =>
      '(r', backups1) ← (if selected r
                         then deactivate_row auth_uid now r backups
                         else Ok (r, backups));
      '(rest', backups2) ← deactivate_rows auth_uid now selected rest backups1;
      Ok (r' :: rest', backups2)
  end.

(** The [WHERE] clause of the statement [deleteElement] sends, together with
    the row-level security policy of the table, which lets a user update
    only rows whose [user_id] is [auth.uid()]. *)
Definition delete_selected (auth_uid : option uuid) (p_user_id : uuid)
    (p_element_type p_element_id : jsstring) (r : portfolio_row) : bool :=
  bool_decide (auth_uid = Some (user_id r))
  && bool_decide (user_id r = p_user_id)
  && bool_decide (element_type r = p_element_type)
  && bool_decide (element_id r = p_element_id).

(** The soft delete as one statement: if a trigger raises for any row, no
    row is changed. *)
Definition soft_delete (auth_uid : option uuid) (now : timestamptz)
    (p_user_id : uuid) (p_element_type p_element_id : jsstring) (d : database)
    : result (unit * database) :=
  '(rows, backups) ← deactivate_rows auth_uid now
      (delete_selected auth_uid p_user_id p_element_type p_element_id)
      (portfolio_data_v2 d) (portfolio_data_backup d);
  Ok (tt, {| portfolio_data_v2 := rows; portfolio_data_backup := backups;
             form_shares := form_shares d; uuids_drawn := uuids_drawn d |}).

End WithHost.

(** The [WHERE] clause of [cleanup_expired_shares]; a [NULL] in either
    column does not satisfy it. *)
Definition expired_share (now : timestamptz) (r : share_row) : bool :=
  match expires_at r with
  | Some e => e <? now
  | None => false
  end
  && bool_decide (s_is_active r = Some true).

(** [SET is_active = false, updated_at = NOW()]. *)
Definition deactivate_share (now : timestamptz) (r : share_row) : share_row :=
  {| s_id := s_id r; share_id := share_id r; form_id := form_id r;
     created_by := created_by r; permissions := permissions r;
     password_hash := password_hash r; expires_at := expires_at r;
     s_is_active := Some false; access_count := access_count r;
     last_accessed_at := last_accessed_at r; s_created_at := s_created_at r;
     s_updated_at := Some now |}.

(** Function [cleanup_expired_shares]: the number of rows the [UPDATE]
    changed is assigned to an [INTEGER] variable and returned. *)
Definition cleanup_expired_shares (now : timestamptz) (shares : list share_row)
    : result (Z * list share_row) :=
  let shares' := map (fun r => if expired_share now r
                               then deactivate_share now r else r) shares in
  let deleted_count :=
    Z.of_nat (List.length (List.filter (expired_share now) shares)) in
  if deleted_count >? int4_max then Raise (lit "integer out of range")
  else Ok (deleted_count, shares').

End Statements.

(** ** EnhancedPortfolioDataService: deleting, loading, listeners, teardown *)

Module Lifecycle.
Import Sql Client Service AutoSave Statements.

(** A request on a table ([supabase.from(...)]): like an RPC it consumes the
    next transport outcome; [rpc_log] keeps RPC requests only. *)
Definition request (w : world) : option jsstring * world :=
  (match faults w with Some m :: _ => Some m | _ => None end,
   {| session := session w; db := db w; now := now w; faults := tail (faults w);
      rpc_log := rpc_log w; toasts := toasts w; emitted := emitted w |}).

(** [supabase.from('portfolio_data_backup').insert({...})] in
    [deleteElement].  The table has row-level security enabled with a SELECT
    policy only, and the row sent has no [original_id] (a NOT NULL column),
    so the database refuses the row; the client resolves to an [error] that
    [deleteElement] does not look at. *)
Definition insert_deletion_backup (w : world) : world := snd (request w).

(** The [catch] clause of [deleteElement]. *)
Definition delete_failed (message : jsstring) (w : world) : bool * world :=
  (false, add_toast (ToastError (lit "Failed to delete: " ++ message)) w).

Section WithHost.
Context `{Host}.

(** [deleteElement(elementType, elementId)]. *)
Definition deleteElement (elementType elementId : jsstring) (w : world)
    : bool * world :=
  match session w with
  | None => delete_failed (lit "User must be authenticated") w
  | Some user =>
      match getElement elementType elementId w with
      | (Thrown m, w1) => delete_failed m w1
      | (Returned currentValue, w1) =>
          let w2 := if truthy currentValue then insert_deletion_backup w1
                    else w1 in
          let '(fault, w3) := request w2 in
          match fault with
          | Some m => delete_failed m w3
          | None =>
              match soft_delete (session w3) (now w3) user
                      elementType elementId (db w3) with
              | Ok (_, d') =>
                  (true,
                   add_toast (ToastSuccess (lit "Item deleted successfully!"))
                     (set_db d' w3))
              | Raise m => delete_failed m w3
              end
          end
      end
  end.

End WithHost.

(** [loadAllData()]: the rows come newest first and a later [set] replaces
    an earlier one under the same key. *)
Definition loadAllData (w : world) : gmap jsstring json * world :=
  let '(r, w1) :=
    rpc (CallGet None None)
        (fun d => rows ← get_portfolio_data (session w) None None d;
                  Ok (rows, d)) w in
  match r with
  | RpcError _ => (∅, w1)
  | RpcData rows =>
      (foldl (fun dataMap item =>
                <[key_of (element_type item) (element_id item) := row_value item]>
                  dataMap) ∅ rows, w1)
  end.

(** [clearAllAutoSaveTimeouts()]: every timer handle stored in
    [autoSaveTimeouts] is cleared, then both maps are emptied.  Awaited
    [saveElement] calls are not touched. *)
Definition clearAllAutoSaveTimeouts (p : page) : page :=
  {| autoSaveTimeouts := ∅;
     pendingChanges := ∅;
     timers := foldr (fun entry ts => clearTimeout (snd entry) ts) (timers p)
                 (map_to_list (autoSaveTimeouts p));
     next_handle := next_handle p;
     in_flight := in_flight p;
     save_calls := save_calls p;
     clock := clock p;
     latency := latency p |}.

End Lifecycle.

(** ** The change listeners of EnhancedPortfolioDataService *)

Module Listeners.
Import Client.

(** A listener is a function object, and [indexOf] compares by identity: a
    callback is represented by a name.  What calling it does is a parameter
    of [emitDataChange] below; listeners that subscribe or unsubscribe while
    an event is being delivered are not covered. *)
Definition callback := nat.

Record bus := {
  changeListeners : list callback;
  (** the calls made so far, oldest first *)
  calls : list (callback * DataChangeEvent);
  (** what [console.error] was given *)
  console_errors : list jsstring
}.

(** [onDataChange(callback)] up to its [return]. *)
Definition onDataChange (cb : callback) (b : bus) : bus :=
  {| changeListeners := changeListeners b ++ [cb];
     calls := calls b; console_errors := console_errors b |}.

(** [Array.prototype.indexOf]. *)
Fixpoint indexOf (cb : callback) (l : list callback) : option nat :=
  match l with
  | [] => None
  | x :: rest => if (x =? cb)%nat then Some O else S <$> indexOf cb rest
  end.

(** [array.splice(index, 1)]. *)
Definition splice1 (index : nat) (l : list callback) : list callback :=
  take index l ++ drop (S index) l.

(** The function that [onDataChange(callback)] returns. *)
Definition unsubscribe (cb : callback) (b : bus) : bus :=
  match indexOf cb (changeListeners b) with
  | Some index =>
      {| changeListeners := splice1 index (changeListeners b);
         calls := calls b; console_errors := console_errors b |}
  | None => b
  end.

(** One iteration of the [forEach] in [emitDataChange]: the call, and the
    [catch] around it.  [throws cb e] is the message of the error that
    [cb(e)] throws, if it throws. *)
Definition deliver (throws : callback -> DataChangeEvent -> option jsstring)
    (e : DataChangeEvent) (b : bus) (cb : callback) : bus :=
  let called := {| changeListeners := changeListeners b;
                   calls := calls b ++ [(cb, e)];
                   console_errors := console_errors b |} in
  match throws cb e with
  | Some m =>
      {| changeListeners := changeListeners called; calls := calls called;
         console_errors := console_errors called ++ [m] |}
  | None => called
  end.

(** [emitDataChange(event)]. *)
Definition emitDataChange (throws : callback -> DataChangeEvent -> option jsstring)
    (e : DataChangeEvent) (b : bus) : bus :=
  foldl (deliver throws e) b (changeListeners b).

End Listeners.

(** ** RealTimeFormService: creating share links and submitting forms *)

Module FormsWrite.
Import Client Service.

Record ShareOptions := {
  expiresIn : option Z;                     (* days *)
  o_permissions : option (list jsstring);
  password : option jsstring
}.

Definition day : Z := 24 * 60 * 60 * 1000.

(** The largest time value of a [Date]. *)
Definition max_time : Z := 8640000000000000.

Section WithHost.
Context `{Host}.

(** [new Date(t).toISOString()] for a computed [t]: a RangeError outside the
    range of time values. *)
Definition iso (t : Z) : outcome jsstring :=
  if Z.abs t >? max_time then Thrown (lit "Invalid time value")
  else Returned (toISOString t).

(** The object literal [shareData]; a property whose value is [undefined]
    is left out, as it is by [JSON.stringify]. *)
Definition share_record (formId shareId : jsstring) (user : Sql.uuid)
    (createdAt expiresAt : jsstring) (options : ShareOptions) : json :=
  JObj ([ (lit "formId", JStr formId);
          (lit "shareId", JStr shareId);
          (lit "createdBy", JStr user);
          (lit "createdAt", JStr createdAt);
          (lit "expiresAt", JStr expiresAt);
          (lit "permissions",
           JArr (map JStr (default [lit "read"] (o_permissions options)))) ]
        ++ match password options with
           | Some p => [(lit "password", JStr p)]
           | None => []
           end
        ++ [ (lit "isActive", JBool true) ]).

(** [createShareLink(formId, options)]; [origin] is
    [window.location.origin].  The clock reading is a valid time value; the
    expiry computed from [options.expiresIn] need not be.  The result of
    [saveElement] is not looked at. *)
Definition createShareLink (origin formId : jsstring) (options : ShareOptions)
    (w : world) : outcome jsstring * world :=
  match session w with
  | None => (Thrown (lit "User must be authenticated"), w)
  | Some user =>
      let shareId := lit "share_" ++ formId ++ lit "_" ++ lit (pretty (now w)) in
      let expiresAt :=
        match expiresIn options with
        | Some days => if days =? 0 then now w + 30 * day else now w + days * day
        | None => now w + 30 * day
        end in
      match iso expiresAt with
      | Thrown m => (Thrown m, w)
      | Returned expires =>
          let shareData :=
            share_record formId shareId user (toISOString (now w)) expires
              options in
          let '(_, w1) := saveElement (lit "share") shareId shareData no_options w in
          (Returned (origin ++ lit "/forms?share=" ++ shareId), w1)
      end
  end.

(** The object literal [submission]. *)
Definition submission_record (id formId : jsstring) (data : json)
    (submittedAt : jsstring) (submittedBy : option Sql.uuid)
    (ipAddress : option jsstring) : json :=
  JObj ([ (lit "id", JStr id);
          (lit "formId", JStr formId);
          (lit "submittedData", data);
          (lit "submittedAt", JStr submittedAt) ]
        ++ match submittedBy with
           | Some u => [(lit "submittedBy", JStr u)]
           | None => []
           end
        ++ match ipAddress with
           | Some ip => [(lit "ipAddress", JStr ip)]
           | None => []
           end
        ++ [ (lit "userAgent", JStr navigator_userAgent) ]).

(** [submitForm(formId, data)]; [clientIP] is what [getClientIP()] resolves
    to.  The result of [saveElement] is not looked at. *)
Definition submitForm (clientIP : option jsstring) (formId : jsstring)
    (data : json) (w : world) : outcome json * world :=
  let submission :=
    submission_record (lit "submission_" ++ lit (pretty (now w))) formId data
      (toISOString (now w)) (session w) clientIP in
  let '(_, w1) :=
    saveElement (lit "form_submission")
      (lit "submission_" ++ lit (pretty (now w))) submission no_options w in
  (Returned submission, w1).

End WithHost.
End FormsWrite.

(** ** DataValidator.validateEmail (dataValidation.ts) *)

Module Email.
Import DataValidator.

(** The class [[^\s@]]. *)
Definition address_unit (c : code_unit) : bool :=
  negb (is_space c) && negb (c =? 64)%N.

(** [/^[^\s@]+@[^\s@]+\.[^\s@]+$/.test(email)].  The first run can only end
    in front of the first code unit outside the class, which has to be the
    [@]; everything after it has to be in the class, with a dot that is
    neither its first nor its last code unit. *)
Definition emailRegex (email : jsstring) : bool :=
  let local := span address_unit email in
  match local with
  | O => false
  | S _ =>
      match drop local email with
      | c :: domain =>
          (c =? 64)%N
          && forallb address_unit domain
          && existsb (fun x => (x =? 46)%N) (removelast (tail domain))
      | [] => false
      end
  end.

(** [validateEmail(email)]; [toLowerCase] is the built-in. *)
Definition validateEmail (toLowerCase : jsstring -> jsstring) (email : jsstring)
    : ValidationResult jsstring :=
  match email with
  | [] => mkValidation false [lit "Invalid email format"] None
  | _ =>
      if negb (emailRegex email)
      then mkValidation false [lit "Invalid email format"] None
      else mkValidation true [] (Some (trim (toLowerCase email)))
  end.

End Email.

(** ** A concrete host

    An instance of [Host] on which the model can be run.  It follows the
    built-ins on the inputs used below: JSON text, dates in the format that
    [toISOString] writes, and text free of [<script] for the PostgreSQL
    regular expressions (whose longest-match rule is not reproduced). *)

Module ConcreteHost.

(** The JSON text of a value ([JSON.stringify] without indentation). *)
Definition hex_digit (n : N) : N :=
  (if n <? 10 then 48 + n else 87 + n)%N.

(** [QuoteJSONString]. *)
Definition quote_unit (c : code_unit) : jsstring :=
  (if c =? 34 then [92; 34]
   else if c =? 92 then [92; 92]
   else if c =? 8 then 92 :: lit "b"
   else if c =? 9 then 92 :: lit "t"
   else if c =? 10 then 92 :: lit "n"
   else if c =? 12 then 92 :: lit "f"
   else if c =? 13 then 92 :: lit "r"
   else if c <? 32 then 92 :: lit "u00" ++ [hex_digit (c / 16); hex_digit (c mod 16)]
   else [c])%N.

Definition quote (s : jsstring) : jsstring :=
  [34%N] ++ flat_map quote_unit s ++ [34%N].

Fixpoint stringify (j : json) : jsstring :=
  match j with
  | JNull => lit "null"
  | JBool true => lit "true"
  | JBool false => lit "false"
  | JNum n => lit (pretty n)
  | JStr s => quote s
  | JArr items => lit "[" ++ join (lit ",") (map stringify items) ++ lit "]"
  | JObj fields =>
      lit "{" ++
      join (lit ",")
        (map (fun kv => quote (fst kv) ++ lit ":" ++ stringify (snd kv)) fields)
      ++ lit "}"
  end.

(** Days since 1970-01-01 of a date of the proleptic Gregorian calendar. *)
Definition days_from_civil (y m d : Z) : Z :=
  let y' := if m <=? 2 then y - 1 else y in
  let era := y' / 400 in
  let yoe := y' - era * 400 in
  let doy := (153 * (if m >? 2 then m - 3 else m + 9) + 2) / 5 + d - 1 in
  let doe := yoe * 365 + yoe / 4 - yoe / 100 + doy in
  era * 146097 + doe - 719468.

Definition civil_from_days (z : Z) : Z * Z * Z :=
  let z := z + 719468 in
  let era := z / 146097 in
  let doe := z - era * 146097 in
  let yoe := (doe - doe / 1460 + doe / 36524 - doe / 146096) / 365 in
  let doy := doe - (365 * yoe + yoe / 4 - yoe / 100) in
  let mp := (5 * doy + 2) / 153 in
  let d := doy - (153 * mp + 2) / 5 + 1 in
  let m := if mp <? 10 then mp + 3 else mp - 9 in
  (if m <=? 2 then yoe + era * 400 + 1 else yoe + era * 400, m, d).

Definition digit (n : Z) : code_unit := Z.to_N (48 + n mod 10).

Definition digits2 (n : Z) : jsstring := [digit (n / 10); digit n].
Definition digits3 (n : Z) : jsstring := [digit (n / 100); digit (n / 10); digit n].
Definition digits4 (n : Z) : jsstring :=
  [digit (n / 1000); digit (n / 100); digit (n / 10); digit n].

(** [YYYY-MM-DDTHH:mm:ss.sssZ], for the years 0 to 9999. *)
Definition iso_string (t : Z) : jsstring :=
  let day := t / 86400000 in
  let ms := t mod 86400000 in
  let '(y, m, d) := civil_from_days day in
  digits4 y ++ lit "-" ++ digits2 m ++ lit "-" ++ digits2 d ++ lit "T"
  ++ digits2 (ms / 3600000) ++ lit ":" ++ digits2 (ms / 60000 mod 60) ++ lit ":"
  ++ digits2 (ms / 1000 mod 60) ++ lit "." ++ digits3 (ms mod 1000) ++ lit "Z".

Definition number_of (ds : list code_unit) : Z :=
  foldl (fun acc c => acc * 10 + (Z.of_N c - 48)) 0 ds.

(** The time value of a string in that format; any other string is taken to
    be an Invalid Date. *)
Definition parse_iso (s : jsstring) : option Z :=
  match s with
  | [y1; y2; y3; y4; _; m1; m2; _; d1; d2; _; h1; h2; _; n1; n2; _; s1; s2; _;
     f1; f2; f3; _] =>
      let t := days_from_civil (number_of [y1; y2; y3; y4]) (number_of [m1; m2])
                 (number_of [d1; d2]) * 86400000
               + number_of [h1; h2] * 3600000 + number_of [n1; n2] * 60000
               + number_of [s1; s2] * 1000 + number_of [f1; f2; f3] in
      if bool_decide (iso_string t = s) then Some t else None
  | _ => None
  end.

Definition date_time (v : option json) : option Z :=
  match v with
  | Some (JNum n) => Some n
  | Some (JStr s) => parse_iso s
  | Some JNull => Some 0
  | Some (JBool b) => Some (if b then 1 else 0)
  | _ => None
  end.

(** Number of characters: code units that are not the second half of a
    surrogate pair. *)
Definition characters (s : jsstring) : Z :=
  Z.of_nat (List.length (List.filter (fun c => negb ((56320 <=? c) && (c <=? 57343))%N) s)).

(** [regexp_replace] for the two patterns of the validation trigger, each
    replaced by the empty string wherever it matches. *)
Definition replace (source pattern replacement flags : jsstring) : jsstring :=
  if bool_decide (pattern = lit "javascript:")
  then replace_all javascript_protocol source
  else if bool_decide (pattern = lit "<script[^>]*>.*?</script>")
  then replace_all script_tag source
  else source.

(** The n-th identifier: a version-4 UUID that ends in the number [n]. *)
Definition uuid_of (n : nat) : jsstring :=
  lit "00000000-0000-4000-8000-" ++ digits4 (Z.of_nat n / 100000000)
  ++ digits4 (Z.of_nat n / 10000) ++ digits4 (Z.of_nat n).

Definition host : Host := {|
  JSON_stringify := fun j => Some (stringify j);
  Date_time := date_time;
  toISOString := iso_string;
  navigator_userAgent := lit "Mozilla/5.0";
  regexp_replace := replace;
  pg_length := characters;
  pg_column_size := fun j => Z.of_nat (List.length (stringify j));
  gen_random_uuid := uuid_of
|}.

End ConcreteHost.

(** ** Concrete worlds for the examples *)

Module Scenario.
Import Sql Client Service.

Definition owner : uuid := lit "6f1c2a9e-58d3-4b7a-9c41-0d2e8f3a7b15".

Definition empty_database : database :=
  {| portfolio_data_v2 := []; portfolio_data_backup := []; form_shares := [];
     uuids_drawn := 0 |}.

(** A signed-in page in front of an empty database, with a working
    connection; the clock reads 2025-07-29T00:00:00.000Z. *)
Definition signed_in : world :=
  {| session := Some owner; db := empty_database; now := 1753747200000;
     faults := []; rpc_log := []; toasts := []; emitted := [] |}.

(** The same page when the next request fails in transit. *)
Definition offline : world :=
  {| session := Some owner; db := empty_database; now := 1753747200000;
     faults := [Some (lit "Failed to fetch")]; rpc_log := []; toasts := [];
     emitted := [] |}.

(** The debounce scenario of the specification: a delay of 1500 ms, a first
    edit at 0 ms and a second one at 1000 ms. *)
Definition hello : AutoSave.edit :=
  {| AutoSave.e_time := 0; AutoSave.e_value := JStr (lit "hello");
     AutoSave.e_delay := 1500 |}.

Definition hello_world : AutoSave.edit :=
  {| AutoSave.e_time := 1000; AutoSave.e_value := JStr (lit "hello world");
     AutoSave.e_delay := 1500 |}.

(** An edit at 0 ms and one at 2100 ms, with the default delay of 2000 ms:
    the second arrives while the flush of the first, started at 2000 ms and
    taking 500 ms, is under way. *)
Definition draft : AutoSave.edit :=
  {| AutoSave.e_time := 0; AutoSave.e_value := JStr (lit "draft");
     AutoSave.e_delay := AutoSave.default_delay |}.

Definition final_text : AutoSave.edit :=
  {| AutoSave.e_time := 2100; AutoSave.e_value := JStr (lit "final text");
     AutoSave.e_delay := AutoSave.default_delay |}.

(** A batch of two text updates; the second value, 10001 characters long,
    is over the limit that the validation trigger enforces. *)
Definition too_long : jsstring := replicate (Z.to_nat 10001) 97%N.

Definition two_items : list update :=
  [ {| u_elementType := lit "text"; u_elementId := lit "id1";
       u_value := JStr (lit "v1") |};
    {| u_elementType := lit "text"; u_elementId := lit "id2";
       u_value := JStr too_long |} ].

(** The share id [createShareLink] makes for the form [contact] on
    2025-06-29T00:00:00.000Z, and the default expiry thirty days later. *)
Definition share_name : jsstring := lit "share_contact_1751155200000".

Definition expiry : Z := 1753747200000.

(** A link with that share id as a row of [form_shares], never accessed so
    far. *)
Definition share_link : share_row :=
  {| s_id := lit "3e7a1c5d-9f2b-4d6e-8a0c-1b2d3f4a5c6e";
     share_id := share_name;
     form_id := lit "contact";
     created_by := owner;
     permissions := Some [lit "read"];
     password_hash := None;
     expires_at := Some expiry;
     s_is_active := Some true;
     access_count := Some 0;
     last_accessed_at := None;
     s_created_at := Some 1751155200000;
     s_updated_at := Some 1751155200000 |}.

End Scenario.

(** ** autoSave calls to several keys, in the order the page makes them *)

Module Interleaving.
Import AutoSave.

(** One [autoSave(elementType, elementId, value, delay)] call and the time
    at which the page makes it. *)
Record call := {
  on_type : jsstring;
  on_id : jsstring;
  what : edit
}.

(** The key of the two maps that a call, a timer callback and a
    [saveElement] call made by a timer callback belong to. *)
Definition key_of_call (c : call) : jsstring := key_of (on_type c) (on_id c).

Definition key_of_timer (tm : timer) : jsstring :=
  key_of (t_elementType tm) (t_elementId tm).

Definition key_of_save (c : save_call) : jsstring :=
  key_of (c_elementType c) (c_elementId c).

Definition to_key (k : jsstring) (c : call) : bool := bool_decide (key_of_call c = k).
Definition timer_for (k : jsstring) (tm : timer) : bool := bool_decide (key_of_timer tm = k).
Definition flight_for (k : jsstring) (f : flight) : bool := bool_decide (f_key f = k).
Definition save_for (k : jsstring) (c : save_call) : bool := bool_decide (key_of_save c = k).

(** Making a call: time passes until the call arrives, with whatever falls
    due until then, and [autoSave] runs.  [make_all] makes the calls of a
    list one after the other. *)
Definition make (c : call) (p : page) : page :=
  edit_at (on_type c) (on_id c) (what c) p.

Definition make_all (cs : list call) (p : page) : page :=
  foldl (fun q c => make c q) p cs.

(** The calls are made at or after time [t], in the order of the list. *)
Fixpoint in_time_order (t : Z) (cs : list call) : Prop :=
  match cs with
  | [] => True
  | c :: rest => t <= e_time (what c) /\ in_time_order (e_time (what c)) rest
  end.

(** The flush of a call: the [saveElement] call its timer makes. *)
Definition flush (c : call) : save_call := flush_of (on_type c) (on_id c) (what c).

(** The pages the service can be in: a freshly loaded page, and what
    [autoSave], the passing of time and [clearAllAutoSaveTimeouts] make of
    such a page. *)
Inductive reachable : page -> Prop :=
  | reachable_fresh latency : reachable (fresh latency)
  | reachable_autoSave elementType elementId value delay p :
      reachable p -> reachable (autoSave elementType elementId value delay p)
  | reachable_advance t p : reachable p -> reachable (advance t p)
  | reachable_settle p : reachable p -> reachable (settle p)
  | reachable_clear p :
      reachable p -> reachable (Lifecycle.clearAllAutoSaveTimeouts p).

(** What holds of every reachable page: timer handles are positive and below
    the next handle, a handle recorded for a key is the handle of timers of
    that key only, and awaited calls are numbered apart, below the number of
    calls made. *)
Definition well_formed (p : page) : Prop :=
  next_handle p <> O
  /\ Forall (fun tm => (handle tm < next_handle p)%nat) (timers p)
  /\ (forall key h, autoSaveTimeouts p !! key = Some h ->
        (h < next_handle p)%nat
        /\ Forall (fun tm => handle tm = h -> key_of_timer tm = key) (timers p))
  /\ Forall (fun f => (call_no f < List.length (save_calls p))%nat) (in_flight p)
  /\ (forall f g, In f (in_flight p) -> In g (in_flight p) ->
        call_no f = call_no g -> f = g).

(** Nothing is scheduled for the key: no timer is running for it and no
    flush of it is in flight. *)
Definition at_rest (k : jsstring) (p : page) : Prop :=
  List.filter (timer_for k) (timers p) = []
  /\ List.filter (flight_for k) (in_flight p) = [].

(** Where the last edit [c] of a key is: waiting for its timer (which has
    handle [h]), being saved (by the awaited call number [n], which resolves
    at [resolves]), or saved. *)
Inductive stage :=
  | Waiting (h : nat)
  | Saving (n : nat) (resolves : Z)
  | Saved.

Definition tracks (k : jsstring) (c : call) (before : list save_call)
    (s : stage) (p : page) : Prop :=
  match s with
  | Waiting h =>
      h <> O
      /\ List.filter (timer_for k) (timers p)
         = [timer_of (on_type c) (on_id c) (what c) h]
      /\ autoSaveTimeouts p !! k = Some h
      /\ pendingChanges p !! k = Some (e_value (what c))
      /\ List.filter (flight_for k) (in_flight p) = []
      /\ List.filter (save_for k) (save_calls p) = before
      /\ clock p <= e_time (what c) + Z.max 0 (e_delay (what c))
  | Saving n resolves =>
      List.filter (timer_for k) (timers p) = []
      /\ List.filter (flight_for k) (in_flight p)
         = [ {| call_no := n; lands := resolves; f_key := k |} ]
      /\ List.filter (save_for k) (save_calls p) = before ++ [flush c]
  | Saved =>
      List.filter (timer_for k) (timers p) = []
      /\ List.filter (flight_for k) (in_flight p) = []
      /\ pendingChanges p !! k = None
      /\ List.filter (save_for k) (save_calls p) = before ++ [flush c]
  end.

End Interleaving.

(** ** The constraints of [portfolio_data_v2] *)

Module Constraints.
Import Sql.

(** The columns of [UNIQUE(user_id, element_type, element_id)]. *)
Definition element_key (r : portfolio_row) : uuid * jsstring * jsstring :=
  (user_id r, element_type r, element_id r).

(** The UNIQUE constraint. *)
Definition unique_elements (rows : list portfolio_row) : Prop :=
  NoDup (map element_key rows).

(** The CHECK constraint on [element_type]. *)
Definition checked_types (rows : list portfolio_row) : Prop :=
  Forall (fun r => element_type r ∈ allowed_element_types) rows.

Definition consistent (d : database) : Prop :=
  unique_elements (portfolio_data_v2 d) /\ checked_types (portfolio_data_v2 d).

(** The row is the one of element [(ty, eid)] of user [u]. *)
Definition is_element (u : uuid) (ty eid : jsstring) (r : portfolio_row) : bool :=
  bool_decide (user_id r = u)
  && bool_decide (element_type r = ty)
  && bool_decide (element_id r = eid).

(** The row that the backup trigger writes for [OLD]. *)
Definition pre_update_backup (now : timestamptz) (OLD : portfolio_row) : backup_row :=
  {| original_id := id OLD; b_user_id := user_id OLD;
     b_element_type := element_type OLD; b_element_id := element_id OLD;
     b_element_value := element_value OLD; b_json_data := json_data OLD;
     backup_reason := lit "pre_update_backup"; b_created_at := now |}.

(** The next request of the page is answered, not lost in transit. *)
Definition next_request_arrives (w : Client.world) : Prop :=
  match Client.faults w with
  | Some _ :: _ => False
  | _ => True
  end.

End Constraints.

(** ** Further example data *)

Module Cases.
Import Sql Client Service.

(** An edit at 4000 ms, after the flush of [Scenario.draft], started at
    2000 ms and taking 500 ms, has resolved. *)
Definition late_text : AutoSave.edit :=
  {| AutoSave.e_time := 4000; AutoSave.e_value := JStr (lit "late text");
     AutoSave.e_delay := 500 |}.

(** A table that holds one active text element, [a1], of the owner. *)
Definition hello_row : portfolio_row :=
  {| id := lit "00000000-0000-4000-8000-000000000000";
     user_id := Scenario.owner;
     element_type := lit "text";
     element_id := lit "a1";
     element_value := Some (lit "hello");
     json_data := None;
     metadata := None;
     version := Some 1;
     is_active := Some true;
     created_at := 1751155200000;
     updated_at := 1751155200000 |}.

Definition one_text : database :=
  {| portfolio_data_v2 := [hello_row]; portfolio_data_backup := [];
     form_shares := []; uuids_drawn := 1 |}.

(** The owner's page in front of that table, with a working connection. *)
Definition editing : world :=
  {| session := Some Scenario.owner; db := one_text; now := 1753747200000;
     faults := []; rpc_log := []; toasts := []; emitted := [] |}.

(** Two subscribed listeners, the first of which throws on every event. *)
Definition two_listeners : Listeners.bus :=
  {| Listeners.changeListeners := [1%nat; 2%nat]; Listeners.calls := [];
     Listeners.console_errors := [] |}.

Definition first_throws (cb : Listeners.callback) (e : DataChangeEvent)
    : option jsstring :=
  if (cb =? 1)%nat then Some (lit "listener failed") else None.

Definition a_change : DataChangeEvent :=
  {| ev_elementType := lit "text"; ev_elementId := lit "a1";
     oldValue := JNull; newValue := JStr (lit "hello");
     timestamp := 1753747200000; userId := Scenario.owner |}.

(** A share link without an expiry date, next to [Scenario.share_link]. *)
Definition permanent_link : share_row :=
  {| s_id := lit "7c2e4a6b-1d3f-4b5a-9e8d-0f1a2b3c4d5e";
     share_id := lit "share_contact_1751155200001";
     form_id := lit "contact";
     created_by := Scenario.owner;
     permissions := Some [lit "read"];
     password_hash := None;
     expires_at := None;
     s_is_active := Some true;
     access_count := Some 3;
     last_accessed_at := Some 1752000000000;
     s_created_at := Some 1751155200001;
     s_updated_at := Some 1751155200001 |}.

(** The owner's table in front of a page that is not signed in. *)
Definition signed_out : world :=
  {| session := None; db := one_text; now := 1753747200000;
     faults := []; rpc_log := []; toasts := []; emitted := [] |}.

(** A valid share link whose [access_count] is [NULL] (the column has a
    default but accepts [NULL]), and one whose counter has reached the
    largest [INTEGER]. *)
Definition uncounted_link : share_row :=
  {| s_id := lit "5a1b3c7d-2e4f-4a6b-8c0d-9e1f2a3b4c5d";
     share_id := lit "share_contact_1751155200002";
     form_id := lit "contact";
     created_by := Scenario.owner;
     permissions := Some [lit "read"];
     password_hash := None;
     expires_at := None;
     s_is_active := Some true;
     access_count := None;
     last_accessed_at := None;
     s_created_at := Some 1751155200002;
     s_updated_at := Some 1751155200002 |}.

Definition worn_link : share_row :=
  {| s_id := lit "9d8c7b6a-5f4e-4d3c-a2b1-0f9e8d7c6b5a";
     share_id := lit "share_contact_1751155200003";
     form_id := lit "contact";
     created_by := Scenario.owner;
     permissions := Some [lit "read"];
     password_hash := None;
     expires_at := None;
     s_is_active := Some true;
     access_count := Some 2147483647;
     last_accessed_at := Some 1752000000000;
     s_created_at := Some 1751155200003;
     s_updated_at := Some 1751155200003 |}.

(** A page on which a timer of the image [b2] is running, and three calls
    made on it: the two edits of the text [a1] of the debounce scenario,
    at 0 ms and at 1000 ms, with another edit of the image at 500 ms in
    between. *)
Definition busy_page : AutoSave.page :=
  AutoSave.autoSave (lit "image") (lit "b2") (JStr (lit "old.png")) 1500
    (AutoSave.fresh (fun _ => 300)).

Definition first_call : Interleaving.call :=
  {| Interleaving.on_type := lit "text"; Interleaving.on_id := lit "a1";
     Interleaving.what := Scenario.hello |}.

Definition photo_call : Interleaving.call :=
  {| Interleaving.on_type := lit "image"; Interleaving.on_id := lit "b2";
     Interleaving.what :=
       {| AutoSave.e_time := 500; AutoSave.e_value := JStr (lit "new.png");
          AutoSave.e_delay := 1500 |} |}.

Definition last_call : Interleaving.call :=
  {| Interleaving.on_type := lit "text"; Interleaving.on_id := lit "a1";
     Interleaving.what := Scenario.hello_world |}.

Definition interleaved : list Interleaving.call :=
  [first_call; photo_call; last_call].

(** The page at 2050 ms, after an edit of the text [a1] at 0 ms with the
    default delay: the flush of [draft], started at 2000 ms and taking
    500 ms, is in flight.  Two more edits of [a1] follow, at 2100 ms and at
    2200 ms. *)
Definition mid_flush : AutoSave.page :=
  AutoSave.advance 2050
    (AutoSave.autoSave (lit "text") (lit "a1") (JStr (lit "draft"))
       AutoSave.default_delay (AutoSave.fresh (fun _ => 500))).

Definition second_thoughts : Interleaving.call :=
  {| Interleaving.on_type := lit "text"; Interleaving.on_id := lit "a1";
     Interleaving.what := Scenario.final_text |}.

Definition third_thoughts : Interleaving.call :=
  {| Interleaving.on_type := lit "text"; Interleaving.on_id := lit "a1";
     Interleaving.what :=
       {| AutoSave.e_time := 2200; AutoSave.e_value := JStr (lit "final text!");
          AutoSave.e_delay := AutoSave.default_delay |} |}.

End Cases.

(** * Properties *)

Import Sql Client Service AutoSave Forms ConcreteHost.

(** ** Text sanitisation *)

Section Sanitisation.

Lemma replace_all_no_match (m : matcher) (s : jsstring) :
  has_match m s = false -> replace_all m s = s.
Proof.
  unfold replace_all.
  induction s as [|c s IH]; intros Hno; [reflexivity|].
  cbn [has_match] in Hno. cbn [replace_all_go].
  destruct (m (c :: s)) as [n|]; [discriminate|].
  f_equal. auto.
Qed.

(** A pattern whose first character is [p] cannot match where no [p] is. *)
Lemma ci_eq_plain (p c : code_unit) :
  (p <? 65)%N = true -> ci_eq p c = true -> c = p.
Proof.
  unfold ci_eq. intros Hp Hc.
  apply N.ltb_lt in Hp.
  repeat (apply orb_prop in Hc; destruct Hc as [Hc|Hc]);
    repeat (apply andb_prop in Hc; destruct Hc as [Hc ?]);
    repeat match goal with
           | H : (_ =? _)%N = true |- _ => apply N.eqb_eq in H
           | H : (_ <=? _)%N = true |- _ => apply N.leb_le in H
           end; lia.
Qed.

Lemma script_tag_starts_with_lt (s : jsstring) (n : nat) :
  script_tag s = Some n -> exists s', s = 60%N :: s'.
Proof.
  unfold script_tag. destruct s as [|c s]; [discriminate|].
  cbn [lit list_ascii_of_string map prefix_ci].
  destruct (ci_eq _ c) eqn:Hc; [|discriminate].
  intros _. apply ci_eq_plain in Hc; [|reflexivity].
  exists s. now subst.
Qed.

Lemma no_script_tag_without_lt (s : jsstring) :
  Forall (fun c => c <> 60%N) s -> has_match script_tag s = false.
Proof.
  induction 1 as [|c s Hc Hs IH]; [reflexivity|].
  cbn [has_match].
  destruct (script_tag (c :: s)) as [n|] eqn:Hm; [|exact IH].
  apply script_tag_starts_with_lt in Hm as [s' Hs']. congruence.
Qed.

Lemma replace_char_app c rep s t :
  replace_char c rep (s ++ t) = replace_char c rep s ++ replace_char c rep t.
Proof. unfold replace_char. apply flat_map_app. Qed.

Lemma escape_app s t : escape (s ++ t) = escape s ++ escape t.
Proof. unfold escape. now rewrite !replace_char_app. Qed.

Lemma escape_cons c s : escape (c :: s) = escape_unit c ++ escape s.
Proof.
  change (c :: s) with ([c] ++ s). rewrite escape_app. f_equal.
  unfold escape, escape_unit, replace_char.
  cbn [flat_map]; rewrite ?app_nil_r.
  destruct (N.eqb_spec c 60) as [->|N1]; [reflexivity|].
  cbn [flat_map]; rewrite ?app_nil_r.
  destruct (N.eqb_spec c 62) as [->|N2]; [reflexivity|].
  cbn [flat_map]; rewrite ?app_nil_r.
  destruct (N.eqb_spec c 34) as [->|N3]; [reflexivity|].
  cbn [flat_map]; rewrite ?app_nil_r.
  destruct (N.eqb_spec c 39) as [->|N4]; reflexivity.
Qed.

Lemma escape_unit_clean c : forallb (fun x => negb (markup x)) (escape_unit c) = true.
Proof.
  unfold escape_unit.
  destruct (c =? 60)%N eqn:E1; [reflexivity|].
  destruct (c =? 62)%N eqn:E2; [reflexivity|].
  destruct (c =? 34)%N eqn:E3; [reflexivity|].
  destruct (c =? 39)%N eqn:E4; [reflexivity|].
  cbn. unfold markup. now rewrite E1, E2, E3, E4.
Qed.

(** The escaped text holds none of the four characters. *)
Lemma escape_clean s : forallb (fun x => negb (markup x)) (escape s) = true.
Proof.
  induction s as [|c s IH]; [reflexivity|].
  rewrite escape_cons, forallb_app, escape_unit_clean. exact IH.
Qed.

Lemma escape_unit_id c : markup c = false -> escape_unit c = [c].
Proof.
  unfold markup, escape_unit. intros Hm.
  repeat (apply orb_false_elim in Hm; destruct Hm as [Hm ?]).
  now repeat match goal with H : _ = false |- _ => rewrite H; clear H end.
Qed.

Lemma escape_id s : forallb (fun x => negb (markup x)) s = true -> escape s = s.
Proof.
  induction s as [|c s IH]; [reflexivity|].
  cbn [forallb]. intros [Hc Hs]%andb_prop.
  rewrite escape_cons, escape_unit_id, IH; auto.
  now apply negb_true_iff.
Qed.

Lemma escape_idempotent s : escape (escape s) = escape s.
Proof. apply escape_id, escape_clean. Qed.

Lemma drop_while_clean s : clean_start (drop_while is_space s) = true.
Proof.
  induction s as [|c s IH]; [reflexivity|].
  cbn [drop_while]. destruct (is_space c) eqn:E; [exact IH|].
  cbn. now rewrite E.
Qed.

Lemma drop_while_id s : clean_start s = true -> drop_while is_space s = s.
Proof.
  destruct s as [|c s]; [reflexivity|].
  cbn. now intros ->%negb_true_iff.
Qed.

Lemma drop_while_suffix f s : exists pre, s = pre ++ drop_while f s.
Proof.
  induction s as [|c s [pre IH]]; [now exists []|].
  cbn [drop_while]. destruct (f c).
  - exists (c :: pre). cbn. now f_equal.
  - now exists [].
Qed.

Lemma trim_id s :
  clean_start s = true -> clean_start (rev s) = true -> trim s = s.
Proof.
  intros H1 H2. unfold trim.
  now rewrite (drop_while_id s H1), (drop_while_id _ H2), rev_involutive.
Qed.

Lemma trim_clean_end u : clean_start (rev (trim u)) = true.
Proof. unfold trim. rewrite rev_involutive. apply drop_while_clean. Qed.

Lemma trim_clean_start u : clean_start (trim u) = true.
Proof.
  unfold trim.
  pose proof (drop_while_clean u) as Hv.
  destruct (drop_while_suffix is_space (rev (drop_while is_space u))) as [pre Hpre].
  apply (f_equal (@rev _)) in Hpre.
  rewrite rev_involutive, rev_app_distr in Hpre.
  destruct (rev (drop_while is_space (rev (drop_while is_space u)))) as [|c t];
    [reflexivity|].
  rewrite Hpre in Hv. exact Hv.
Qed.

Lemma escape_unit_first c rest :
  is_space c = false -> clean_start (escape_unit c ++ rest) = true.
Proof.
  intros Hc. unfold escape_unit.
  repeat match goal with
         | |- context [if ?b then _ else _] => destruct b; [reflexivity|]
         end.
  cbn. now rewrite Hc.
Qed.

Lemma escape_unit_last c rest :
  is_space c = false -> clean_start (rev (escape_unit c) ++ rest) = true.
Proof.
  intros Hc. unfold escape_unit.
  repeat match goal with
         | |- context [if ?b then _ else _] => destruct b; [reflexivity|]
         end.
  cbn. now rewrite Hc.
Qed.

Lemma escape_clean_start s : clean_start s = true -> clean_start (escape s) = true.
Proof.
  destruct s as [|c s]; [reflexivity|].
  cbn [clean_start]. intros Hc%negb_true_iff.
  rewrite escape_cons. now apply escape_unit_first.
Qed.

Lemma escape_clean_end s :
  clean_start (rev s) = true -> clean_start (rev (escape s)) = true.
Proof.
  destruct s as [|c s _] using rev_ind; [reflexivity|].
  rewrite rev_app_distr. cbn [rev app clean_start]. intros Hc%negb_true_iff.
  rewrite escape_app, rev_app_distr, escape_cons.
  change (escape []) with (@nil N). rewrite app_nil_r.
  now apply escape_unit_last.
Qed.

(** The sanitised text is trimmed and free of the four characters, so the
    script-tag pattern, [trim] and the escaping leave it as it is. *)
Lemma sanitize_no_lt x : Forall (fun c => c <> 60%N) (sanitize x).
Proof.
  unfold sanitize. apply Forall_forall. intros c Hc Heq.
  pose proof (escape_clean (strip x)) as Hall.
  rewrite forallb_forall in Hall.
  apply list_elem_of_In in Hc. specialize (Hall c Hc).
  subst c. discriminate.
Qed.

Lemma sanitize_trimmed x : trim (sanitize x) = sanitize x.
Proof.
  unfold sanitize, strip. apply trim_id.
  - apply escape_clean_start, trim_clean_start.
  - apply escape_clean_end, trim_clean_end.
Qed.

Lemma validateText_valid_iff (value : jsstring) (max : Z) :
  isValid (validateText value max) = true <->
  value <> [] /\ Z.of_nat (List.length value) <= max.
Proof.
  destruct value as [|c s].
  - cbn. split; [discriminate|]. now intros [? _].
  - unfold validateText.
    set (n := Z.of_nat (List.length (c :: s))).
    destruct (Z.gtb_spec n max) as [Hgt|Hle]; cbn [isValid].
    + split; [discriminate|]. intros [_ ?]. lia.
    + split; [|reflexivity]. intros _. split; [discriminate|lia].
Qed.

(** Replacing drops code units and adds none; where the pattern matches, the
    result is strictly shorter. *)
Lemma replace_all_go_length m k s :
  (List.length (replace_all_go m k s) <= List.length s)%nat.
Proof.
  revert k. induction s as [|c s IH]; intros k; cbn [replace_all_go List.length]; [lia|].
  destruct k as [|k]; [|specialize (IH k); lia].
  destruct (m (c :: s)) as [[|n]|];
    cbn [List.length]; try (specialize (IH O); lia).
  specialize (IH n). lia.
Qed.

Lemma replace_all_go_forallb f m k s :
  forallb f s = true -> forallb f (replace_all_go m k s) = true.
Proof.
  revert k. induction s as [|c s IH]; intros k; cbn [replace_all_go forallb]; [auto|].
  intros [Hc Hs]%andb_prop.
  destruct k as [|k]; [|now apply IH].
  destruct (m (c :: s)) as [[|n]|]; cbn [forallb]; rewrite ?Hc; cbn; now apply IH.
Qed.

Lemma replace_all_shrinks m s :
  (forall t, m t <> Some O) ->
  has_match m s = true ->
  (List.length (replace_all m s) < List.length s)%nat.
Proof.
  intros Hpos. unfold replace_all.
  induction s as [|c s IH]; cbn [has_match replace_all_go List.length]; [discriminate|].
  destruct (m (c :: s)) as [[|n]|] eqn:Em.
  - now apply Hpos in Em.
  - intros _. pose proof (replace_all_go_length m n s). lia.
  - intros Hs. specialize (IH Hs). cbn [List.length]. lia.
Qed.

Lemma javascript_protocol_positive t : javascript_protocol t <> Some O.
Proof. unfold javascript_protocol. now destruct (prefix_ci _ t). Qed.

Lemma event_handler_positive t : event_handler t <> Some O.
Proof.
  unfold event_handler. destruct (prefix_ci _ t) as [r|]; [|discriminate].
  destruct (span is_word r); [discriminate|].
  destruct (drop _ _) as [|c ?]; [discriminate|].
  destruct (c =? 61)%N; discriminate.
Qed.

Lemma drop_while_length f s : (List.length (drop_while f s) <= List.length s)%nat.
Proof.
  destruct (drop_while_suffix f s) as [pre Hpre].
  rewrite Hpre at 2. rewrite length_app. lia.
Qed.

Lemma drop_while_forallb g f s :
  forallb g s = true -> forallb g (drop_while f s) = true.
Proof.
  destruct (drop_while_suffix f s) as [pre Hpre].
  intros Hs. rewrite Hpre, forallb_app in Hs. now apply andb_prop in Hs as [_ ?].
Qed.

Lemma trim_length s : (List.length (trim s) <= List.length s)%nat.
Proof.
  unfold trim. rewrite length_rev.
  pose proof (drop_while_length is_space (rev (drop_while is_space s))) as H1.
  pose proof (drop_while_length is_space s) as H2.
  rewrite length_rev in H1. lia.
Qed.

Lemma forallb_rev {A} (g : A -> bool) (l : list A) :
  forallb g l = true -> forallb g (rev l) = true.
Proof.
  rewrite !forallb_forall. intros Hl x Hx. apply Hl. now apply in_rev.
Qed.

Lemma trim_forallb g s : forallb g s = true -> forallb g (trim s) = true.
Proof.
  intros Hs. unfold trim.
  now apply forallb_rev, drop_while_forallb, forallb_rev, drop_while_forallb.
Qed.

(** A sanitised text in which one of the two patterns still matches gets
    shorter when sanitised again. *)
Lemma sanitize_shrinks_residue x :
  has_match javascript_protocol (sanitize x) = true
  \/ has_match event_handler (sanitize x) = true ->
  (List.length (sanitize (sanitize x)) < List.length (sanitize x))%nat.
Proof.
  intros Hres.
  set (s := sanitize x) in *.
  assert (Hclean : forallb (fun c => negb (markup c)) s = true)
    by apply escape_clean.
  unfold sanitize at 1. unfold strip.
  rewrite (replace_all_no_match script_tag s)
    by apply no_script_tag_without_lt, sanitize_no_lt.
  rewrite escape_id
    by (apply trim_forallb; unfold replace_all;
        now do 2 apply replace_all_go_forallb).
  pose proof (trim_length (replace_all event_handler
                             (replace_all javascript_protocol s))) as Htrim.
  pose proof (replace_all_go_length event_handler O
                (replace_all javascript_protocol s)) as Hon.
  fold (replace_all event_handler (replace_all javascript_protocol s)) in Hon.
  destruct (has_match javascript_protocol s) eqn:Hjs.
  - pose proof (replace_all_shrinks _ _ javascript_protocol_positive Hjs). lia.
  - destruct Hres as [Hres|Hres]; [discriminate|].
    rewrite (replace_all_no_match javascript_protocol s Hjs) in *.
    pose proof (replace_all_shrinks _ _ event_handler_positive Hres). lia.
Qed.

End Sanitisation.

(** C5 (as amended): sanitising a sanitised text again changes nothing
    exactly when no [javascript:] and no [on...=] match is left in it; and
    re-validating the sanitised form of a value reports it valid exactly when
    that form is non-empty and at most [max] long. *)
Theorem sanitize_idempotent_without_residue (x : jsstring) (max : Z) :
  (sanitize (sanitize x) = sanitize x <->
   has_match javascript_protocol (sanitize x) = false
   /\ has_match event_handler (sanitize x) = false)
  /\ (isValid (validateText (sanitize x) max) = true <->
      sanitize x <> [] /\ Z.of_nat (List.length (sanitize x)) <= max).
Proof.
  split; [|apply validateText_valid_iff].
  split.
  - intros Hid.
    destruct (has_match javascript_protocol (sanitize x)) eqn:Hjs;
      [|destruct (has_match event_handler (sanitize x)) eqn:Hon; [|auto]].
    + pose proof (sanitize_shrinks_residue x (or_introl Hjs)) as Hlt.
      rewrite Hid in Hlt. lia.
    + pose proof (sanitize_shrinks_residue x (or_intror Hon)) as Hlt.
      rewrite Hid in Hlt. lia.
  - intros [Hjs Hon].
    unfold sanitize at 1. unfold strip.
    rewrite (replace_all_no_match script_tag)
      by apply no_script_tag_without_lt, sanitize_no_lt.
    rewrite (replace_all_no_match javascript_protocol) by exact Hjs.
    rewrite (replace_all_no_match event_handler) by exact Hon.
    rewrite sanitize_trimmed.
    unfold sanitize. apply escape_idempotent.
Qed.

Lemma sanitize_idempotent_without_residue_witness :
  has_match javascript_protocol (sanitize (lit "<b onclick=go()>Tom's</b> ")) = false
  /\ has_match event_handler (sanitize (lit "<b onclick=go()>Tom's</b> ")) = false
  /\ sanitize (sanitize (lit "<b onclick=go()>Tom's</b> ")) =
     sanitize (lit "<b onclick=go()>Tom's</b> ").
Proof.
  split; [vm_compute; reflexivity|]. split; [vm_compute; reflexivity|].
  apply (proj1 (sanitize_idempotent_without_residue
                  (lit "<b onclick=go()>Tom's</b> ") 100)).
  split; vm_compute; reflexivity.
Defined.

(** C5 (as stated) fails: one pass over [javajavascript:script:] leaves
    [javascript:], which a second pass removes; and the valid value
    [<script></script>] sanitises to the empty string, which is rejected. *)
Lemma sanitize_not_idempotent :
  sanitize (lit "javajavascript:script:") = lit "javascript:"
  /\ sanitize (sanitize (lit "javajavascript:script:")) <>
     sanitize (lit "javajavascript:script:")
  /\ isValid (validateText (lit "<script></script>") default_maxLength) = true
  /\ sanitizedValue (validateText (lit "<script></script>") default_maxLength) = Some []
  /\ isValid (validateText (sanitize (lit "<script></script>")) default_maxLength) = false.
Proof. vm_compute. repeat split; discriminate. Qed.

(** The parts of the sanitisation postcondition that hold for every input:
    a text longer than [max] is reported invalid, the sanitised text holds
    none of the four characters (hence no tag at all), and the script
    scenario of the specification. *)
Lemma validateText_rejects_long (value : jsstring) (max : Z) :
  max < Z.of_nat (List.length value) -> isValid (validateText value max) = false.
Proof.
  intros Hlong. destruct (isValid (validateText value max)) eqn:E; [|reflexivity].
  apply validateText_valid_iff in E as [_ ?]. lia.
Qed.

Lemma validateText_sanitized_has_no_markup (value : jsstring) (max : Z) (out : jsstring) :
  sanitizedValue (validateText value max) = Some out ->
  forallb (fun c => negb (markup c)) out = true.
Proof.
  destruct value as [|c s]; [discriminate|].
  unfold validateText. cbn [sanitizedValue]. intros [= <-].
  apply escape_clean.
Qed.

Lemma validateText_script_scenario :
  validateText (lit "<script>alert(1)</script>hi") 100 =
    mkValidation true [] (Some (lit "hi"))
  /\ includes (lit "<script>") (lit "hi") = false.
Proof. vm_compute. split; reflexivity. Qed.

(** C6 fails on nested input: removing [javascript:] from
    [javajavascript:script:alert(1)] in one pass puts a [javascript:] prefix
    together again, and removing [onclick=] from [oonclick=nclick=alert(1)]
    leaves an [onclick=] handler; both values are reported valid with the
    pattern still in the sanitised text.  A script element whose content
    spans two lines is not removed either (the dot of the pattern stops at a
    line break); its tags are only escaped and its content is kept. *)
Theorem validateText_leaves_nested_patterns :
  validateText (lit "javajavascript:script:alert(1)") 100 =
    mkValidation true [] (Some (lit "javascript:alert(1)"))
  /\ has_match javascript_protocol (lit "javascript:alert(1)") = true
  /\ validateText (lit "oonclick=nclick=alert(1)") 100 =
    mkValidation true [] (Some (lit "onclick=alert(1)"))
  /\ has_match event_handler (lit "onclick=alert(1)") = true
  /\ validateText (lit "<script>" ++ [10%N] ++ lit "alert(1)</script>hi") 100 =
    mkValidation true []
      (Some (lit "&lt;script&gt;" ++ [10%N] ++ lit "alert(1)&lt;/script&gt;hi")).
Proof. vm_compute. repeat split; reflexivity. Qed.

(** ** Reading an element *)

Section Reading.

(** The read RPC leaves everything but the request log and the pending
    transport outcomes as it was. *)
Lemma getElement_try_frame ty id w :
  let w1 := snd (getElement_try ty id w) in
  session w1 = session w /\ db w1 = db w /\ now w1 = now w
  /\ toasts w1 = toasts w /\ emitted w1 = emitted w
  /\ faults w1 = tail (faults w)
  /\ rpc_log w1 = rpc_log w ++ [CallGet (Some ty) (Some id)].
Proof.
  unfold getElement_try, rpc, send. cbn zeta.
  destruct (faults w) as [|[m|] fs]; cbn [tail];
    try (cbn; repeat split; reflexivity);
    destruct (get_portfolio_data _ _ _ _) as [rows|m]; cbn;
    try destruct rows; cbn; repeat split; reflexivity.
Qed.

Lemma getElement_frame ty id w :
  let w1 := snd (getElement ty id w) in
  session w1 = session w /\ db w1 = db w /\ now w1 = now w
  /\ toasts w1 = toasts w /\ emitted w1 = emitted w
  /\ faults w1 = tail (faults w)
  /\ rpc_log w1 = rpc_log w ++ [CallGet (Some ty) (Some id)].
Proof.
  pose proof (getElement_try_frame ty id w) as Hf.
  unfold getElement. destruct (getElement_try ty id w) as [[v|m] w1]; exact Hf.
Qed.

Lemma getElement_returns ty id w :
  exists v, fst (getElement ty id w) = Returned v.
Proof.
  unfold getElement. destruct (getElement_try ty id w) as [[v|m] w1]; eauto.
Qed.

Lemma filter_none {A} (f : A -> bool) (l : list A) :
  Forall (fun x => f x = false) l -> List.filter f l = [].
Proof.
  induction 1 as [|x l Hx _ IH]; [reflexivity|].
  cbn. now rewrite Hx.
Qed.

End Reading.

(** C10: [getElement] always returns a value to its caller; when the request
    fails in transit, when the database function raises (no authenticated
    user), and when no active row exists for the element, that value is
    [null] in each case. *)
Theorem getElement_never_propagates_errors
    (elementType elementId : jsstring) (w : world) :
  (exists v, fst (getElement elementType elementId w) = Returned v)
  /\ (forall m rest, faults w = Some m :: rest ->
      fst (getElement elementType elementId w) = Returned JNull)
  /\ (session w = None ->
      fst (getElement elementType elementId w) = Returned JNull)
  /\ (Forall (fun r => element_type r <> elementType \/ element_id r <> elementId)
             (portfolio_data_v2 (db w)) ->
      fst (getElement elementType elementId w) = Returned JNull).
Proof.
  split; [apply getElement_returns|].
  unfold getElement, getElement_try, rpc, send. cbn zeta.
  split; [|split].
  - intros m rest ->. reflexivity.
  - intros ->. destruct (faults w) as [|[m|] fs]; reflexivity.
  - intros Hnone.
    destruct (faults w) as [|[m|] fs]; cbn; try reflexivity;
      (destruct (session w) as [u|]; cbn; [|reflexivity]);
      (rewrite filter_none; [reflexivity|]);
      (eapply Forall_impl; [exact Hnone|]);
      intros r [Hr|Hr]; cbn;
      rewrite ?andb_false_iff, !bool_decide_eq_false; auto.
Qed.

Lemma getElement_never_propagates_errors_witness :
  faults Scenario.offline = [Some (lit "Failed to fetch")]
  /\ fst (getElement (lit "text") (lit "hero-title") Scenario.offline) = Returned JNull
  /\ fst (getElement (lit "text") (lit "hero-title") Scenario.signed_in) = Returned JNull.
Proof.
  split; [reflexivity|]. split.
  - apply (proj1 (proj2 (getElement_never_propagates_errors
                           (lit "text") (lit "hero-title") Scenario.offline))
             (lit "Failed to fetch") []).
    reflexivity.
  - apply (proj2 (proj2 (proj2 (getElement_never_propagates_errors
                           (lit "text") (lit "hero-title") Scenario.signed_in)))).
    constructor.
Defined.

(** ** Saving an element *)

(** C7: with a session and validation on, a value the validator rejects
    yields [{success: false, errors}] with the validator's error list; no
    request is sent, the database is untouched and no change event is
    emitted. *)
Theorem saveElement_validation_failure_aborts `{Host}
    (elementType elementId : jsstring) (value : json) (options : SaveOptions)
    (w : world) (user : uuid) :
  session w = Some user ->
  default true (validateData options) = true ->
  isValid (validation_for value) = false ->
  fst (saveElement elementType elementId value options w) =
    {| success := false; data := None;
       errors := Some (DataValidator.errors (validation_for value)) |}
  /\ db (snd (saveElement elementType elementId value options w)) = db w
  /\ rpc_log (snd (saveElement elementType elementId value options w)) = rpc_log w
  /\ faults (snd (saveElement elementType elementId value options w)) = faults w
  /\ emitted (snd (saveElement elementType elementId value options w)) = emitted w.
Proof.
  intros Hs Hv Hbad. unfold saveElement. rewrite Hs, Hv, Hbad. cbn [negb].
  destruct (default true (showNotifications options)); cbn; repeat split; reflexivity.
Qed.

Section SavingExamples.
#[local] Existing Instance ConcreteHost.host.

Lemma saveElement_validation_failure_aborts_witness :
  isValid (validation_for (JStr (replicate (Z.to_nat 10001) 97%N))) = false
  /\ fst (saveElement (lit "text") (lit "bio")
            (JStr (replicate (Z.to_nat 10001) 97%N)) no_options Scenario.signed_in) =
       {| success := false; data := None;
          errors := Some [lit "Text must be 10000 characters or less"] |}
  /\ snd (saveElement (lit "text") (lit "bio")
            (JStr (replicate (Z.to_nat 10001) 97%N)) no_options Scenario.signed_in) =
       add_toast (ToastError (lit "Validation failed: Text must be 10000 characters or less"))
         Scenario.signed_in.
Proof.
  assert (Hbad : isValid (validation_for (JStr (replicate (Z.to_nat 10001) 97%N)))
                 = false)
    by (vm_compute; reflexivity).
  split; [exact Hbad|]. split.
  - rewrite (proj1 (saveElement_validation_failure_aborts
                      (lit "text") (lit "bio")
                      (JStr (replicate (Z.to_nat 10001) 97%N))
                      no_options Scenario.signed_in Scenario.owner
                      eq_refl eq_refl Hbad)).
    vm_compute. reflexivity.
  - vm_compute. reflexivity.
Defined.

End SavingExamples.

(** ** The upsert function *)

Section Upsert.
Context `{Host}.

Ltac break_result :=
  repeat match goal with
         | H : Raise _ = Ok _ |- _ => discriminate H
         | H : Ok _ = Ok _ |- _ => injection H as H; subst
         | H : context [mbind _ ?r] |- _ =>
             unfold mbind, result_bind in H
         | H : match ?x with _ => _ end = Ok _ |- _ =>
             let E := fresh "E" in destruct x eqn:E
         | H : (if ?x then _ else _) = Ok _ |- _ =>
             let E := fresh "E" in destruct x eqn:E
         end.

(** The validation trigger only rewrites [element_value]. *)
Lemma validate_portfolio_data_ok auth NEW NEW' :
  validate_portfolio_data auth NEW = Ok NEW' ->
  id NEW' = id NEW /\ user_id NEW' = user_id NEW
  /\ element_type NEW' = element_type NEW /\ element_id NEW' = element_id NEW
  /\ element_value NEW' = sanitize_text <$> element_value NEW
  /\ json_data NEW' = json_data NEW
  /\ element_type NEW ∈ allowed_element_types.
Proof.
  unfold validate_portfolio_data. intros Hv.
  destruct (bool_decide (element_type NEW ∈ allowed_element_types)) eqn:Ety;
    cbn [negb] in Hv; [|discriminate].
  apply bool_decide_eq_true in Ety.
  destruct (element_value NEW) as [v|] eqn:Ev; break_result; cbn;
    repeat split; auto.
Qed.

Lemma same_element_true a b :
  same_element a b = true ->
  user_id a = user_id b /\ element_type a = element_type b
  /\ element_id a = element_id b.
Proof.
  unfold same_element. intros Hs.
  apply andb_prop in Hs as [Hs H3]. apply andb_prop in Hs as [H1 H2].
  apply bool_decide_eq_true in H1, H2, H3. auto.
Qed.

(** A successful upsert returns the [id] of a row of the resulting table
    that belongs to the caller and the element, holds the JSON payload sent
    and the text as the validation trigger rewrote it (once on insertion,
    once more when the row already existed). *)
Lemma upsert_portfolio_data_ok auth now ty eid v j m d i d' :
  upsert_portfolio_data auth now ty eid v j m d = Ok (i, d') ->
  exists u row,
    auth = Some u /\ In row (portfolio_data_v2 d') /\ id row = i
    /\ user_id row = u /\ element_type row = ty /\ element_id row = eid
    /\ json_data row = j
    /\ (element_value row = sanitize_text <$> v
        \/ element_value row = sanitize_text <$> (sanitize_text <$> v)).
Proof.
  unfold upsert_portfolio_data. intros Hu.
  destruct auth as [u|]; [|discriminate].
  unfold mbind, result_bind in Hu.
  destruct (validate_portfolio_data _ _) as [proposed|] eqn:Ep; [|discriminate].
  apply validate_portfolio_data_ok in Ep.
  cbn [id user_id element_type element_id element_value json_data] in Ep.
  destruct Ep as (Pid & Pu & Pty & Peid & Pv & Pj & _).
  destruct (List.find _ _) as [OLD|] eqn:Ef.
  - apply find_some in Ef as [Hin Hsame].
    apply same_element_true in Hsame as (Su & Sty & Seid).
    unfold create_portfolio_backup, mbind, result_bind in Hu.
    destruct (int4_add _ _) as [ver|]; [|discriminate].
    destruct (validate_portfolio_data _ _) as [NEW|] eqn:En; [|discriminate].
    apply validate_portfolio_data_ok in En.
    cbn [id user_id element_type element_id element_value json_data] in En.
    destruct En as (Nid & Nu & Nty & Neid & Nv & Nj & _).
    injection Hu as <- <-. cbn [portfolio_data_v2].
    exists u, NEW. split; [reflexivity|]. split.
    { apply in_map_iff. exists OLD. split; [|exact Hin].
      unfold same_element. rewrite Su, Sty, Seid.
      now rewrite !bool_decide_eq_true_2. }
    repeat split; try congruence.
    right. rewrite Nv, Pv. reflexivity.
  - destruct (existsb _ _); [discriminate|].
    injection Hu as <- <-. cbn [portfolio_data_v2].
    exists u, proposed. split; [reflexivity|]. split.
    { apply in_or_app. right. now left. }
    repeat split; try congruence. now left.
Qed.

End Upsert.

(** ** What a successful save returns *)

Section Saving.
Context `{Host}.

Lemma save_failed_success b m w : success (fst (save_failed b m w)) = false.
Proof. reflexivity. Qed.

Lemma save_write_success ty id value auto_save notify user w :
  session w = Some user ->
  success (fst (save_write ty id value auto_save notify user w)) = true ->
  exists row,
    In row (portfolio_data_v2 (db (snd (save_write ty id value auto_save notify user w))))
    /\ user_id row = user /\ element_type row = ty /\ element_id row = id
    /\ data (fst (save_write ty id value auto_save notify user w)) = Some (JStr (Sql.id row))
    /\ json_data row = match value with
                       | JArr _ | JObj _ => Some value
                       | _ => None
                       end
    /\ (forall s, value = JStr s ->
        element_value row = Some (sanitize_text s)
        \/ element_value row = Some (sanitize_text (sanitize_text s))).
Proof.
  intros Hs. unfold save_write.
  pose proof (getElement_frame ty id w) as (Fs & _).
  destruct (getElement ty id w) as [[cur|m] w1]; cbn [snd] in Fs;
    [|rewrite save_failed_success; discriminate].
  unfold rpc, send. cbn zeta.
  destruct (faults w1) as [|[m|] fs]; cbn [fst snd db];
    try (rewrite save_failed_success; discriminate).
  all: destruct (upsert_portfolio_data _ _ _ _ _ _ _ _) as [[i d']|m] eqn:Eu;
    [|rewrite save_failed_success; discriminate].
  all: intros _.
  all: apply upsert_portfolio_data_ok in Eu
         as (u & row & Eu & Hin & Hid & Hu & Hty & Heid & Hj & Hv).
  all: rewrite Fs, Hs in Eu; injection Eu as <-.
  all: exists row; cbn [fst snd data].
  all: split; [destruct (notify && negb auto_save); cbn; exact Hin|].
  all: repeat split; auto; try (now subst i).
  all: try (rewrite Hj; destruct value; reflexivity).
  all: intros s ->; exact Hv.
Qed.

(** The value [saveElement] sends to the database. *)
Lemma saveElement_success ty id value options w :
  success (fst (saveElement ty id value options w)) = true ->
  exists user,
    session w = Some user
    /\ saveElement ty id value options w =
       save_write ty id
         (if default true (validateData options)
          then sanitized_or (validation_for value) value else value)
         (default false (Service.autoSave options))
         (default true (showNotifications options)) user w.
Proof.
  unfold saveElement.
  destruct (session w) as [user|]; [|rewrite save_failed_success; discriminate].
  intros Hok. exists user. split; [reflexivity|].
  destruct (default true (validateData options)); [|reflexivity].
  destruct (isValid (validation_for value)); [reflexivity|].
  cbn in Hok. discriminate.
Qed.

End Saving.

(** C8 (as amended): the [data] field of a successful save is the [id] of the
    row that now holds the element for the signed-in user, as returned by
    [upsert_portfolio_data]; that row stores the JSON payload sent, or the
    text sent after the validation trigger rewrote it once or twice. *)
Theorem saveElement_returns_row_id `{Host}
    (elementType elementId : jsstring) (value : json) (options : SaveOptions)
    (w : world) :
  success (fst (saveElement elementType elementId value options w)) = true ->
  exists user row,
    session w = Some user
    /\ In row (portfolio_data_v2
                 (db (snd (saveElement elementType elementId value options w))))
    /\ user_id row = user
    /\ element_type row = elementType
    /\ element_id row = elementId
    /\ data (fst (saveElement elementType elementId value options w)) =
       Some (JStr (Sql.id row))
    /\ (forall sent,
          sent = (if default true (validateData options)
                  then sanitized_or (validation_for value) value else value) ->
          json_data row = match sent with
                          | JArr _ | JObj _ => Some sent
                          | _ => None
                          end
          /\ forall s, sent = JStr s ->
               element_value row = Some (sanitize_text s)
               \/ element_value row = Some (sanitize_text (sanitize_text s))).
Proof.
  intros Hok.
  destruct (saveElement_success _ _ _ _ _ Hok) as (user & Hs & Heq).
  rewrite Heq in Hok |- *.
  destruct (save_write_success _ _ _ _ _ _ _ Hs Hok)
    as (row & Hin & Hu & Hty & Hid & Hdata & Hj & Hv).
  exists user, row. repeat split; auto.
  - subst sent. exact Hj.
  - subst sent. exact Hv.
Qed.

Section SavedExamples.
#[local] Existing Instance ConcreteHost.host.

Lemma saveElement_returns_row_id_witness :
  success (fst (saveElement (lit "text") (lit "hero-title") (JStr (lit "Hello"))
                  no_options Scenario.signed_in)) = true
  /\ exists user row,
       session Scenario.signed_in = Some user
       /\ In row (portfolio_data_v2
                    (db (snd (saveElement (lit "text") (lit "hero-title")
                                (JStr (lit "Hello")) no_options Scenario.signed_in))))
       /\ data (fst (saveElement (lit "text") (lit "hero-title")
                       (JStr (lit "Hello")) no_options Scenario.signed_in)) =
          Some (JStr (Sql.id row)).
Proof.
  split; [vm_compute; reflexivity|].
  destruct (saveElement_returns_row_id (lit "text") (lit "hero-title")
              (JStr (lit "Hello")) no_options Scenario.signed_in)
    as (user & row & Hs & Hin & _ & _ & _ & Hdata & _);
    [vm_compute; reflexivity|].
  exists user, row. auto.
Defined.

(** C8 (as stated) fails: saving the text [Hello] succeeds, the element then
    reads back as [Hello], and [data] is the row identifier instead. *)
Lemma saveElement_data_is_not_the_stored_value :
  success (fst (saveElement (lit "text") (lit "hero-title") (JStr (lit "Hello"))
                  no_options Scenario.signed_in)) = true
  /\ fst (getElement (lit "text") (lit "hero-title")
            (snd (saveElement (lit "text") (lit "hero-title") (JStr (lit "Hello"))
                    no_options Scenario.signed_in))) =
     Returned (JStr (lit "Hello"))
  /\ data (fst (saveElement (lit "text") (lit "hero-title") (JStr (lit "Hello"))
                  no_options Scenario.signed_in)) =
     Some (JStr (lit "00000000-0000-4000-8000-000000000000"))
  /\ data (fst (saveElement (lit "text") (lit "hero-title") (JStr (lit "Hello"))
                  no_options Scenario.signed_in)) <>
     Some (JStr (lit "Hello")).
Proof. vm_compute. repeat split; discriminate. Qed.

End SavedExamples.

(** ** Bulk save *)

Section Bulk.
Context `{Host}.

Lemma int4_add_ok a b c : int4_add a b = Ok c -> c = a + b.
Proof.
  unfold int4_add. destruct (_ || _); [discriminate|]. now intros [= <-].
Qed.

(** When the loop completes, it has counted every item. *)
Lemma bulk_update_loop_count auth now ups c d n d' :
  bulk_update_loop auth now ups c d = Ok (n, d') ->
  n = c + Z.of_nat (List.length ups).
Proof.
  revert c d. induction ups as [|u ups IH]; intros c d; cbn [bulk_update_loop].
  - intros [= <- <-]. cbn. lia.
  - unfold mbind, result_bind.
    destruct (upsert_record _ _ _ _) as [[i d1]|]; [|discriminate].
    destruct (int4_add c 1) as [c1|] eqn:Ec; [|discriminate].
    apply int4_add_ok in Ec. intros Hl. apply IH in Hl.
    cbn [List.length]. lia.
Qed.

(** When an item is rejected after the items before it went through, the
    loop raises that item's message. *)
Lemma bulk_update_loop_rejected auth now pre u post c d c1 d1 m :
  bulk_update_loop auth now pre c d = Ok (c1, d1) ->
  upsert_record auth now u d1 = Raise m ->
  bulk_update_loop auth now (pre ++ u :: post) c d = Raise m.
Proof.
  revert c d. induction pre as [|p pre IH]; intros c d; cbn [bulk_update_loop app].
  - intros [= <- <-] ->. reflexivity.
  - unfold mbind, result_bind.
    destruct (upsert_record auth now p d) as [[i d2]|]; [|intros [=]].
    destruct (int4_add c 1) as [c2|]; [|intros [=]].
    apply IH.
Qed.

End Bulk.


Section BulkExamples.
#[local] Existing Instance ConcreteHost.host.



End BulkExamples.

(** ** Share links *)

Section ShareLinks.
Context `{Host}.

(** [check_share] hands the record back exactly when it is truthy, its
    [isActive] is truthy and its expiry is not before the current time. *)
Lemma check_share_returns (shareData : json) (now : Z) :
  check_share shareData now = Returned shareData <->
  truthy shareData = true
  /\ truthy_opt (get_prop shareData (lit "isActive")) = true
  /\ date_before_now (get_prop shareData (lit "expiresAt")) now = false.
Proof.
  unfold check_share.
  destruct (truthy shareData); cbn [negb];
    [|split; [discriminate|intros (? & _); discriminate]].
  destruct (truthy_opt _); cbn [negb];
    [|split; [discriminate|intros (_ & ? & _); discriminate]].
  destruct (date_before_now _ _);
    [split; [discriminate|intros (_ & _ & ?); discriminate]|].
  split; auto.
Qed.

Lemma check_share_at_expiry (shareData : json) (t : Z) :
  truthy shareData = true ->
  truthy_opt (get_prop shareData (lit "isActive")) = true ->
  Date_time (get_prop shareData (lit "expiresAt")) = Some t ->
  check_share shareData t = Returned shareData.
Proof.
  intros Ht Ha Hd. apply check_share_returns. repeat split; auto.
  unfold date_before_now. rewrite Hd. apply Z.ltb_irrefl.
Qed.

(** [validateShareLink] only reads. *)
Lemma validateShareLink_reads_only (shareId : jsstring) (w : world) :
  db (snd (validateShareLink shareId w)) = db w.
Proof.
  unfold validateShareLink.
  pose proof (getElement_frame (lit "share") shareId w) as (_ & Hdb & _).
  destruct (getElement _ _ _) as [[v|m] w1]; exact Hdb.
Qed.

End ShareLinks.

Section SqlShareLinks.

Lemma record_access_ok now r r' :
  record_access now r = Ok r' ->
  access_count r' = Z.succ <$> access_count r
  /\ last_accessed_at r' = Some now
  /\ same_but_access r r'.
Proof.
  unfold record_access, mbind, result_bind.
  destruct (access_count r) as [c|] eqn:Ec.
  - destruct (int4_add c 1) as [c'|] eqn:Ea; [|discriminate].
    apply int4_add_ok in Ea. intros [= <-]. cbn.
    unfold same_but_access. cbn. repeat split; auto. f_equal. lia.
  - intros [= <-]. unfold same_but_access. cbn. repeat split; auto.
Qed.

Lemma update_access_ok p now rows rows' :
  update_access p now rows = Ok rows' ->
  Forall2 (fun r r' =>
             if bool_decide (share_id r = p)
             then access_count r' = Z.succ <$> access_count r
                  /\ last_accessed_at r' = Some now
                  /\ same_but_access r r'
             else r' = r) rows rows'.
Proof.
  revert rows'. induction rows as [|r rows IH]; intros rows'; cbn [update_access].
  - intros [= <-]. constructor.
  - unfold mbind, result_bind.
    destruct (bool_decide (share_id r = p)) eqn:Ep.
    + destruct (record_access now r) as [r1|] eqn:Er; [|discriminate].
      destruct (update_access p now rows) as [rest|]; [|discriminate].
      intros [= <-]. constructor; [|now apply IH].
      rewrite Ep. now apply record_access_ok.
    + destruct (update_access p now rows) as [rest|]; [|discriminate].
      intros [= <-]. constructor; [|now apply IH].
      now rewrite Ep.
Qed.

End SqlShareLinks.

Section SqlShareLinksTotal.

Lemma int4_add_cases a b :
  (- int4_max - 1 <= a + b <= int4_max /\ int4_add a b = Ok (a + b))
  \/ (~ (- int4_max - 1 <= a + b <= int4_max)
      /\ int4_add a b = Raise (lit "integer out of range")).
Proof.
  unfold int4_add.
  destruct (Z.gtb_spec (a + b) int4_max); cbn [orb]; [right; split; [lia|reflexivity]|].
  destruct (Z.ltb_spec (a + b) (- int4_max - 1)); [right|left]; split;
    try reflexivity; lia.
Qed.

(** The [UPDATE] of [validate_share_link]: either every selected counter can
    take one more and each selected row is changed in its two access columns
    only, or one of them would leave the [INTEGER] range and the statement
    raises. *)
Lemma update_access_cases p now rows :
  (Forall (fun r => share_id r = p -> forall c, access_count r = Some c ->
                    - int4_max - 1 <= c + 1 <= int4_max) rows
   /\ exists rows',
        update_access p now rows = Ok rows'
        /\ Forall2 (fun r r' =>
                      if bool_decide (share_id r = p)
                      then access_count r' = (fun c => c + 1) <$> access_count r
                           /\ last_accessed_at r' = Some now
                           /\ same_but_access r r'
                      else r' = r) rows rows')
  \/ (Exists (fun r => share_id r = p /\ exists c, access_count r = Some c
                       /\ ~ (- int4_max - 1 <= c + 1 <= int4_max)) rows
      /\ update_access p now rows = Raise (lit "integer out of range")).
Proof.
  induction rows as [|r rows IH]; cbn [update_access].
  - left. split; [constructor|]. exists []. split; [reflexivity|constructor].
  - unfold mbind, result_bind.
    destruct (bool_decide (share_id r = p)) eqn:Ep.
    + apply bool_decide_eq_true_1 in Ep as Hp.
      unfold record_access, mbind, result_bind.
      destruct (access_count r) as [c|] eqn:Ec.
      * destruct (int4_add_cases c 1) as [[Hin ->]|[Hout ->]].
        -- destruct IH as [(Hall & rows' & -> & Hrows)|(Hex & ->)].
           ++ left. split.
              ** constructor; [|exact Hall]. intros _ c0 Hc0. rewrite ?Ec in Hc0.
                 injection Hc0 as <-. exact Hin.
              ** eexists. split; [reflexivity|]. constructor; [|exact Hrows].
                 rewrite Ep. cbn. rewrite Ec. unfold same_but_access. cbn.
                 repeat split; reflexivity.
           ++ right. split; [now apply Exists_cons_tl|reflexivity].
        -- right. split; [|reflexivity]. apply Exists_cons_hd. eauto.
      * destruct IH as [(Hall & rows' & -> & Hrows)|(Hex & ->)].
        -- left. split.
           ++ constructor; [|exact Hall]. intros _ c0 Hc0. rewrite ?Ec in Hc0. discriminate.
           ++ eexists. split; [reflexivity|]. constructor; [|exact Hrows].
              rewrite Ep. cbn. rewrite Ec. unfold same_but_access. cbn.
              repeat split; reflexivity.
        -- right. split; [now apply Exists_cons_tl|reflexivity].
    + apply bool_decide_eq_false_1 in Ep as Hp.
      destruct IH as [(Hall & rows' & -> & Hrows)|(Hex & ->)].
      * left. split.
        -- constructor; [|exact Hall]. intros Heq. contradiction.
        -- eexists. split; [reflexivity|]. constructor; [|exact Hrows].
           now rewrite Ep.
      * right. split; [now apply Exists_cons_tl|reflexivity].
Qed.

End SqlShareLinksTotal.

(** C4 (as amended): a call of the database function [validate_share_link]
    that finds a valid link adds one to the [access_count] of the row with
    that [share_id] when the counter is not [NULL] (a [NULL] counter stays
    [NULL]) and sets its [last_accessed_at] to the current time; no other
    column of the row and no other row changes.  When the counter cannot
    take one more (it has reached 2147483647), the call raises
    "integer out of range" instead and nothing is changed.  A call that
    finds no valid link returns [is_valid = false] and changes nothing.  The
    client-side [validateShareLink] writes nothing at all. *)
Theorem validate_share_link_records_access `{Host}
    (p_share_id : jsstring) (now : timestamptz) (shares : list share_row) :
  match List.find (share_selected p_share_id now) shares with
  | None =>
      validate_share_link p_share_id now shares
      = Ok ({| is_valid := false; v_form_id := None; v_permissions := None;
               requires_password := false |}, shares)
  | Some link =>
      In link shares /\ share_id link = p_share_id
      /\ ((Forall (fun r => share_id r = p_share_id ->
                     forall c, access_count r = Some c ->
                     - int4_max - 1 <= c + 1 <= int4_max) shares
           /\ exists res shares',
                validate_share_link p_share_id now shares = Ok (res, shares')
                /\ is_valid res = true
                /\ Forall2 (fun r r' =>
                              if bool_decide (share_id r = p_share_id)
                              then access_count r'
                                   = (fun c => c + 1) <$> access_count r
                                   /\ last_accessed_at r' = Some now
                                   /\ same_but_access r r'
                              else r' = r) shares shares')
          \/ (Exists (fun r => share_id r = p_share_id
                        /\ exists c, access_count r = Some c
                           /\ ~ (- int4_max - 1 <= c + 1 <= int4_max)) shares
              /\ validate_share_link p_share_id now shares
                 = Raise (lit "integer out of range")))
  end
  /\ (forall shareId w, db (snd (validateShareLink shareId w)) = db w).
Proof.
  split; [|apply validateShareLink_reads_only].
  unfold validate_share_link.
  destruct (List.find _ _) as [link|] eqn:Ef; [|reflexivity].
  apply find_some in Ef as [Hin Hsel].
  split; [exact Hin|]. split.
  { unfold share_selected in Hsel.
    apply andb_prop in Hsel as [Hsel _]. apply andb_prop in Hsel as [Hsel _].
    now apply bool_decide_eq_true_1 in Hsel. }
  unfold mbind, result_bind.
  destruct (update_access_cases p_share_id now shares)
    as [(Hall & rows' & -> & Hrows)|(Hex & ->)].
  - left. split; [exact Hall|]. eexists _, rows'. split; [reflexivity|].
    split; [reflexivity|exact Hrows].
  - right. split; [exact Hex|reflexivity].
Qed.

Section SqlShareLinkExamples.
#[local] Existing Instance ConcreteHost.host.

(** C4 (as stated) fails in three ways.  The validation of a valid link also
    changes the [last_accessed_at] column of its row; a valid link whose
    counter is [NULL] keeps a [NULL] counter; and for a valid link whose
    counter is 2147483647 the call raises. *)
Lemma validate_share_link_changes_last_accessed :
  (exists res row,
     validate_share_link Scenario.share_name 1753000000000 [Scenario.share_link] =
       Ok (res, [row])
     /\ is_valid res = true
     /\ last_accessed_at Scenario.share_link = None
     /\ last_accessed_at row = Some 1753000000000)
  /\ (exists res row,
        validate_share_link (share_id Cases.uncounted_link) 1753000000000
          [Cases.uncounted_link] = Ok (res, [row])
        /\ is_valid res = true
        /\ access_count Cases.uncounted_link = None
        /\ access_count row = None)
  /\ List.find (share_selected (share_id Cases.worn_link) 1753000000000)
       [Cases.worn_link] = Some Cases.worn_link
  /\ validate_share_link (share_id Cases.worn_link) 1753000000000
       [Cases.worn_link] = Raise (lit "integer out of range").
Proof.
  split; [eexists _, _; vm_compute; repeat split; reflexivity|].
  split; [eexists _, _; vm_compute; repeat split; reflexivity|].
  split; vm_compute; reflexivity.
Qed.

End SqlShareLinkExamples.

(** ** Debounced auto-save *)

Section Debounce.

Lemma next_event_timer p tm :
  timers p = [tm] -> in_flight p = [] -> next_event p = Some (Fire tm).
Proof. unfold next_event. now intros -> ->. Qed.

Lemma next_event_flight p f :
  timers p = [] -> in_flight p = [f] -> next_event p = Some (Land f).
Proof. unfold next_event. now intros -> ->. Qed.

Lemma earliest_in {A} (time : A -> Z) (l : list A) (x : A) :
  earliest time l = Some x -> In x l.
Proof.
  revert x. induction l as [|y l IH]; intros x; cbn [earliest]; [discriminate|].
  destruct (earliest time l) as [z|].
  - destruct (time z <? time y); intros [= <-]; [right; now apply IH|now left].
  - intros [= <-]. now left.
Qed.

Lemma filter_shorter {A} (f : A -> bool) (l : list A) (x : A) :
  In x l -> f x = false -> (List.length (List.filter f l) < List.length l)%nat.
Proof.
  induction l as [|y l IH]; intros Hin Hx; [contradiction|].
  pose proof (filter_length_le f l) as Hle.
  cbn [List.filter List.length].
  destruct Hin as [->|Hin].
  - rewrite Hx. lia.
  - specialize (IH Hin Hx). destruct (f y); cbn [List.length]; lia.
Qed.

Lemma next_event_none p :
  next_event p = None -> timers p = [] /\ in_flight p = [].
Proof.
  unfold next_event.
  destruct (in_flight p) as [|f fs]; destruct (timers p) as [|tm ts]; cbn [earliest];
    repeat match goal with
           | |- context [match earliest ?t ?l with _ => _ end] =>
               destruct (earliest t l)
           | |- context [if ?b then _ else _] => destruct b
           end; try discriminate; auto.
Qed.

(** Every event the loop runs leaves fewer events to run. *)
Lemma step_decreases p e :
  next_event p = Some e -> (events_left (step e p) < events_left p)%nat.
Proof.
  unfold next_event, events_left. intros Hnext.
  assert (Hin : match e with
                | Fire tm => In tm (timers p)
                | Land f => In f (in_flight p)
                end).
  { destruct (earliest lands (in_flight p)) as [f|] eqn:Ef;
      destruct (earliest due (timers p)) as [tm|] eqn:Et;
      try discriminate;
      try (destruct (due tm <? lands f));
      injection Hnext as <-; eauto using earliest_in. }
  destruct e as [tm|f]; cbn [step].
  - assert (Hts : (List.length (clearTimeout (handle tm) (timers p))
                   < List.length (timers p))%nat).
    { apply (filter_shorter _ _ tm Hin). now rewrite Nat.eqb_refl. }
    unfold fire. destruct (pendingChanges p !! _);
      cbn [timers in_flight]; rewrite ?length_app; cbn [List.length]; lia.
  - assert (Hfs : (List.length (List.filter
                                  (fun g => negb (call_no g =? call_no f)%nat)
                                  (in_flight p))
                   < List.length (in_flight p))%nat).
    { apply (filter_shorter _ _ f Hin). now rewrite Nat.eqb_refl. }
    unfold land. cbn [timers in_flight]. lia.
Qed.

Lemma run_to_the_end fuel p :
  (events_left p <= fuel)%nat -> next_event (run fuel None p) = None.
Proof.
  revert p. induction fuel as [|fuel IH]; intros p Hfuel; cbn [run].
  - unfold events_left in Hfuel. unfold next_event.
    destruct (timers p); [|cbn in Hfuel; lia].
    destruct (in_flight p); [reflexivity|cbn in Hfuel; lia].
  - destruct (next_event p) as [e|] eqn:Hnext; [|exact Hnext].
    cbn [due_by]. apply IH.
    pose proof (step_decreases p e Hnext). lia.
Qed.

(** [settle] never stops for lack of fuel: when it returns, the timer queue
    is empty and no call is awaited. *)
Lemma settle_quiescent p : timers (settle p) = [] /\ in_flight (settle p) = [].
Proof. apply next_event_none, run_to_the_end. unfold settle. lia. Qed.

Lemma clearTimeout_own ty id e h :
  clearTimeout h [timer_of ty id e h] = [].
Proof. cbn. now rewrite Nat.eqb_refl. Qed.

(** Before its timer is due, an armed page only sees time pass. *)
Lemma advance_armed ty id e calls p t :
  armed ty id e calls p ->
  e_time e <= t < e_time e + e_delay e ->
  advance t p = set_clock t p.
Proof.
  intros (h & Hh & Ht & _ & _ & Hf & _ & _) Hwin.
  unfold advance, events_left. rewrite Ht, Hf. cbn [List.length Nat.mul Nat.add run].
  rewrite (next_event_timer _ _ Ht Hf). cbn [event_time due due_by timer_of].
  destruct (Z.leb_spec (e_time e + Z.max 0 (e_delay e)) t); [lia|reflexivity].
Qed.

(** An edit inside the window finds the key's timer still running: it clears
    that timer, overwrites the buffered value and starts its own timer. *)
Lemma autoSave_rearms ty id e calls p e' :
  armed ty id e calls p ->
  e_time e <= e_time e' < e_time e + e_delay e ->
  armed ty id e' calls (edit_at ty id e' p).
Proof.
  intros Harmed Hwin. unfold edit_at.
  rewrite (advance_armed _ _ _ _ _ _ Harmed Hwin).
  destruct Harmed as (h & Hh & Ht & Hto & Hp & Hf & Hc & Hcl & Hn).
  exists (next_handle p). unfold autoSave, set_clock.
  cbn [autoSaveTimeouts pendingChanges timers next_handle in_flight save_calls clock].
  rewrite Hto, Ht.
  destruct (Nat.eqb_spec h 0) as [|_]; [contradiction|].
  rewrite clearTimeout_own. cbn [app].
  rewrite !lookup_insert_eq. unfold timer_of.
  replace (Z.max (clock p) (e_time e')) with (e_time e') by lia.
  repeat split; auto.
Qed.

(** The first edit of a burst, on a page with nothing scheduled. *)
Lemma autoSave_arms ty id e p :
  timers p = [] -> in_flight p = [] -> next_handle p <> O ->
  clock p <= e_time e ->
  armed ty id e (save_calls p) (edit_at ty id e p)
  /\ latency (edit_at ty id e p) = latency p.
Proof.
  intros Ht Hf Hn Hcl. unfold edit_at, advance, events_left.
  rewrite Ht, Hf. cbn [List.length Nat.mul Nat.add run].
  split; [|reflexivity].
  exists (next_handle p). unfold autoSave, set_clock.
  cbn [autoSaveTimeouts pendingChanges timers next_handle in_flight save_calls clock].
  rewrite Ht.
  assert (Hts : match autoSaveTimeouts p !! key_of ty id with
                | Some existingTimeout =>
                    if (existingTimeout =? 0)%nat then []
                    else clearTimeout existingTimeout []
                | None => []
                end = @nil timer)
    by (destruct (autoSaveTimeouts p !! key_of ty id) as [x|];
        [destruct (x =? 0)%nat|]; reflexivity).
  rewrite Hts. cbn [app].
  rewrite !lookup_insert_eq. unfold timer_of.
  replace (Z.max (clock p) (e_time e)) with (e_time e) by lia.
  repeat split; auto.
Qed.

Lemma last_cons {A} (x d : A) (l : list A) : List.last (x :: l) d = List.last l x.
Proof.
  revert x d. induction l as [|y l IH]; intros x d; [reflexivity|].
  change (List.last (x :: y :: l) d) with (List.last (y :: l) d).
  now rewrite !IH.
Qed.

Lemma autoSave_rearms_all ty id e calls p rest :
  armed ty id e calls p ->
  within_window e rest ->
  armed ty id (List.last rest e) calls (edits ty id rest p).
Proof.
  revert e p. induction rest as [|e' rest IH]; intros e p Harmed Hwin; [exact Harmed|].
  destruct Hwin as [Hwin Hrest].
  change (edits ty id (e' :: rest) p) with (edits ty id rest (edit_at ty id e' p)).
  rewrite last_cons.
  apply IH; [|exact Hrest].
  eapply autoSave_rearms; eauto.
Qed.

Lemma autoSave_rearms_each ty id e calls p rest before e' after :
  armed ty id e calls p ->
  within_window e rest ->
  rest = before ++ e' :: after ->
  armed ty id e' calls (edits ty id (before ++ [e']) p).
Proof.
  revert e p rest. induction before as [|b before IH]; intros e p rest Harmed Hwin ->.
  - destruct Hwin as [Hwin _]. eapply autoSave_rearms; eauto.
  - destruct Hwin as [Hwin Hrest].
    change (edits ty id ((b :: before) ++ [e']) p)
      with (edits ty id (before ++ [e']) (edit_at ty id b p)).
    eapply IH; [|exact Hrest|reflexivity].
    eapply autoSave_rearms; eauto.
Qed.

(** When the timer of an armed page fires, [saveElement] is called with the
    buffered value and the call is awaited; the maps are not touched yet. *)
Lemma fire_armed ty id e calls p h :
  timers p = [timer_of ty id e h] ->
  pendingChanges p !! key_of ty id = Some (e_value e) ->
  in_flight p = [] -> save_calls p = calls -> clock p = e_time e ->
  fire (timer_of ty id e h) p =
    {| autoSaveTimeouts := autoSaveTimeouts p;
       pendingChanges := pendingChanges p;
       timers := []; next_handle := next_handle p;
       in_flight := [ {| call_no := List.length calls;
                         lands := e_time e + Z.max 0 (e_delay e)
                                  + Z.max 0 (latency p (List.length calls));
                         f_key := key_of ty id |} ];
       save_calls := calls ++ [flush_of ty id e];
       clock := e_time e + Z.max 0 (e_delay e);
       latency := latency p |}.
Proof.
  intros Ht Hp Hf Hc Hcl. unfold fire.
  cbn [timer_of t_elementType t_elementId handle due].
  rewrite Hp, Ht, Hf, Hc, Hcl.
  change {| handle := h; due := e_time e + Z.max 0 (e_delay e);
            t_elementType := ty; t_elementId := id |}
    with (timer_of ty id e h).
  rewrite clearTimeout_own. cbn [app].
  replace (Z.max (e_time e) (e_time e + Z.max 0 (e_delay e)))
    with (e_time e + Z.max 0 (e_delay e)) by lia.
  reflexivity.
Qed.

(** Left alone, an armed page flushes once: the timer fires, [saveElement]
    is called with the buffered value, and when the call resolves both map
    entries of the key are gone. *)
Lemma settle_armed ty id e calls p :
  armed ty id e calls p ->
  save_calls (settle p) = calls ++ [flush_of ty id e]
  /\ timers (settle p) = []
  /\ in_flight (settle p) = []
  /\ pendingChanges (settle p) !! key_of ty id = None
  /\ autoSaveTimeouts (settle p) !! key_of ty id = None.
Proof.
  intros (h & Hh & Ht & Hto & Hp & Hf & Hc & Hcl & Hn).
  unfold settle, events_left. rewrite Ht, Hf. cbn [List.length Nat.mul Nat.add run].
  rewrite (next_event_timer _ _ Ht Hf). cbn [due_by step].
  rewrite (fire_armed _ _ _ _ _ _ Ht Hp Hf Hc Hcl).
  erewrite next_event_flight; [|reflexivity|reflexivity].
  cbn [due_by step land f_key call_no in_flight List.filter
       save_calls timers pendingChanges autoSaveTimeouts].
  rewrite Nat.eqb_refl, !lookup_delete_eq.
  repeat split; reflexivity.
Qed.

(** An edit that arrives after the timer of the armed value has fired and
    before the awaited [saveElement] call resolves.  The page then holds the
    call in flight, the new value in the buffer and the new timer. *)
Lemma edit_during_flush ty id e calls p e' :
  armed ty id e calls p ->
  0 <= e_delay e ->
  e_time e + e_delay e <= e_time e'
    < e_time e + e_delay e + Z.max 0 (latency p (List.length calls)) ->
  edit_at ty id e' p =
    {| autoSaveTimeouts := <[key_of ty id := next_handle p]> (autoSaveTimeouts p);
       pendingChanges := <[key_of ty id := e_value e']> (pendingChanges p);
       timers := [timer_of ty id e' (next_handle p)];
       next_handle := S (next_handle p);
       in_flight := [ {| call_no := List.length calls;
                         lands := e_time e + e_delay e
                                  + Z.max 0 (latency p (List.length calls));
                         f_key := key_of ty id |} ];
       save_calls := calls ++ [flush_of ty id e];
       clock := e_time e';
       latency := latency p |}.
Proof.
  intros (h & Hh & Ht & Hto & Hp & Hf & Hc & Hcl & Hn) Hd Hwin.
  unfold edit_at, advance, events_left. rewrite Ht, Hf.
  cbn [List.length Nat.mul Nat.add run].
  rewrite (next_event_timer _ _ Ht Hf). cbn [event_time due due_by timer_of step].
  change {| handle := h; due := e_time e + Z.max 0 (e_delay e);
            t_elementType := ty; t_elementId := id |}
    with (timer_of ty id e h).
  rewrite (fire_armed _ _ _ _ _ _ Ht Hp Hf Hc Hcl).
  replace (Z.max 0 (e_delay e)) with (e_delay e) by lia.
  destruct (Z.leb_spec (e_time e + e_delay e) (e_time e')) as [_|]; [|lia].
  erewrite next_event_flight; [|reflexivity|reflexivity].
  cbn [event_time lands due_by].
  destruct (Z.leb_spec (e_time e + e_delay e
                        + Z.max 0 (latency p (List.length calls))) (e_time e'))
    as [|_]; [lia|].
  unfold autoSave, set_clock.
  cbn [autoSaveTimeouts pendingChanges timers next_handle in_flight save_calls
       clock latency].
  rewrite Hto. destruct (Nat.eqb_spec h 0) as [|_]; [contradiction|].
  cbn [clearTimeout List.filter app]. unfold timer_of.
  replace (Z.max (e_time e + e_delay e) (e_time e')) with (e_time e') by lia.
  reflexivity.
Qed.

(** If the call then resolves no later than the new timer expires, the
    callback that resumes deletes the buffered value, and the new timer finds
    nothing to save. *)
Lemma settle_after_edit_during_flush ty id e' calls tos pcs h' n land_time lat nh :
  land_time <= e_time e' + Z.max 0 (e_delay e') ->
  let p := {| autoSaveTimeouts := <[key_of ty id := h']> tos;
              pendingChanges := <[key_of ty id := e_value e']> pcs;
              timers := [timer_of ty id e' h'];
              next_handle := nh;
              in_flight := [ {| call_no := n; lands := land_time;
                                f_key := key_of ty id |} ];
              save_calls := calls;
              clock := e_time e';
              latency := lat |} in
  save_calls (settle p) = calls
  /\ timers (settle p) = []
  /\ in_flight (settle p) = []
  /\ pendingChanges (settle p) !! key_of ty id = None.
Proof.
  intros Hland p.
  set (f := {| call_no := n; lands := land_time; f_key := key_of ty id |}) in p.
  assert (Hnext : next_event p = Some (Land f)).
  { unfold next_event, p. cbn [timers in_flight earliest due lands timer_of f].
    destruct (Z.ltb_spec (e_time e' + Z.max 0 (e_delay e')) land_time) as [|_];
      [lia|reflexivity]. }
  assert (Hland' : land f p =
            {| autoSaveTimeouts := delete (key_of ty id) (<[key_of ty id := h']> tos);
               pendingChanges := delete (key_of ty id)
                                   (<[key_of ty id := e_value e']> pcs);
               timers := [timer_of ty id e' h'];
               next_handle := nh; in_flight := []; save_calls := calls;
               clock := Z.max (e_time e') land_time; latency := lat |}).
  { unfold land, p.
    cbn [autoSaveTimeouts pendingChanges timers next_handle in_flight save_calls
         clock latency f f_key call_no lands List.filter].
    now rewrite Nat.eqb_refl. }
  unfold settle, events_left.
  replace (List.length (timers p)) with 1%nat by reflexivity.
  replace (List.length (in_flight p)) with 1%nat by reflexivity.
  cbn [Nat.mul Nat.add run].
  rewrite Hnext. cbn [due_by step]. rewrite Hland'.
  erewrite next_event_timer; [|reflexivity|reflexivity].
  cbn [due_by step]. unfold fire.
  cbn [timer_of t_elementType t_elementId handle due pendingChanges timers
       autoSaveTimeouts next_handle in_flight save_calls clock latency].
  rewrite lookup_delete_eq.
  cbn [clearTimeout List.filter handle]. rewrite Nat.eqb_refl. cbn [negb].
  unfold next_event.
  cbn [timers in_flight earliest save_calls pendingChanges].
  rewrite lookup_delete_eq. repeat split; reflexivity.
Qed.

End Debounce.

(** C2 fails: an edit that arrives while the flush of the previous value is
    in flight is buffered and gets a timer of its own, but when the flush
    resolves (here: no later than that timer expires) the resumed callback
    deletes the key's pending entry, the new value with it; the new timer then
    finds nothing to save.  Only the previous value is ever passed to
    [saveElement]. *)
Theorem autoSave_drops_edit_made_during_flush
    (elementType elementId : jsstring) (previous latest : edit) (p : page) :
  timers p = [] -> in_flight p = [] -> next_handle p <> O ->
  clock p <= e_time previous ->
  0 <= e_delay previous ->
  e_time previous + e_delay previous <= e_time latest
    < e_time previous + e_delay previous
      + Z.max 0 (latency p (List.length (save_calls p))) ->
  e_time previous + e_delay previous
    + Z.max 0 (latency p (List.length (save_calls p)))
    <= e_time latest + Z.max 0 (e_delay latest) ->
  let during := edits elementType elementId [previous; latest] p in
  pendingChanges during !! key_of elementType elementId = Some (e_value latest)
  /\ map due (timers during) = [e_time latest + Z.max 0 (e_delay latest)]
  /\ map lands (in_flight during) =
     [e_time previous + e_delay previous
      + Z.max 0 (latency p (List.length (save_calls p)))]
  /\ save_calls (settle during) =
     save_calls p ++ [flush_of elementType elementId previous]
  /\ timers (settle during) = []
  /\ in_flight (settle during) = []
  /\ pendingChanges (settle during) !! key_of elementType elementId = None.
Proof.
  intros Ht Hf Hn Hcl Hd Hwin Hland during.
  destruct (autoSave_arms elementType elementId previous p Ht Hf Hn Hcl)
    as [Harmed Hlat].
  assert (Hduring : during = edit_at elementType elementId latest
                               (edit_at elementType elementId previous p))
    by reflexivity.
  rewrite <- Hlat in Hwin, Hland |- *.
  rewrite (edit_during_flush _ _ _ _ _ _ Harmed Hd Hwin) in Hduring.
  rewrite Hduring.
  split; [cbn [pendingChanges]; apply lookup_insert_eq|].
  split; [reflexivity|]. split; [reflexivity|].
  apply settle_after_edit_during_flush. exact Hland.
Qed.

Lemma autoSave_drops_edit_made_during_flush_witness :
  save_calls (settle (edits (lit "text") (lit "a1")
                        [Scenario.draft; Scenario.final_text]
                        (fresh (fun _ => 500)))) =
    [ {| started := 2000; c_elementType := lit "text"; c_elementId := lit "a1";
         c_value := JStr (lit "draft"); c_options := flush_options |} ]
  /\ timers (settle (edits (lit "text") (lit "a1")
                       [Scenario.draft; Scenario.final_text]
                       (fresh (fun _ => 500)))) = []
  /\ in_flight (settle (edits (lit "text") (lit "a1")
                          [Scenario.draft; Scenario.final_text]
                          (fresh (fun _ => 500)))) = [].
Proof.
  destruct (autoSave_drops_edit_made_during_flush (lit "text") (lit "a1")
              Scenario.draft Scenario.final_text (fresh (fun _ => 500)))
    as (_ & _ & _ & Hcalls & Htimers & Hflights & _).
  - reflexivity.
  - reflexivity.
  - cbn. lia.
  - cbn. lia.
  - cbn. unfold default_delay. lia.
  - cbn. unfold default_delay. lia.
  - cbn. unfold default_delay. lia.
  - split; [exact Hcalls|]. split; [exact Htimers|exact Hflights].
Defined.

(** * Further properties of the code *)

Import Constraints.

(** ** Tearing down auto-save *)

Section Teardown.
Import Lifecycle.

Lemma step_without_pending e p :
  pendingChanges p = ∅ ->
  pendingChanges (step e p) = ∅ /\ save_calls (step e p) = save_calls p.
Proof.
  intros Hp. destruct e as [tm|f]; cbn [step].
  - unfold fire. rewrite Hp, lookup_empty. cbn. auto.
  - unfold land. cbn. rewrite Hp, delete_empty. auto.
Qed.

Lemma run_without_pending fuel until p :
  pendingChanges p = ∅ ->
  pendingChanges (run fuel until p) = ∅
  /\ save_calls (run fuel until p) = save_calls p.
Proof.
  revert p. induction fuel as [|fuel IH]; intros p Hp; cbn [run]; [auto|].
  destruct (next_event p) as [e|]; [|auto].
  destruct (due_by until (event_time e)); [|auto].
  destruct (step_without_pending e p Hp) as [Hp' Hc'].
  destruct (IH _ Hp') as [Hp2 Hc2]. split; congruence.
Qed.

Lemma clearTimeout_removes h ts :
  Forall (fun tm => handle tm <> h) (clearTimeout h ts).
Proof.
  unfold clearTimeout. induction ts as [|tm ts IH]; cbn; [constructor|].
  destruct (Nat.eqb_spec (handle tm) h); cbn; [exact IH|constructor; auto].
Qed.

Lemma clearTimeout_keeps (P : timer -> Prop) h ts :
  Forall P ts -> Forall P (clearTimeout h ts).
Proof.
  unfold clearTimeout. induction 1 as [|tm ts Htm _ IH]; cbn; [constructor|].
  destruct (negb _); [constructor|]; auto.
Qed.

Lemma clear_each_removes (entries : list (jsstring * nat)) ts key h :
  In (key, h) entries ->
  Forall (fun tm => handle tm <> h)
    (foldr (fun entry ts => clearTimeout (snd entry) ts) ts entries).
Proof.
  induction entries as [|entry entries IH]; intros Hin; [contradiction|].
  cbn [foldr]. destruct Hin as [->|Hin].
  - apply clearTimeout_removes.
  - apply clearTimeout_keeps, IH, Hin.
Qed.

End Teardown.

(** X1: after [clearAllAutoSaveTimeouts] no timer starts a save any more,
    whatever was scheduled: however long the page runs afterwards, the
    [saveElement] calls made are those made before.  Every timer recorded in
    [autoSaveTimeouts] is taken out of the queue (a timer that is no longer
    recorded there stays, and finds nothing pending when it fires), and a
    second call changes nothing. *)
Theorem clearAllAutoSaveTimeouts_stops_every_flush (p : page) :
  let q := Lifecycle.clearAllAutoSaveTimeouts p in
  save_calls (settle q) = save_calls p
  /\ (forall t, save_calls (advance t q) = save_calls p)
  /\ (forall key h, autoSaveTimeouts p !! key = Some h ->
        Forall (fun tm => handle tm <> h) (timers q))
  /\ Lifecycle.clearAllAutoSaveTimeouts q = q.
Proof.
  intros q.
  assert (Hp : pendingChanges q = ∅) by reflexivity.
  split; [exact (proj2 (run_without_pending _ None q Hp))|].
  split; [intros t; exact (proj2 (run_without_pending _ (Some t) q Hp))|].
  split.
  - intros key h Hkey. unfold q, Lifecycle.clearAllAutoSaveTimeouts. cbn [timers].
    apply (clear_each_removes _ _ key h).
    apply list_elem_of_In, elem_of_map_to_list, Hkey.
  - unfold q, Lifecycle.clearAllAutoSaveTimeouts. cbn.
    rewrite map_to_list_empty. reflexivity.
Qed.

(** ** Edits outside the debounce window, and keys that coincide *)

Section Separated.

(** An edit that arrives once the flush of the armed value has resolved
    finds the page idle again, with the flush made. *)
Lemma edit_after_flush ty id e calls p ty' id' e' :
  armed ty id e calls p ->
  0 <= e_delay e ->
  e_time e + e_delay e + Z.max 0 (latency p (List.length calls)) <= e_time e' ->
  armed ty' id' e' (calls ++ [flush_of ty id e]) (edit_at ty' id' e' p)
  /\ latency (edit_at ty' id' e' p) = latency p.
Proof.
  intros (h & Hh & Ht & Hto & Hp & Hf & Hc & Hcl & Hn) Hd Hlate.
  unfold edit_at, advance, events_left. rewrite Ht, Hf.
  cbn [List.length Nat.mul Nat.add run].
  rewrite (next_event_timer _ _ Ht Hf). cbn [event_time due due_by timer_of step].
  change {| handle := h; due := e_time e + Z.max 0 (e_delay e);
            t_elementType := ty; t_elementId := id |}
    with (timer_of ty id e h).
  rewrite (fire_armed _ _ _ _ _ _ Ht Hp Hf Hc Hcl).
  replace (Z.max 0 (e_delay e)) with (e_delay e) by lia.
  destruct (Z.leb_spec (e_time e + e_delay e) (e_time e')) as [_|]; [|lia].
  erewrite next_event_flight; [|reflexivity|reflexivity].
  cbn [event_time lands due_by].
  destruct (Z.leb_spec (e_time e + e_delay e
                        + Z.max 0 (latency p (List.length calls))) (e_time e'))
    as [_|]; [|lia].
  split; [|reflexivity].
  exists (next_handle p). cbn [step]. unfold autoSave, set_clock, land.
  cbn [autoSaveTimeouts pendingChanges timers next_handle in_flight save_calls
       clock latency f_key call_no lands List.filter].
  rewrite Nat.eqb_refl. cbn [negb].
  assert (Hts : forall o : option nat,
             match o with
             | Some existingTimeout =>
                 if (existingTimeout =? 0)%nat then []
                 else clearTimeout existingTimeout []
             | None => []
             end = @nil timer)
    by (intros [x|]; [destruct (x =? 0)%nat|]; reflexivity).
  rewrite Hts. cbn [app].
  rewrite !lookup_insert_eq. unfold timer_of.
  replace (Z.max (Z.max (e_time e + e_delay e)
                    (e_time e + e_delay e
                     + Z.max 0 (latency p (List.length calls)))) (e_time e'))
    with (e_time e') by lia.
  repeat split; auto.
Qed.

(** An edit inside the window of an armed key that is spelt differently:
    the two elements share the key, so the edit takes over the buffer and
    the timer. *)
Lemma autoSave_rearms_same_key ty id e calls p ty' id' e' :
  key_of ty id = key_of ty' id' ->
  armed ty id e calls p ->
  e_time e <= e_time e' < e_time e + e_delay e ->
  armed ty' id' e' calls (edit_at ty' id' e' p).
Proof.
  intros Hkey Harmed Hwin. unfold edit_at.
  rewrite (advance_armed _ _ _ _ _ _ Harmed Hwin).
  destruct Harmed as (h & Hh & Ht & Hto & Hp & Hf & Hc & Hcl & Hn).
  exists (next_handle p). unfold autoSave, set_clock.
  cbn [autoSaveTimeouts pendingChanges timers next_handle in_flight save_calls clock].
  rewrite <- Hkey, Hto, Ht.
  destruct (Nat.eqb_spec h 0) as [|_]; [contradiction|].
  rewrite clearTimeout_own. cbn [app].
  rewrite !lookup_insert_eq. unfold timer_of.
  replace (Z.max (clock p) (e_time e')) with (e_time e') by lia.
  repeat split; auto.
Qed.

End Separated.





(** ** The rows an upsert writes *)

Section Tables.
Context `{Host}.

Ltac ok_cases :=
  repeat match goal with
         | H : Raise _ = Ok _ |- _ => discriminate H
         | H : Ok _ = Ok _ |- _ => injection H as H; subst
         | H : context [mbind _ ?r] |- _ =>
             unfold mbind, result_bind in H
         | H : match ?x with _ => _ end = Ok _ |- _ =>
             let E := fresh "E" in destruct x eqn:E
         | H : (if ?x then _ else _) = Ok _ |- _ =>
             let E := fresh "E" in destruct x eqn:E
         end.

(** What the validation trigger leaves alone. *)
Lemma validate_portfolio_data_keeps auth NEW NEW' :
  validate_portfolio_data auth NEW = Ok NEW' ->
  element_key NEW' = element_key NEW /\ id NEW' = id NEW
  /\ json_data NEW' = json_data NEW
  /\ element_value NEW' = sanitize_text <$> element_value NEW
  /\ version NEW' = version NEW /\ is_active NEW' = is_active NEW
  /\ updated_at NEW' = updated_at NEW
  /\ element_type NEW ∈ allowed_element_types
  /\ (forall u, auth = Some u -> user_id NEW = u).
Proof.
  unfold validate_portfolio_data. intros Hv.
  destruct (bool_decide (element_type NEW ∈ allowed_element_types)) eqn:Ety;
    cbn [negb] in Hv; [|discriminate].
  apply bool_decide_eq_true in Ety.
  destruct (element_value NEW) as [v|] eqn:Ev; ok_cases; cbn;
    repeat split; auto; intros u' [= <-];
    match goal with
    | E : negb (bool_decide _) = false |- _ =>
        apply negb_false_iff, bool_decide_eq_true in E; exact E
    end.
Qed.

Lemma validate_portfolio_data_type auth NEW :
  element_type NEW ∉ allowed_element_types ->
  validate_portfolio_data auth NEW
  = Raise (lit "Invalid element_type: " ++ element_type NEW).
Proof.
  intros Hty. unfold validate_portfolio_data.
  now rewrite bool_decide_eq_false_2.
Qed.

Lemma is_element_true u ty eid r :
  is_element u ty eid r = true <-> element_key r = (u, ty, eid).
Proof.
  unfold is_element, element_key. rewrite !andb_true_iff, !bool_decide_eq_true.
  split; [intros [[-> ->] ->]; reflexivity|intros [= -> -> ->]; auto].
Qed.

Lemma same_element_is_element a r :
  same_element a r = is_element (user_id a) (element_type a) (element_id a) r.
Proof.
  unfold same_element, is_element.
  f_equal; [f_equal|]; apply bool_decide_ext; split; congruence.
Qed.

Lemma find_agree {A} (f g : A -> bool) (l : list A) :
  (forall x, f x = g x) -> List.find f l = List.find g l.
Proof.
  intros Hfg. induction l as [|x l IH]; [reflexivity|].
  cbn. now rewrite Hfg, IH.
Qed.

(** The two ways in which [upsert_portfolio_data] completes. *)
Lemma upsert_portfolio_data_cases auth now ty eid v j m d i d' :
  upsert_portfolio_data auth now ty eid v j m d = Ok (i, d') ->
  exists u,
    auth = Some u /\ ty ∈ allowed_element_types
    /\ form_shares d' = form_shares d
    /\ ((exists row,
           List.find (is_element u ty eid) (portfolio_data_v2 d) = None
           /\ portfolio_data_v2 d' = portfolio_data_v2 d ++ [row]
           /\ portfolio_data_backup d' = portfolio_data_backup d
           /\ element_key row = (u, ty, eid) /\ id row = i
           /\ Forall (fun r => id r <> i) (portfolio_data_v2 d)
           /\ json_data row = j
           /\ element_value row = sanitize_text <$> v
           /\ version row = Some 1 /\ is_active row = Some true
           /\ updated_at row = now)
        \/ (exists OLD NEW,
              List.find (is_element u ty eid) (portfolio_data_v2 d) = Some OLD
              /\ portfolio_data_v2 d' =
                 map (fun r => if is_element u ty eid r then NEW else r)
                     (portfolio_data_v2 d)
              /\ portfolio_data_backup d' =
                 portfolio_data_backup d ++ [pre_update_backup now OLD]
              /\ element_key NEW = (u, ty, eid) /\ id NEW = i /\ id OLD = i
              /\ json_data NEW = j
              /\ element_value NEW = sanitize_text <$> (sanitize_text <$> v)
              /\ version NEW = Some (default 0 (version OLD) + 1)
              /\ is_active NEW = is_active OLD
              /\ updated_at NEW = now)).
Proof.
  unfold upsert_portfolio_data. intros Hu.
  destruct auth as [u|]; [|discriminate].
  unfold mbind, result_bind in Hu.
  destruct (validate_portfolio_data _ _) as [proposed|] eqn:Ep; [|discriminate].
  apply validate_portfolio_data_keeps in Ep.
  cbn [element_key id user_id element_type element_id element_value json_data
       version is_active updated_at] in Ep.
  destruct Ep as (Pkey & Pid & Pj & Pv & Pver & Pact & Pup & Pty & _).
  injection Pkey as Pu Pt Pe.
  assert (Hsame : forall r, same_element proposed r = is_element u ty eid r)
    by (intros r; rewrite same_element_is_element, Pu, Pt, Pe; reflexivity).
  rewrite (find_agree _ _ _ Hsame) in Hu.
  exists u. split; [reflexivity|]. split; [exact Pty|].
  destruct (List.find _ _) as [OLD|] eqn:Ef.
  - pose proof Ef as Ef'. apply find_some in Ef' as [Hin Hold].
    apply is_element_true in Hold.
    unfold create_portfolio_backup, mbind, result_bind in Hu.
    destruct (int4_add _ _) as [ver|] eqn:Ever; [|discriminate].
    destruct (validate_portfolio_data _ _) as [NEW|] eqn:En; [|discriminate].
    apply validate_portfolio_data_keeps in En.
    cbn [element_key id user_id element_type element_id element_value json_data
         version is_active updated_at] in En.
    destruct En as (Nkey & Nid & Nj & Nv & Nver & Nact & Nup & _ & _).
    injection Hu as <- <-. cbn [portfolio_data_v2 portfolio_data_backup form_shares].
    split; [reflexivity|]. right. exists OLD, NEW.
    split; [reflexivity|].
    split; [apply map_ext; intros r; now rewrite Hsame|].
    split; [reflexivity|].
    split; [rewrite Nkey; exact Hold|].
    repeat split; try congruence.
    rewrite Nver. f_equal.
    unfold int4_add in Ever.
    destruct (_ || _); [discriminate|]. now injection Ever as <-.
  - destruct (existsb _ _) eqn:Eid; [discriminate|].
    injection Hu as <- <-. cbn [portfolio_data_v2 portfolio_data_backup form_shares].
    split; [reflexivity|]. left. exists proposed.
    split; [reflexivity|]. split; [reflexivity|]. split; [reflexivity|].
    split; [unfold element_key; now rewrite Pu, Pt, Pe|].
    split; [reflexivity|].
    split.
    { apply Forall_forall. intros r Hr Heq.
      apply list_elem_of_In in Hr.
      assert (Hex : existsb (fun r => bool_decide (id r = id proposed))
                      (portfolio_data_v2 d) = true)
        by (apply existsb_exists; exists r; split;
            [exact Hr|now apply bool_decide_eq_true]).
      congruence. }
    repeat split; congruence.
Qed.

End Tables.

(** ** The table constraints are kept *)

Section TablesKept.
Context `{Host}.
Import Statements.

Lemma find_none_key u ty eid rows :
  List.find (is_element u ty eid) rows = None ->
  (u, ty, eid) ∉ map element_key rows.
Proof.
  intros Hf Hin. apply list_elem_of_In, in_map_iff in Hin as (r & Hkey & Hr).
  apply (find_none _ _ Hf) in Hr.
  apply is_element_true in Hkey. congruence.
Qed.

Lemma map_key_replace u ty eid NEW rows :
  element_key NEW = (u, ty, eid) ->
  map element_key (map (fun r => if is_element u ty eid r then NEW else r) rows)
  = map element_key rows.
Proof.
  intros HN. rewrite map_map. apply map_ext. intros r.
  destruct (is_element u ty eid r) eqn:E; [|reflexivity].
  apply is_element_true in E. congruence.
Qed.

Lemma upsert_portfolio_data_consistent auth now ty eid v j m d i d' :
  upsert_portfolio_data auth now ty eid v j m d = Ok (i, d') ->
  consistent d -> consistent d'.
Proof.
  intros Hu [Huniq Hchk]. unfold consistent.
  apply upsert_portfolio_data_cases in Hu
    as (u & -> & Hty & _ & [(row & Hf & Hrows & _ & Hkey & _)
                           |(OLD & NEW & Hf & Hrows & _ & Hkey & _)]);
    rewrite Hrows.
  - split.
    + unfold unique_elements. rewrite map_app. cbn [map].
      apply NoDup_app. split; [exact Huniq|]. split.
      * intros k Hk Hk'. apply list_elem_of_singleton in Hk'. subst k.
        rewrite Hkey in Hk. now apply find_none_key in Hf.
      * apply NoDup_singleton.
    + apply Forall_app. split; [exact Hchk|].
      constructor; [|constructor]. injection Hkey as _ -> _. exact Hty.
  - split.
    + unfold unique_elements. now rewrite (map_key_replace _ _ _ _ _ Hkey).
    + unfold checked_types. apply Forall_forall. intros r Hr.
      apply list_elem_of_In, in_map_iff in Hr as (r0 & Hr0 & Hin).
      destruct (is_element u ty eid r0); subst r.
      * injection Hkey as _ -> _. exact Hty.
      * unfold checked_types in Hchk. rewrite Forall_forall in Hchk.
        apply Hchk, list_elem_of_In, Hin.
Qed.

Lemma bulk_update_loop_consistent auth now ups c d c' d' :
  bulk_update_loop auth now ups c d = Ok (c', d') ->
  consistent d -> consistent d'.
Proof.
  revert c d. induction ups as [|u ups IH]; intros c d; cbn [bulk_update_loop].
  - intros [= <- <-]. auto.
  - unfold mbind, result_bind, upsert_record.
    destruct (upsert_portfolio_data _ _ _ _ _ _ _ _) as [[i d1]|] eqn:Eu;
      [|discriminate].
    destruct (int4_add c 1) as [c1|]; [|discriminate].
    intros Hloop Hd. eapply IH; [exact Hloop|].
    eapply upsert_portfolio_data_consistent; eauto.
Qed.

(** What the soft delete does to each row of the table. *)
Lemma deactivate_rows_ok auth now sel rows backups rows' backups' :
  deactivate_rows auth now sel rows backups = Ok (rows', backups') ->
  Forall2 (fun r r' =>
             if sel r
             then element_key r' = element_key r /\ id r' = id r
                  /\ is_active r' = Some false
                  /\ json_data r' = json_data r
                  /\ element_value r' = sanitize_text <$> element_value r
                  /\ version r' = Some (default 0 (version r) + 1)
                  /\ element_type r ∈ allowed_element_types
             else r' = r) rows rows'
  /\ backups' = backups ++ map (pre_update_backup now) (List.filter sel rows).
Proof.
  revert backups rows' backups'.
  induction rows as [|r rows IH]; intros backups rows' backups';
    cbn [deactivate_rows List.filter].
  - intros [= <- <-]. split; [constructor|now rewrite app_nil_r].
  - unfold mbind, result_bind.
    destruct (sel r) eqn:Esel.
    + unfold deactivate_row, create_portfolio_backup, mbind, result_bind.
      destruct (int4_add _ _) as [ver|] eqn:Ever; [|discriminate].
      destruct (validate_portfolio_data _ _) as [NEW|] eqn:En; [|discriminate].
      destruct (deactivate_rows _ _ _ rows _) as [[rest' backups2]|] eqn:Er;
        [|discriminate].
      intros [= <- <-].
      apply IH in Er as [Hrest ->].
      apply validate_portfolio_data_keeps in En.
      cbn [element_key id user_id element_type element_id element_value json_data
           version is_active updated_at] in En.
      destruct En as (Nkey & Nid & Nj & Nv & Nver & Nact & _ & Nty & _).
      split.
      * constructor; [|exact Hrest]. rewrite Esel.
        repeat split; auto.
        rewrite Nver. f_equal. unfold int4_add in Ever.
        destruct (_ || _); [discriminate|]. now injection Ever as <-.
      * cbn [map]. now rewrite <- app_assoc.
    + destruct (deactivate_rows _ _ _ rows _) as [[rest' backups2]|] eqn:Er;
        [|discriminate].
      intros [= <- <-]. apply IH in Er as [Hrest ->].
      split; [constructor; [now rewrite Esel|exact Hrest]|reflexivity].
Qed.

Lemma soft_delete_consistent auth now u ty eid d d' :
  soft_delete auth now u ty eid d = Ok (tt, d') ->
  consistent d -> consistent d'.
Proof.
  unfold soft_delete, mbind, result_bind.
  destruct (deactivate_rows _ _ _ _ _) as [[rows' backups']|] eqn:Ed; [|discriminate].
  intros [= <-] [Huniq Hchk].
  apply deactivate_rows_ok in Ed as [Hrows _].
  unfold consistent, unique_elements, checked_types in *.
  cbn [portfolio_data_v2].
  assert (Hkeys : Forall2 (fun r r' => element_key r' = element_key r)
                    (portfolio_data_v2 d) rows').
  { eapply Forall2_impl; [exact Hrows|]. intros r r' Hr. cbn beta in Hr.
    destruct (delete_selected _ _ _ _ r); [apply Hr|now subst]. }
  clear Hrows. split.
  - replace (map element_key rows') with (map element_key (portfolio_data_v2 d));
      [exact Huniq|].
    clear -Hkeys. induction Hkeys as [|r r' rows rs Hr _ IH]; [reflexivity|].
    cbn [map]. now rewrite Hr, IH.
  - clear Huniq. induction Hkeys as [|r r' rows rs Hr _ IH]; [constructor|].
    apply Forall_cons in Hchk as [Hty Hchk].
    constructor; [|exact (IH Hchk)].
    injection Hr as _ Hty' _. now rewrite Hty'.
Qed.

End TablesKept.

(** ** The outcomes of a save *)

Section SaveOutcomes.
Context `{Host}.

(** The two outcomes of the write half of [saveElement]. *)
Lemma save_write_cases ty id value auto_save notify user w :
  let r := fst (save_write ty id value auto_save notify user w) in
  let w' := snd (save_write ty id value auto_save notify user w) in
  session w' = session w /\ now w' = now w
  /\ ((success r = false /\ db w' = db w /\ emitted w' = emitted w
       /\ exists m, toasts w' = if notify then toasts w ++ [ToastError m]
                                else toasts w)
      \/ (exists cur i d' md,
            success r = true
            /\ fst (getElement ty id w) = Returned cur
            /\ upsert_portfolio_data (session w) (now w) ty id
                 (match value with JStr s => Some s | _ => None end)
                 (match typeof value with
                  | TObject => match value with JNull => None | _ => Some value end
                  | _ => None
                  end) md (db w) = Ok (i, d')
            /\ db w' = d'
            /\ data r = Some (JStr i)
            /\ emitted w' = emitted w ++
                 [ {| ev_elementType := ty; ev_elementId := id;
                      oldValue := cur; newValue := value;
                      timestamp := now w; userId := user |} ])).
Proof.
  unfold save_write.
  pose proof (getElement_frame ty id w) as (Fs & Fd & Fn & Ft & Fe & _).
  destruct (getElement ty id w) as [[cur|m] w1]; cbn [snd fst] in *.
  2:{ unfold save_failed. destruct notify; cbn; rewrite ?Ft; eauto 10. }
  unfold rpc, send. cbn zeta.
  destruct (faults w1) as [|[m|] fs]; cbn [fst snd db session now emitted].
  2:{ unfold save_failed. destruct notify; cbn; rewrite ?Ft; eauto 10. }
  all: destruct (upsert_portfolio_data _ _ _ _ _ _ _ _) as [[i d']|m] eqn:Eu.
  all: try (unfold save_failed; destruct notify; cbn; rewrite ?Ft; eauto 10; fail).
  all: rewrite Fs, Fn, Fd in Eu.
  all: split; [destruct (notify && negb auto_save); cbn; exact Fs|].
  all: split; [destruct (notify && negb auto_save); cbn; exact Fn|].
  all: right; eexists cur, i, d', _.
  all: split; [reflexivity|]. all: split; [reflexivity|].
  all: split; [exact Eu|].
  all: destruct (notify && negb auto_save); cbn; rewrite ?Fe, ?Fn; auto.
Qed.

(** The value that [saveElement] passes on to the write. *)
Lemma saveElement_cases ty id value options w :
  let r := fst (saveElement ty id value options w) in
  let w' := snd (saveElement ty id value options w) in
  let sent := if default true (validateData options)
              then sanitized_or (validation_for value) value else value in
  session w' = session w /\ now w' = now w
  /\ ((success r = false /\ db w' = db w /\ emitted w' = emitted w
       /\ exists m, toasts w' = if default true (showNotifications options)
                                then toasts w ++ [ToastError m] else toasts w)
      \/ (exists user cur i d' md,
            success r = true
            /\ session w = Some user
            /\ fst (getElement ty id w) = Returned cur
            /\ upsert_portfolio_data (Some user) (now w) ty id
                 (match sent with JStr s => Some s | _ => None end)
                 (match typeof sent with
                  | TObject => match sent with JNull => None | _ => Some sent end
                  | _ => None
                  end) md (db w) = Ok (i, d')
            /\ db w' = d'
            /\ data r = Some (JStr i)
            /\ emitted w' = emitted w ++
                 [ {| ev_elementType := ty; ev_elementId := id;
                      oldValue := cur; newValue := sent;
                      timestamp := now w; userId := user |} ])).
Proof.
  cbn zeta. unfold saveElement.
  destruct (session w) as [user|] eqn:Es.
  2:{ unfold save_failed. destruct (default true (showNotifications options));
        cbn; eauto 10. }
  assert (Hwrite : forall sent,
    let r := fst (save_write ty id sent (default false (Service.autoSave options))
                    (default true (showNotifications options)) user w) in
    let w' := snd (save_write ty id sent (default false (Service.autoSave options))
                     (default true (showNotifications options)) user w) in
    session w' = Some user /\ now w' = now w
    /\ ((success r = false /\ db w' = db w /\ emitted w' = emitted w
         /\ exists m, toasts w' = if default true (showNotifications options)
                                  then toasts w ++ [ToastError m] else toasts w)
        \/ (exists user0 cur i d' md,
              success r = true /\ Some user = Some user0
              /\ fst (getElement ty id w) = Returned cur
              /\ upsert_portfolio_data (Some user0) (now w) ty id
                   (match sent with JStr s => Some s | _ => None end)
                   (match typeof sent with
                    | TObject => match sent with JNull => None | _ => Some sent end
                    | _ => None
                    end) md (db w) = Ok (i, d')
              /\ db w' = d' /\ data r = Some (JStr i)
              /\ emitted w' = emitted w ++
                   [ {| ev_elementType := ty; ev_elementId := id;
                        oldValue := cur; newValue := sent;
                        timestamp := now w; userId := user0 |} ]))).
  { intros sent.
    pose proof (save_write_cases ty id sent (default false (Service.autoSave options))
                  (default true (showNotifications options)) user w) as Hw.
    cbn zeta in Hw |- *. rewrite Es in Hw.
    destruct Hw as (Hs & Hn & [Hfail|(cur & i & d' & md & Hok)]).
    - auto.
    - split; [exact Hs|]. split; [exact Hn|]. right.
      exists user, cur, i, d', md. tauto. }
  destruct (default true (validateData options)); [|apply Hwrite].
  destruct (isValid (validation_for value)); cbn [negb]; [apply Hwrite|].
  destruct (default true (showNotifications options)); cbn; eauto 10.
Qed.

(** An element type outside the list of the table is refused. *)
Lemma saveElement_refused_type ty id value options w :
  ty ∉ allowed_element_types ->
  success (fst (saveElement ty id value options w)) = false
  /\ db (snd (saveElement ty id value options w)) = db w
  /\ emitted (snd (saveElement ty id value options w)) = emitted w.
Proof.
  intros Hty.
  destruct (saveElement_cases ty id value options w)
    as (_ & _ & [Hfail|(user & cur & i & d' & md & _ & _ & _ & Hu & _)]);
    [tauto|].
  apply upsert_portfolio_data_cases in Hu as (_ & _ & Hin & _). contradiction.
Qed.

End SaveOutcomes.

(** ** The rows a read selects *)

Section ReadingRows.

Lemma In_insert_desc r x rows : In x (insert_desc r rows) <-> x = r \/ In x rows.
Proof.
  induction rows as [|r' rows IH]; cbn [insert_desc In].
  - intuition.
  - destruct (updated_at r' <? updated_at r); cbn [In]; rewrite ?IH; intuition.
Qed.

Lemma In_order_by x rows : In x (order_by_updated_at_desc rows) <-> In x rows.
Proof.
  unfold order_by_updated_at_desc.
  induction rows as [|r rows IH]; cbn [foldr In]; [tauto|].
  rewrite In_insert_desc, IH. intuition.
Qed.

(** The rows [get_portfolio_data] returns for one element. *)
Lemma get_portfolio_data_element u ty id d :
  exists rows,
    get_portfolio_data (Some u) (Some ty) (Some id) d = Ok rows
    /\ forall r, In r rows <->
         In r (portfolio_data_v2 d) /\ element_key r = (u, ty, id)
         /\ is_active r = Some true.
Proof.
  unfold get_portfolio_data. eexists. split; [reflexivity|].
  intros r. rewrite In_order_by, filter_In. unfold matches_filter.
  rewrite !andb_true_iff, !bool_decide_eq_true. unfold element_key.
  split.
  - intros (Hin & ((-> & Ha) & ->) & ->). auto.
  - intros (Hin & [= -> -> ->] & Ha). auto.
Qed.

(** [getElement] in terms of the rows of the element. *)
Lemma getElement_rows ty id w :
  match session w, faults w with
  | Some u, None :: _ | Some u, [] =>
      exists rows,
        (forall r, In r rows <->
           In r (portfolio_data_v2 (db w)) /\ element_key r = (u, ty, id)
           /\ is_active r = Some true)
        /\ fst (getElement ty id w) =
           Returned (match rows with item :: _ => row_value item | [] => JNull end)
  | _, _ => fst (getElement ty id w) = Returned JNull
  end.
Proof.
  unfold getElement, getElement_try, rpc, send. cbn zeta.
  destruct (session w) as [u|] eqn:Es.
  - destruct (get_portfolio_data_element u ty id (db w)) as (rows & Hget & Hrows).
    destruct (faults w) as [|[m|] fs]; cbn [db]; [| reflexivity |].
    all: rewrite Hget; cbn; exists rows; split; [exact Hrows|].
    all: destruct rows; reflexivity.
  - destruct (faults w) as [|[m|] fs]; reflexivity.
Qed.

(** A value that [getElement] returns is the value of an active row of the
    signed-in user for that element. *)
Lemma getElement_value ty id w v :
  fst (getElement ty id w) = Returned v -> v <> JNull ->
  exists u row,
    session w = Some u /\ In row (portfolio_data_v2 (db w))
    /\ element_key row = (u, ty, id) /\ is_active row = Some true
    /\ row_value row = v.
Proof.
  intros Hget Hv. pose proof (getElement_rows ty id w) as Hrows.
  destruct (session w) as [u|]; [|congruence].
  assert (Hex : exists rows,
             (forall r, In r rows <->
                In r (portfolio_data_v2 (db w)) /\ element_key r = (u, ty, id)
                /\ is_active r = Some true)
             /\ fst (getElement ty id w) =
                Returned (match rows with item :: _ => row_value item | [] => JNull end)).
  { destruct (faults w) as [|[m|] fs]; [exact Hrows|congruence|exact Hrows]. }
  destruct Hex as (rows & Hin & Heq). rewrite Heq in Hget.
  destruct rows as [|item rest]; [congruence|].
  injection Hget as <-. exists u, item.
  destruct (proj1 (Hin item) (or_introl eq_refl)) as (H1 & H2 & H3). auto.
Qed.

(** When no active row of the signed-in user holds the element, the result
    is [null]. *)
Lemma getElement_null ty id w :
  (forall u r, session w = Some u -> In r (portfolio_data_v2 (db w)) ->
               element_key r = (u, ty, id) -> is_active r <> Some true) ->
  fst (getElement ty id w) = Returned JNull.
Proof.
  intros Hnone. destruct (getElement_returns ty id w) as [v Hv].
  assert (Hdec : v = JNull \/ v <> JNull)
    by (destruct v; [now left|right; discriminate ..]).
  destruct Hdec as [->|Hne]; [exact Hv|].
  destruct (getElement_value ty id w v Hv Hne) as (u & row & Hs & Hin & Hk & Ha & _).
  exfalso. exact (Hnone u row Hs Hin Hk Ha).
Qed.

(** When every active row of the element is [row], the result is the value
    of [row]. *)
Lemma getElement_found ty id w u row :
  session w = Some u -> next_request_arrives w ->
  In row (portfolio_data_v2 (db w)) ->
  element_key row = (u, ty, id) -> is_active row = Some true ->
  (forall r, In r (portfolio_data_v2 (db w)) -> element_key r = (u, ty, id) ->
             is_active r = Some true -> r = row) ->
  fst (getElement ty id w) = Returned (row_value row).
Proof.
  intros Hs Harr Hin Hk Ha Hall. pose proof (getElement_rows ty id w) as Hrows.
  rewrite Hs in Hrows. unfold next_request_arrives in Harr.
  assert (Hex : exists rows,
             (forall r, In r rows <->
                In r (portfolio_data_v2 (db w)) /\ element_key r = (u, ty, id)
                /\ is_active r = Some true)
             /\ fst (getElement ty id w) =
                Returned (match rows with item :: _ => row_value item | [] => JNull end)).
  { destruct (faults w) as [|[m|] fs]; [exact Hrows|contradiction|exact Hrows]. }
  destruct Hex as (rows & Hrin & Heq). rewrite Heq.
  destruct rows as [|item rest].
  - exfalso. apply (proj2 (Hrin row)); auto.
  - destruct (proj1 (Hrin item) (or_introl eq_refl)) as (H1 & H2 & H3).
    now rewrite (Hall item H1 H2 H3).
Qed.

End ReadingRows.

(** ** The soft delete *)

Section Deleting.
Context `{Host}.
Import Lifecycle Statements.

Lemma delete_selected_is_element user ty id r :
  delete_selected (Some user) user ty id r = is_element user ty id r.
Proof.
  unfold delete_selected, is_element.
  destruct (bool_decide_reflect (user_id r = user)) as [->|Hne]; cbn [andb].
  - rewrite (bool_decide_eq_true_2 (Some user = Some user))
      by reflexivity.
    reflexivity.
  - now rewrite andb_false_r.
Qed.

(** The two outcomes of [deleteElement]. *)
Lemma deleteElement_cases ty id w :
  let r := fst (deleteElement ty id w) in
  let w' := snd (deleteElement ty id w) in
  session w' = session w /\ now w' = now w /\ emitted w' = emitted w
  /\ ((r = false /\ db w' = db w
       /\ exists m, toasts w' = toasts w ++ [ToastError m])
      \/ (exists user d',
            r = true /\ session w = Some user
            /\ soft_delete (Some user) (now w) user ty id (db w) = Ok (tt, d')
            /\ db w' = d'
            /\ toasts w' =
               toasts w ++ [ToastSuccess (lit "Item deleted successfully!")])).
Proof.
  cbn zeta. unfold deleteElement.
  destruct (session w) as [user|] eqn:Es.
  2:{ cbn. eauto 10. }
  pose proof (getElement_frame ty id w) as (Fs & Fd & Fn & Ft & Fe & _).
  destruct (getElement ty id w) as [[cur|m] w1]; cbn [snd fst] in *.
  2:{ cbn. rewrite Ft, Fs, Fn, Fd, Fe, Es. eauto 10. }
  assert (Hw2 : forall w2,
            session w2 = session w1 -> db w2 = db w1 -> now w2 = now w1
            -> toasts w2 = toasts w1 -> emitted w2 = emitted w1 ->
            let out :=
              (let '(fault, w3) := request w2 in
               match fault with
               | Some m => delete_failed m w3
               | None =>
                   match soft_delete (session w3) (now w3) user ty id (db w3) with
                   | Ok (_, d') =>
                       (true,
                        add_toast (ToastSuccess (lit "Item deleted successfully!"))
                          (set_db d' w3))
                   | Raise m => delete_failed m w3
                   end
               end) in
            session (snd out) = Some user /\ now (snd out) = now w
            /\ emitted (snd out) = emitted w
            /\ ((fst out = false /\ db (snd out) = db w
                 /\ exists m, toasts (snd out) = toasts w ++ [ToastError m])
                \/ (exists user0 d',
                      fst out = true /\ Some user = Some user0
                      /\ soft_delete (Some user0) (now w) user0 ty id (db w)
                         = Ok (tt, d')
                      /\ db (snd out) = d'
                      /\ toasts (snd out) =
                         toasts w ++
                           [ToastSuccess (lit "Item deleted successfully!")]))).
  { intros w2 Hs Hd Hn Ht He. unfold request. cbn zeta.
    destruct (faults w2) as [|[m|] fs]; cbn [session now db].
    2:{ cbn. rewrite Hs, Hd, Hn, Ht, He, Fs, Fd, Fn, Ft, Fe. eauto 10. }
    all: rewrite Hs, Hd, Hn, Fs, Fd, Fn, Es.
    all: destruct (soft_delete _ _ _ _ _ _) as [[[] d']|m] eqn:Ed; cbn;
      rewrite ?Hs, ?Hd, ?Hn, ?Ht, ?He, ?Fs, ?Fd, ?Fn, ?Ft, ?Fe; eauto 12.
    all: split; [reflexivity|]; split; [reflexivity|]; split; [reflexivity|].
    all: right; exists user, d'; auto. }
  destruct (truthy cur).
  - apply Hw2; reflexivity.
  - apply Hw2; reflexivity.
Qed.

(** After a soft delete, no row of the element is active; the other rows
    are as before. *)
Lemma soft_delete_ok user now ty eid d d' :
  soft_delete (Some user) now user ty eid d = Ok (tt, d') ->
  (forall r, In r (portfolio_data_v2 d') -> element_key r = (user, ty, eid) ->
             is_active r = Some false)
  /\ (forall r, element_key r <> (user, ty, eid) ->
        (In r (portfolio_data_v2 d') <-> In r (portfolio_data_v2 d)))
  /\ List.length (portfolio_data_v2 d') = List.length (portfolio_data_v2 d)
  /\ map id (portfolio_data_v2 d') = map id (portfolio_data_v2 d)
  /\ map element_key (portfolio_data_v2 d') = map element_key (portfolio_data_v2 d)
  /\ portfolio_data_backup d' =
     portfolio_data_backup d ++
       map (pre_update_backup now)
           (List.filter (is_element user ty eid) (portfolio_data_v2 d))
  /\ form_shares d' = form_shares d.
Proof.
  unfold soft_delete, mbind, result_bind.
  destruct (deactivate_rows _ _ _ _ _) as [[rows' backups']|] eqn:Ed; [|discriminate].
  intros [= <-]. cbn [portfolio_data_v2 portfolio_data_backup form_shares].
  apply deactivate_rows_ok in Ed as [Hrows ->].
  rewrite (filter_ext _ _ (delete_selected_is_element user ty eid)).
  assert (Hrows' : Forall2 (fun r r' =>
            if is_element user ty eid r
            then element_key r' = element_key r /\ id r' = id r
                 /\ is_active r' = Some false
            else r' = r) (portfolio_data_v2 d) rows').
  { eapply Forall2_impl; [exact Hrows|]. intros r r'. cbn beta.
    rewrite delete_selected_is_element.
    destruct (is_element user ty eid r); tauto. }
  clear Hrows.
  repeat split; try reflexivity.
  - intros r Hin Hkey.
    induction Hrows' as [|r0 r0' rows rs Hr _ IH]; [contradiction|].
    destruct Hin as [<-|Hin]; [|exact (IH Hin)].
    destruct (is_element user ty eid r0) eqn:E; [apply Hr|].
    subst r0'. apply is_element_true in Hkey. congruence.
  - induction Hrows' as [|r0 r0' rows rs Hr _ IH]; [contradiction|].
    intros [<-|Hin]; [|right; exact (IH Hin)].
    left. destruct (is_element user ty eid r0) eqn:E; [|congruence].
    exfalso. apply is_element_true in E. destruct Hr as (Hk & _). congruence.
  - induction Hrows' as [|r0 r0' rows rs Hr _ IH]; [contradiction|].
    intros [<-|Hin]; [|right; exact (IH Hin)].
    left. destruct (is_element user ty eid r0) eqn:E; [|congruence].
    exfalso. apply is_element_true in E. congruence.
  - induction Hrows' as [|r0 r0' rows rs Hr _ IH]; [reflexivity|].
    cbn [List.length]. now rewrite IH.
  - induction Hrows' as [|r0 r0' rows rs Hr _ IH]; [reflexivity|].
    cbn [map]. rewrite IH. f_equal.
    destruct (is_element user ty eid r0); [apply Hr|congruence].
  - induction Hrows' as [|r0 r0' rows rs Hr _ IH]; [reflexivity|].
    cbn [map]. rewrite IH. f_equal.
    destruct (is_element user ty eid r0); [apply Hr|congruence].
Qed.

(** A statement that selects no row changes nothing. *)
Lemma deactivate_rows_none auth now sel rows backups :
  Forall (fun r => sel r = false) rows ->
  deactivate_rows auth now sel rows backups = Ok (rows, backups).
Proof.
  induction 1 as [|r rows Hr _ IH]; [reflexivity|].
  cbn [deactivate_rows]. rewrite Hr. unfold mbind, result_bind.
  now rewrite IH.
Qed.

End Deleting.

(** ** Saving: events, reading back, other elements *)

Section Sent.
Context `{Host}.

(** The text that [saveElement] sends when validation is on. *)
Lemma sanitized_or_text s :
  sanitized_or (validation_for (JStr s)) (JStr s)
  = JStr (match sanitize s with [] => s | clean => clean end).
Proof.
  unfold sanitized_or, validation_for, validateText.
  destruct s as [|c s]; [reflexivity|].
  cbn [sanitizedValue fmap option_fmap option_map].
  destruct (sanitize (c :: s)); reflexivity.
Qed.

Lemma bulkSave_db updates w :
  db (snd (bulkSave updates w)) = db w
  \/ exists c d',
       bulk_update_portfolio_data (session w) (now w) (bulkData updates w) (db w)
       = Ok (c, d')
       /\ db (snd (bulkSave updates w)) = d'.
Proof.
  unfold bulkSave. destruct (session w) as [u|]; [|now left].
  unfold rpc, send. cbn zeta.
  destruct (faults w) as [|[m|] fs]; cbn [db]; [|now left|].
  all: destruct (bulk_update_portfolio_data _ _ _ _) as [[c d']|m] eqn:Eb;
    [right; exists c, d'; split; [reflexivity|reflexivity]|now left].
Qed.

(** A filter that rejects the rows of the element sees the same rows before
    and after an upsert of that element. *)
Lemma filter_after_upsert auth now ty eid v j m d i d' u (keep : portfolio_row -> bool) :
  upsert_portfolio_data auth now ty eid v j m d = Ok (i, d') ->
  auth = Some u ->
  (forall r, element_key r = (u, ty, eid) -> keep r = false) ->
  List.filter keep (portfolio_data_v2 d') = List.filter keep (portfolio_data_v2 d).
Proof.
  intros Hu -> Hkeep.
  apply upsert_portfolio_data_cases in Hu
    as (u' & [= <-] & _ & _ & [(row & _ & Hrows & _ & Hkey & _)
                              |(OLD & NEW & _ & Hrows & _ & Hkey & _)]);
    rewrite Hrows.
  - rewrite List.filter_app. cbn [List.filter]. rewrite (Hkeep row Hkey).
    apply app_nil_r.
  - clear Hrows. induction (portfolio_data_v2 d) as [|r rows IH]; [reflexivity|].
    cbn [map List.filter]. rewrite IH.
    destruct (is_element u ty eid r) eqn:E; [|reflexivity].
    apply is_element_true in E. now rewrite (Hkeep NEW Hkey), (Hkeep r E).
Qed.

(** What [getElement] returns depends on the table only through the rows
    that [get_portfolio_data] selects. *)
Lemma getElement_same_rows ty id w d' :
  (forall u, session w = Some u ->
     List.filter (fun pd =>
                    bool_decide (user_id pd = u)
                    && bool_decide (is_active pd = Some true)
                    && matches_filter (Some ty) (element_type pd)
                    && matches_filter (Some id) (element_id pd))
                 (portfolio_data_v2 d')
     = List.filter (fun pd =>
                      bool_decide (user_id pd = u)
                      && bool_decide (is_active pd = Some true)
                      && matches_filter (Some ty) (element_type pd)
                      && matches_filter (Some id) (element_id pd))
                   (portfolio_data_v2 (db w))) ->
  fst (getElement ty id (set_db d' w)) = fst (getElement ty id w).
Proof.
  intros Hrows. unfold getElement, getElement_try, rpc, send. cbn zeta.
  cbn [set_db faults session db].
  destruct (session w) as [u|] eqn:Es.
  - specialize (Hrows u eq_refl).
    destruct (faults w) as [|[m|] fs]; cbn [db]; [|reflexivity|].
    all: unfold get_portfolio_data, mbind, result_bind; rewrite Hrows.
    all: destruct (order_by_updated_at_desc _); reflexivity.
  - destruct (faults w) as [|[m|] fs]; reflexivity.
Qed.

End Sent.

(** ** Calls that are refused *)

Section Refusals.
Context `{Host}.

Lemma working_connection_tail (fs : list (option jsstring)) :
  Forall (fun outcome => outcome = None) fs ->
  match fs with Some m :: _ => False | _ => True end
  /\ Forall (fun outcome => outcome = None) (tail fs).
Proof.
  intros Hall. destruct Hall as [|o fs Ho Hall]; [split; [exact I|constructor]|].
  subst o. split; [exact I|exact Hall].
Qed.

(** With a working connection, the write half of [saveElement] fails only
    when the upsert function raises. *)
Lemma save_write_refused ty id value auto_save notify user w :
  Forall (fun outcome => outcome = None) (faults w) ->
  success (fst (save_write ty id value auto_save notify user w)) = false ->
  exists md message,
    upsert_portfolio_data (session w) (now w) ty id
      (match value with JStr s => Some s | _ => None end)
      (match typeof value with
       | TObject => match value with JNull => None | _ => Some value end
       | _ => None
       end) md (db w) = Raise message.
Proof.
  intros Hworks. unfold save_write.
  pose proof (getElement_frame ty id w) as (Fs & Fd & Fn & _ & _ & Ff & _).
  destruct (getElement_returns ty id w) as [cur Hcur].
  destruct (getElement ty id w) as [[v|m] w1]; cbn [fst snd] in *; [|discriminate].
  destruct (working_connection_tail _ Hworks) as [_ Hworks1].
  rewrite <- Ff in Hworks1.
  destruct (working_connection_tail _ Hworks1) as [Hnext _].
  unfold rpc, send. cbn zeta.
  destruct (faults w1) as [|[m|] fs]; [|contradiction|];
    cbn [fst snd db session now emitted];
    (destruct (upsert_portfolio_data _ _ _ _ _ _ _ _) as [[i d']|m] eqn:Eu;
     [destruct (notify && negb auto_save); cbn; discriminate|]);
    intros _; rewrite Fs, Fn, Fd in Eu; eauto.
Qed.

(** With a working connection, [deleteElement] fails only without a session
    or when the statement raises. *)
Lemma deleteElement_refused ty id w :
  Forall (fun outcome => outcome = None) (faults w) ->
  fst (Lifecycle.deleteElement ty id w) = false ->
  session w = None
  \/ exists user message,
       session w = Some user
       /\ Statements.soft_delete (Some user) (now w) user ty id (db w)
          = Raise message.
Proof.
  intros Hworks. unfold Lifecycle.deleteElement.
  destruct (session w) as [user|] eqn:Es; [|now left].
  intros Hfail. right. exists user.
  cut (exists message,
         Statements.soft_delete (Some user) (now w) user ty id (db w)
         = Raise message).
  { intros [message Hm]. exists message. split; [reflexivity|exact Hm]. }
  pose proof (getElement_frame ty id w) as (Fs & Fd & Fn & _ & _ & Ff & _).
  destruct (getElement_returns ty id w) as [cur Hcur].
  destruct (getElement ty id w) as [[v|m] w1]; cbn [fst snd] in *; [|discriminate].
  destruct (working_connection_tail _ Hworks) as [_ Hworks1].
  rewrite <- Ff in Hworks1.
  assert (Hw2 : forall w2,
            session w2 = session w1 -> db w2 = db w1 -> now w2 = now w1 ->
            Forall (fun outcome => outcome = None) (faults w2) ->
            fst (let '(fault, w3) := Lifecycle.request w2 in
                 match fault with
                 | Some m => Lifecycle.delete_failed m w3
                 | None =>
                     match Statements.soft_delete (session w3) (now w3) user
                             ty id (db w3) with
                     | Ok (_, d') =>
                         (true,
                          add_toast (ToastSuccess (lit "Item deleted successfully!"))
                            (set_db d' w3))
                     | Raise m => Lifecycle.delete_failed m w3
                     end
                 end) = false ->
            exists message,
              Statements.soft_delete (Some user) (now w) user ty id (db w)
              = Raise message).
  { intros w2 Hs Hd Hn Hworks2.
    destruct (working_connection_tail _ Hworks2) as [Hnext _].
    unfold Lifecycle.request. cbn zeta.
    destruct (faults w2) as [|[m|] fs]; [|contradiction|];
      cbn [session now db]; rewrite Hs, Hd, Hn, Fs, Fd, Fn, Es;
      (destruct (Statements.soft_delete _ _ _ _ _ _) as [[[] d']|m];
       [cbn; discriminate|eauto]). }
  destruct (truthy v).
  - apply Hw2 in Hfail; auto.
    unfold Lifecycle.insert_deletion_backup, Lifecycle.request. cbn [snd faults].
    now apply working_connection_tail.
  - apply Hw2 in Hfail; auto.
Qed.

End Refusals.

(** X4: when no request is lost on the way, a [saveElement] call reports
    failure for one of three reasons only: there is no session, validation is
    on and rejects the value, or the database function
    [upsert_portfolio_data] raises for what was sent (which undoes whatever
    it did).  Such a call has changed nothing in the database and has
    emitted no change event; it adds one error toast, and none at all when
    [showNotifications] is off, as in the flush of [autoSave]. *)
Theorem saveElement_failure_changes_nothing `{Host}
    (elementType elementId : jsstring) (value : json) (options : SaveOptions)
    (w : world) :
  Forall (fun outcome => outcome = None) (faults w) ->
  success (fst (saveElement elementType elementId value options w)) = false ->
  let w' := snd (saveElement elementType elementId value options w) in
  let sent := if default true (validateData options)
              then sanitized_or (validation_for value) value else value in
  (session w = None
   \/ (default true (validateData options) = true
       /\ isValid (validation_for value) = false)
   \/ exists md message,
        upsert_portfolio_data (session w) (now w) elementType elementId
          (match sent with JStr s => Some s | _ => None end)
          (match typeof sent with
           | TObject => match sent with JNull => None | _ => Some sent end
           | _ => None
           end) md (db w) = Raise message)
  /\ db w' = db w
  /\ emitted w' = emitted w
  /\ exists message,
       toasts w' = if default true (showNotifications options)
                   then toasts w ++ [ToastError message] else toasts w.
Proof.
  intros Hworks Hfail w' sent. split.
  - revert Hfail. subst sent. unfold saveElement.
    destruct (session w) as [user|] eqn:Es; [|now left].
    destruct (default true (validateData options)).
    + destruct (isValid (validation_for value)); cbn [negb]; [|now right; left].
      intros Hfail. right. right. rewrite <- Es.
      exact (save_write_refused _ _ _ _ _ _ _ Hworks Hfail).
    + intros Hfail. right. right. rewrite <- Es.
      exact (save_write_refused _ _ _ _ _ _ _ Hworks Hfail).
  - destruct (saveElement_cases elementType elementId value options w)
      as (_ & _ & [(_ & Hd & He & Ht)|(user & cur & i & d' & md & Hok & _)]).
    + auto.
    + congruence.
Qed.

(** X5: a successful [saveElement] emits exactly one change event: for the
    signed-in user and the element, with [oldValue] the value [getElement]
    returned before the write, [newValue] the value sent to the database and
    the clock reading as time stamp.  It only succeeds for one of the five
    element types of the table.  With validation on, the value sent for a
    text is its sanitized form, unless that form is the empty string: then
    the text is sent as it was given. *)
Theorem saveElement_success_emits_one_event `{Host}
    (elementType elementId : jsstring) (value : json) (options : SaveOptions)
    (w : world) :
  success (fst (saveElement elementType elementId value options w)) = true ->
  let w' := snd (saveElement elementType elementId value options w) in
  let sent := if default true (validateData options)
              then sanitized_or (validation_for value) value else value in
  exists user current,
    session w = Some user
    /\ elementType ∈ allowed_element_types
    /\ fst (getElement elementType elementId w) = Returned current
    /\ emitted w' = emitted w ++
         [ {| ev_elementType := elementType; ev_elementId := elementId;
              oldValue := current; newValue := sent;
              timestamp := now w; userId := user |} ]
    /\ (forall s, value = JStr s -> default true (validateData options) = true ->
          sent = JStr (match sanitize s with [] => s | clean => clean end)).
Proof.
  intros Hok w' sent.
  destruct (saveElement_cases elementType elementId value options w)
    as (_ & _ & [(Hfail & _)|(user & cur & i & d' & md & _ & Hs & Hcur & Hu & _ & _ & He)]).
  - congruence.
  - exists user, cur. split; [exact Hs|].
    apply upsert_portfolio_data_cases in Hu as (_ & _ & Hty & _).
    split; [exact Hty|]. split; [exact Hcur|]. split; [exact He|].
    intros s -> Hv. unfold sent. rewrite Hv. apply sanitized_or_text.
Qed.

(** X6: reading back a successful save.  When the element is not soft-deleted
    and the request arrives, [getElement] afterwards returns: for an object
    or array exactly the value sent (JSON payloads are not sanitized); for a
    text the value sent as rewritten by the validation trigger (once when
    the element is new, twice when it existed); and [null] for a number, a
    boolean or [null], which are stored as a row without value. *)
Theorem saveElement_then_getElement `{Host}
    (elementType elementId : jsstring) (value : json) (options : SaveOptions)
    (w later : world) :
  success (fst (saveElement elementType elementId value options w)) = true ->
  (forall u r, session w = Some u -> In r (portfolio_data_v2 (db w)) ->
               element_key r = (u, elementType, elementId) ->
               is_active r = Some true) ->
  db later = db (snd (saveElement elementType elementId value options w)) ->
  session later = session w ->
  next_request_arrives later ->
  let sent := if default true (validateData options)
              then sanitized_or (validation_for value) value else value in
  exists user,
    session w = Some user
    /\ fst (getElement elementType elementId later) =
       Returned
         match sent with
         | JStr s =>
             JStr (match List.find (is_element user elementType elementId)
                           (portfolio_data_v2 (db w)) with
                   | None => sanitize_text s
                   | Some _ => sanitize_text (sanitize_text s)
                   end)
         | JArr _ | JObj _ => sent
         | _ => JNull
         end.
Proof.
  intros Hok Hactive Hdb Hsession Harrives sent.
  destruct (saveElement_cases elementType elementId value options w)
    as (_ & _ & [(Hfail & _)|(user & cur & i & d' & md & _ & Hs & _ & Hu & Hd & _)]);
    [congruence|].
  fold sent in Hu. exists user. split; [exact Hs|].
  rewrite Hd in Hdb. rewrite Hs in Hsession.
  apply upsert_portfolio_data_cases in Hu
    as (u & [= <-] & _ & _ & [(row & Hf & Hrows & _ & Hkey & _ & _ & Hj & Hv & _ & Ha & _)
                             |(OLD & NEW & Hf & Hrows & _ & Hkey & _ & _ & Hj & Hv & _ & Ha & _)]).
  - assert (Hget : fst (getElement elementType elementId later)
                   = Returned (row_value row)).
    { apply (getElement_found _ _ _ user); auto.
      - rewrite Hdb, Hrows. apply in_or_app. right. now left.
      - intros r Hin Hk _. rewrite Hdb, Hrows in Hin.
        apply in_app_or in Hin as [Hin|[<-|[]]]; [|reflexivity].
        apply (find_none _ _ Hf) in Hin.
        apply is_element_true in Hk. congruence. }
    rewrite Hget, Hf. unfold row_value. rewrite Hj, Hv.
    destruct sent; reflexivity.
  - pose proof Hf as Hf'. apply find_some in Hf' as [Hin Hold].
    apply is_element_true in Hold.
    assert (Hget : fst (getElement elementType elementId later)
                   = Returned (row_value NEW)).
    { apply (getElement_found _ _ _ user); auto.
      - rewrite Hdb, Hrows. apply in_map_iff. exists OLD.
        split; [|exact Hin].
        apply is_element_true in Hold. now rewrite Hold.
      - rewrite Ha. now apply (Hactive user OLD).
      - intros r Hr Hk _. rewrite Hdb, Hrows in Hr.
        apply in_map_iff in Hr as (r0 & Hr0 & _).
        destruct (is_element user elementType elementId r0) eqn:E; [congruence|].
        subst r0. apply is_element_true in Hk. congruence. }
    rewrite Hget, Hf. unfold row_value. rewrite Hj, Hv.
    destruct sent; reflexivity.
Qed.

(** X7: [saveElement] touches one element only.  Whatever its outcome, the
    share links are unchanged, the table gains at most one row and loses
    none, every row of another user or another element is in the table
    afterwards exactly when it was before, and [getElement] returns for
    every other element what it returned before. *)
Theorem saveElement_touches_one_element `{Host}
    (elementType elementId : jsstring) (value : json) (options : SaveOptions)
    (w : world) :
  let w' := snd (saveElement elementType elementId value options w) in
  form_shares (db w') = form_shares (db w)
  /\ (List.length (portfolio_data_v2 (db w))
      <= List.length (portfolio_data_v2 (db w'))
      <= S (List.length (portfolio_data_v2 (db w))))%nat
  /\ (forall r,
        (forall user, session w = Some user ->
                      element_key r <> (user, elementType, elementId)) ->
        (In r (portfolio_data_v2 (db w')) <-> In r (portfolio_data_v2 (db w))))
  /\ (forall otherType otherId,
        (otherType, otherId) <> (elementType, elementId) ->
        fst (getElement otherType otherId (set_db (db w') w))
        = fst (getElement otherType otherId w)).
Proof.
  intros w'.
  assert (Hread : forall otherType otherId,
            (otherType, otherId) <> (elementType, elementId) ->
            fst (getElement otherType otherId (set_db (db w') w))
            = fst (getElement otherType otherId w)).
  { intros ty' id' Hother. apply getElement_same_rows. intros u Hu.
    destruct (saveElement_cases elementType elementId value options w)
      as (_ & _ & [(_ & Hd & _)|(user & cur & i & d' & md & _ & Hs & _ & Hup & Hd & _)]);
      fold w' in Hd; rewrite Hd; [reflexivity|].
    rewrite Hs in Hu. injection Hu as <-.
    apply (filter_after_upsert _ _ _ _ _ _ _ _ _ _ user _ Hup eq_refl).
    intros r [= Hru Hrt Hri]. unfold matches_filter.
    destruct (bool_decide_reflect (element_type r = ty')) as [Et|_];
      [|now rewrite andb_false_r].
    destruct (bool_decide_reflect (element_id r = id')) as [Ei|_];
      [|now rewrite andb_false_r].
    exfalso. apply Hother. congruence. }
  destruct (saveElement_cases elementType elementId value options w)
    as (_ & _ & [(_ & Hd & _)|(user & cur & i & d' & md & _ & Hs & _ & Hu & Hd & _)]).
  - fold w' in Hd. rewrite Hd in *. split; [reflexivity|]. split; [lia|].
    split; [tauto|exact Hread].
  - fold w' in Hd. revert Hread. rewrite Hd. intros Hread.
    apply upsert_portfolio_data_cases in Hu
      as (u & [= <-] & _ & Hshares & [(row & _ & Hrows & _ & Hkey & _)
                                     |(OLD & NEW & _ & Hrows & _ & Hkey & _)]);
      rewrite Hrows; (split; [exact Hshares|]).
    + split; [rewrite length_app; cbn; lia|].
      split; [|exact Hread].
      intros r Hr. specialize (Hr user Hs). split.
      * intros Hin. apply in_app_or in Hin as [Hin|[<-|[]]]; [exact Hin|congruence].
      * intros Hin. apply in_or_app. now left.
    + split; [rewrite length_map; lia|].
      split; [|exact Hread].
      intros r Hr. specialize (Hr user Hs). split.
      * intros Hin. apply in_map_iff in Hin as (r0 & Hr0 & Hin).
        destruct (is_element user elementType elementId r0); congruence.
      * intros Hin. apply in_map_iff. exists r. split; [|exact Hin].
        destruct (is_element user elementType elementId r) eqn:E; [|reflexivity].
        apply is_element_true in E. congruence.
Qed.

(** X8: [saveElement], [bulkSave] and [deleteElement] keep the constraints
    of [portfolio_data_v2]: if no two rows share (user_id, element_type,
    element_id) and every row has one of the five element types, the same
    holds after the call, whatever its arguments and outcome. *)
Theorem service_keeps_table_constraints `{Host} (w : world) :
  consistent (db w) ->
  (forall elementType elementId value options,
     consistent (db (snd (saveElement elementType elementId value options w))))
  /\ (forall updates, consistent (db (snd (bulkSave updates w))))
  /\ (forall elementType elementId,
        consistent (db (snd (Lifecycle.deleteElement elementType elementId w)))).
Proof.
  intros Hc. split; [|split].
  - intros ty id value options.
    destruct (saveElement_cases ty id value options w)
      as (_ & _ & [(_ & Hd & _)|(user & cur & i & d' & md & _ & _ & _ & Hu & Hd & _)]);
      rewrite Hd; [exact Hc|].
    eapply upsert_portfolio_data_consistent; eauto.
  - intros updates.
    destruct (bulkSave_db updates w) as [Hd|(c & d' & Hb & Hd)];
      rewrite Hd; [exact Hc|].
    unfold bulk_update_portfolio_data in Hb.
    destruct (session w); [|discriminate].
    eapply bulk_update_loop_consistent; eauto.
  - intros ty id.
    destruct (deleteElement_cases ty id w)
      as (_ & _ & _ & [(_ & Hd & _)|(user & d' & _ & _ & Hsd & Hd & _)]);
      rewrite Hd; [exact Hc|].
    eapply soft_delete_consistent; eauto.
Qed.

(** X9: what a successful [upsert_portfolio_data] does to versions and
    backups.  For a new element it adds one row with a fresh id, version 1
    and [is_active] true, and writes no backup.  For an existing element the
    row keeps its id and its [is_active] flag (a soft-deleted row stays
    soft-deleted), its version goes up by one (from 0 when it was NULL), and
    exactly one backup row holding the previous value is added. *)
Theorem upsert_portfolio_data_versions_and_backs_up `{Host}
    (auth_uid : option uuid) (now : timestamptz)
    (p_element_type p_element_id : jsstring) (p_element_value : option jsstring)
    (p_json_data p_metadata : option json) (d d' : database) (result_id : uuid) :
  upsert_portfolio_data auth_uid now p_element_type p_element_id p_element_value
    p_json_data p_metadata d = Ok (result_id, d') ->
  exists user,
    auth_uid = Some user
    /\ match List.find (is_element user p_element_type p_element_id)
               (portfolio_data_v2 d) with
       | None =>
           exists row,
             portfolio_data_v2 d' = portfolio_data_v2 d ++ [row]
             /\ id row = result_id
             /\ Forall (fun r => id r <> result_id) (portfolio_data_v2 d)
             /\ version row = Some 1
             /\ is_active row = Some true
             /\ portfolio_data_backup d' = portfolio_data_backup d
       | Some OLD =>
           exists NEW,
             portfolio_data_v2 d' =
               map (fun r => if is_element user p_element_type p_element_id r
                             then NEW else r) (portfolio_data_v2 d)
             /\ id NEW = id OLD /\ id OLD = result_id
             /\ version NEW = Some (default 0 (version OLD) + 1)
             /\ is_active NEW = is_active OLD
             /\ portfolio_data_backup d' =
                portfolio_data_backup d ++ [pre_update_backup now OLD]
       end.
Proof.
  intros Hu.
  apply upsert_portfolio_data_cases in Hu
    as (u & -> & _ & _ & [(row & Hf & Hrows & Hb & _ & Hid & Hfresh & _ & _ & Hver & Ha & _)
                         |(OLD & NEW & Hf & Hrows & Hb & _ & Hid & Hid' & _ & _ & Hver & Ha & _)]).
  - exists u. split; [reflexivity|]. rewrite Hf. exists row. auto 10.
  - exists u. split; [reflexivity|]. rewrite Hf. exists NEW.
    repeat split; auto. congruence.
Qed.

(** X10: a value other than [null] that [getElement] returns is the value
    of a row of the signed-in user, for the element type and id asked for,
    that is active: rows of other users and soft-deleted rows are never
    read. *)
Theorem getElement_reads_own_active_rows_only
    (elementType elementId : jsstring) (w : world) (value : json) :
  fst (getElement elementType elementId w) = Returned value ->
  value <> JNull ->
  exists user row,
    session w = Some user
    /\ In row (portfolio_data_v2 (db w))
    /\ user_id row = user
    /\ element_type row = elementType /\ element_id row = elementId
    /\ is_active row = Some true
    /\ row_value row = value.
Proof.
  intros Hget Hv.
  destruct (getElement_value _ _ _ _ Hget Hv) as (u & row & Hs & Hin & Hk & Ha & Hval).
  injection Hk as Hu Hty Hid. exists u, row. auto 10.
Qed.

(** ** Deleting *)

(** X11: a successful [deleteElement] is a soft delete: afterwards
    [getElement] returns [null] for the element, no row has left the table
    (the ids are the same, in the same order), every row of the element is
    inactive, the rows of other elements are untouched, and the backup table
    has gained one [pre_update_backup] row per row of the element, written
    by the trigger. *)
Theorem deleteElement_soft_deletes `{Host}
    (elementType elementId : jsstring) (w later : world) :
  fst (Lifecycle.deleteElement elementType elementId w) = true ->
  db later = db (snd (Lifecycle.deleteElement elementType elementId w)) ->
  session later = session w ->
  exists user,
    session w = Some user
    /\ fst (getElement elementType elementId later) = Returned JNull
    /\ map id (portfolio_data_v2 (db later)) = map id (portfolio_data_v2 (db w))
    /\ (forall r, In r (portfolio_data_v2 (db later)) ->
                  element_key r = (user, elementType, elementId) ->
                  is_active r = Some false)
    /\ (forall r, element_key r <> (user, elementType, elementId) ->
          (In r (portfolio_data_v2 (db later)) <-> In r (portfolio_data_v2 (db w))))
    /\ portfolio_data_backup (db later) =
       portfolio_data_backup (db w) ++
         map (pre_update_backup (now w))
             (List.filter (is_element user elementType elementId)
                          (portfolio_data_v2 (db w))).
Proof.
  intros Hok Hdb Hsession.
  destruct (deleteElement_cases elementType elementId w)
    as (_ & _ & _ & [(Hfail & _)|(user & d' & _ & Hs & Hsd & Hd & _)]);
    [congruence|].
  rewrite Hd in Hdb. rewrite Hs in Hsession.
  apply soft_delete_ok in Hsd as (Hoff & Hothers & _ & Hids & _ & Hbackup & _).
  exists user. split; [exact Hs|]. rewrite Hdb.
  split; [|auto].
  apply getElement_null. intros u r Hu Hin Hk.
  rewrite Hsession in Hu. injection Hu as <-. rewrite Hdb in Hin.
  rewrite (Hoff r Hin Hk). discriminate.
Qed.

(** X12: deleting an element that does not exist reports success: with a
    session and a working connection, [deleteElement] returns [true] and
    shows the success toast although the database is unchanged. *)
Theorem deleteElement_of_missing_element_reports_success `{Host}
    (elementType elementId : jsstring) (w : world) (user : uuid) :
  session w = Some user ->
  Forall (fun outcome => outcome = None) (faults w) ->
  Forall (fun r => is_element user elementType elementId r = false)
         (portfolio_data_v2 (db w)) ->
  fst (Lifecycle.deleteElement elementType elementId w) = true
  /\ db (snd (Lifecycle.deleteElement elementType elementId w)) = db w
  /\ toasts (snd (Lifecycle.deleteElement elementType elementId w)) =
     toasts w ++ [ToastSuccess (lit "Item deleted successfully!")].
Proof.
  intros Hs Hfaults Hnone.
  assert (Hnull : fst (getElement elementType elementId w) = Returned JNull).
  { apply getElement_null. intros u r Hu Hin Hk.
    rewrite Hs in Hu. injection Hu as <-.
    rewrite Forall_forall in Hnone.
    apply list_elem_of_In, Hnone in Hin.
    apply is_element_true in Hk. congruence. }
  pose proof (getElement_frame elementType elementId w)
    as (Fs & Fd & Fn & Ft & _ & Ff & _).
  unfold Lifecycle.deleteElement. rewrite Hs.
  destruct (getElement elementType elementId w) as [cur w1].
  cbn [fst snd] in *. subst cur. cbn [truthy].
  unfold Lifecycle.request. cbn zeta.
  assert (Hhead : match faults w1 with Some m :: _ => Some m | _ => None end
                  = @None jsstring).
  { rewrite Ff. destruct Hfaults as [|o fs Ho Hfs]; [reflexivity|].
    cbn [tail]. destruct Hfs as [|o' fs' Ho' _]; [reflexivity|now subst o']. }
  rewrite Hhead. cbn [session now db].
  unfold Statements.soft_delete. rewrite Fs, Fd, Hs.
  rewrite deactivate_rows_none.
  - cbn. rewrite Ft. destruct (db w); auto.
  - eapply Forall_impl; [exact Hnone|]. intros r Hr. cbn beta.
    now rewrite delete_selected_is_element.
Qed.

(** X13: an element that existed and was deleted cannot be brought back by
    saving it again: [upsert_portfolio_data] updates the soft-deleted row
    without resetting [is_active], so whatever is saved under the same type
    and id afterwards, and whether or not that save succeeds, [getElement]
    keeps returning [null]. *)
Theorem deleted_element_cannot_be_saved_back `{Host}
    (elementType elementId : jsstring) (value : json) (options : SaveOptions)
    (w later : world) :
  fst (Lifecycle.deleteElement elementType elementId w) = true ->
  (exists user row,
     session w = Some user /\ In row (portfolio_data_v2 (db w))
     /\ element_key row = (user, elementType, elementId)) ->
  let deleted := snd (Lifecycle.deleteElement elementType elementId w) in
  let saved := snd (saveElement elementType elementId value options deleted) in
  db later = db saved ->
  session later = session w ->
  fst (getElement elementType elementId later) = Returned JNull.
Proof.
  intros Hok (user & row & Hs & Hin & Hkey) deleted saved Hdb Hsession.
  destruct (deleteElement_cases elementType elementId w)
    as (Hs1 & _ & _ & [(Hfail & _)|(user' & d1 & _ & Hs' & Hsd & Hd1 & _)]);
    [congruence|].
  fold deleted in Hs1, Hd1.
  rewrite Hs in Hs'. injection Hs' as <-.
  apply soft_delete_ok in Hsd as (Hoff & _ & _ & _ & Hkeys & _).
  assert (Hrow : exists OLD, In OLD (portfolio_data_v2 d1)
                             /\ element_key OLD = (user, elementType, elementId)).
  { assert (Hk : In (user, elementType, elementId)
                   (map element_key (portfolio_data_v2 d1))).
    { rewrite Hkeys. apply in_map_iff. exists row. auto. }
    apply in_map_iff in Hk as (OLD & Hk & HOLD). eauto. }
  destruct Hrow as (OLD & HOLD & HkOLD).
  apply getElement_null. intros u r Hu Hr Hk.
  rewrite Hsession, Hs in Hu. injection Hu as <-. rewrite Hdb in Hr.
  assert (Hoff' : is_active r = Some false); [|rewrite Hoff'; discriminate].
  destruct (saveElement_cases elementType elementId value options deleted)
    as (_ & _ & [(_ & Hd & _)|(user' & cur & i & d' & md & _ & Hs2 & _ & Hu & Hd & _)]);
    fold saved in Hd; rewrite Hd in Hr.
  - rewrite Hd1 in Hr. exact (Hoff r Hr Hk).
  - rewrite Hs1, Hs in Hs2. injection Hs2 as <-. rewrite Hd1 in Hu.
    apply upsert_portfolio_data_cases in Hu
      as (u & [= <-] & _ & _ & [(new & Hf & _)
                               |(OLD' & NEW & Hf & Hrows & _ & _ & _ & _ & _ & _ & _ & Ha & _)]).
    + exfalso. apply (find_none _ _ Hf) in HOLD.
      apply is_element_true in HkOLD. congruence.
    + apply find_some in Hf as [HinOLD' HkOLD'].
      apply is_element_true in HkOLD'.
      rewrite Hrows in Hr. apply in_map_iff in Hr as (r0 & Hr0 & Hin0).
      destruct (is_element user elementType elementId r0) eqn:E.
      * subst r. rewrite Ha. exact (Hoff OLD' HinOLD' HkOLD').
      * subst r0. apply is_element_true in Hk. congruence.
Qed.

(** X14: when no request is lost on the way, a [deleteElement] call returns
    [false] for one of two reasons only: there is no session, or a trigger
    raises for one of the rows, which undoes the whole statement.  Such a
    call has changed nothing in the database, has emitted no change event
    and has shown exactly one error toast. *)
Theorem deleteElement_failure_changes_nothing `{Host}
    (elementType elementId : jsstring) (w : world) :
  Forall (fun outcome => outcome = None) (faults w) ->
  fst (Lifecycle.deleteElement elementType elementId w) = false ->
  let w' := snd (Lifecycle.deleteElement elementType elementId w) in
  (session w = None
   \/ exists user message,
        session w = Some user
        /\ Statements.soft_delete (Some user) (now w) user
             elementType elementId (db w) = Raise message)
  /\ db w' = db w
  /\ emitted w' = emitted w
  /\ exists message, toasts w' = toasts w ++ [ToastError message].
Proof.
  intros Hworks Hfail w'.
  split; [exact (deleteElement_refused _ _ _ Hworks Hfail)|].
  destruct (deleteElement_cases elementType elementId w)
    as (_ & _ & He & [(_ & Hd & Ht)|(user & d' & Hok & _)]).
  - auto.
  - congruence.
Qed.

(** ** Loading everything; forms that are never stored *)

Section Loading.

Lemma foldl_insert_lookup {A V} (f : A -> jsstring) (g : A -> V) (l : list A)
    (m0 : gmap jsstring V) (k : jsstring) (v : V) :
  foldl (fun m x => <[f x := g x]> m) m0 l !! k = Some v ->
  m0 !! k = Some v \/ exists x, In x l /\ f x = k /\ g x = v.
Proof.
  revert m0. induction l as [|x l IH]; intros m0; cbn [foldl]; [auto|].
  intros Hl. apply IH in Hl as [Hl|(y & Hy & Hk & Hv)].
  - destruct (decide (f x = k)) as [<-|Hne].
    + rewrite lookup_insert_eq in Hl. injection Hl as <-.
      right. exists x. split; [now left|auto].
    + rewrite lookup_insert_ne in Hl by exact Hne. now left.
  - right. exists y. split; [now right|auto].
Qed.

Lemma foldl_insert_is_Some {A V} (f : A -> jsstring) (g : A -> V) (l : list A)
    (m0 : gmap jsstring V) (k : jsstring) :
  is_Some (m0 !! k) \/ (exists x, In x l /\ f x = k) ->
  is_Some (foldl (fun m x => <[f x := g x]> m) m0 l !! k).
Proof.
  revert m0. induction l as [|x l IH]; intros m0; cbn [foldl].
  - intros [Hm|(x & [] & _)]. exact Hm.
  - intros [Hm|(y & [<-|Hy] & Hk)]; apply IH.
    + left. destruct (decide (f x = k)) as [<-|Hne].
      * rewrite lookup_insert_eq. eauto.
      * now rewrite lookup_insert_ne.
    + left. rewrite Hk, lookup_insert_eq. eauto.
    + right. eauto.
Qed.

(** The rows [get_portfolio_data] returns when called without arguments. *)
Lemma get_portfolio_data_all u d :
  exists rows,
    get_portfolio_data (Some u) None None d = Ok rows
    /\ forall r, In r rows <->
         In r (portfolio_data_v2 d) /\ user_id r = u /\ is_active r = Some true.
Proof.
  unfold get_portfolio_data. eexists. split; [reflexivity|].
  intros r. rewrite In_order_by, filter_In. unfold matches_filter.
  rewrite !andb_true_iff, !bool_decide_eq_true. tauto.
Qed.

(** [loadAllData] in terms of the rows it is given. *)
Lemma loadAllData_rows w :
  match session w, faults w with
  | Some u, None :: _ | Some u, [] =>
      exists rows,
        (forall r, In r rows <->
           In r (portfolio_data_v2 (db w)) /\ user_id r = u
           /\ is_active r = Some true)
        /\ fst (Lifecycle.loadAllData w) =
           foldl (fun dataMap item =>
                    <[key_of (element_type item) (element_id item) := row_value item]>
                      dataMap) ∅ rows
  | _, _ => fst (Lifecycle.loadAllData w) = ∅
  end.
Proof.
  unfold Lifecycle.loadAllData, rpc, send. cbn zeta.
  destruct (session w) as [u|] eqn:Es.
  - destruct (get_portfolio_data_all u (db w)) as (rows & Hget & Hrows).
    destruct (faults w) as [|[m|] fs]; cbn [db]; [|reflexivity|].
    all: rewrite Hget; cbn [fst]; exists rows; split; [exact Hrows|reflexivity].
  - destruct (faults w) as [|[m|] fs]; reflexivity.
Qed.

End Loading.

(** X15: the map [loadAllData] returns holds only values of active rows of
    the signed-in user, each under the key [type_id] of its row; when the
    request succeeds, every such row has its key in the map; and the map is
    empty when nobody is signed in or the request fails. *)
Theorem loadAllData_holds_own_active_rows (w : world) :
  let dataMap := fst (Lifecycle.loadAllData w) in
  (forall key value,
     dataMap !! key = Some value ->
     exists user row,
       session w = Some user /\ In row (portfolio_data_v2 (db w))
       /\ user_id row = user /\ is_active row = Some true
       /\ key_of (element_type row) (element_id row) = key
       /\ row_value row = value)
  /\ (forall user row,
        session w = Some user -> next_request_arrives w ->
        In row (portfolio_data_v2 (db w)) ->
        user_id row = user -> is_active row = Some true ->
        is_Some (dataMap !! key_of (element_type row) (element_id row)))
  /\ (session w = None \/ ~ next_request_arrives w -> dataMap = ∅).
Proof.
  intros dataMap. subst dataMap.
  pose proof (loadAllData_rows w) as Hload. unfold next_request_arrives.
  destruct (session w) as [u|] eqn:Es.
  - destruct (faults w) as [|[m|] fs] eqn:Ef.
    2:{ rewrite Hload.
        split; [intros key value; rewrite lookup_empty; discriminate|].
        split; [intros user row _ []|reflexivity]. }
    all: destruct Hload as (rows & Hrows & ->).
    all: split; [intros key value Hl;
                 apply foldl_insert_lookup in Hl as [Hl|(row & Hin & Hk & Hv)];
                 [rewrite lookup_empty in Hl; discriminate|];
                 apply Hrows in Hin as (Hin & Hu & Ha);
                 exists u, row; auto 10|].
    all: split; [intros user row [= <-] _ Hin Hu Ha;
                 apply foldl_insert_is_Some; right; exists row;
                 split; [apply Hrows; auto|reflexivity]|].
    all: intros [Hno|Hno]; [discriminate|exfalso; apply Hno; exact I].
  - assert (Hempty : fst (Lifecycle.loadAllData w) = ∅)
      by (destruct (faults w) as [|[m|] fs]; exact Hload).
    rewrite Hempty.
    split; [intros key value; rewrite lookup_empty; discriminate|].
    split; [intros user row [=]|reflexivity].
Qed.

(** X16: [loadAllData] and [getElement] agree on an element whose key is
    unambiguous: when the signed-in user has one active row under the key
    [elementType + "_" + elementId], the row of that element, and the
    request arrives, the map of [loadAllData] holds the value of the row
    under that key and [getElement] returns the same value. *)
Theorem loadAllData_agrees_with_getElement
    (elementType elementId : jsstring) (w : world) (user : uuid) (row : portfolio_row) :
  session w = Some user ->
  next_request_arrives w ->
  In row (portfolio_data_v2 (db w)) ->
  element_key row = (user, elementType, elementId) ->
  is_active row = Some true ->
  (forall r, In r (portfolio_data_v2 (db w)) -> user_id r = user ->
             is_active r = Some true ->
             key_of (element_type r) (element_id r) = key_of elementType elementId ->
             r = row) ->
  fst (Lifecycle.loadAllData w) !! key_of elementType elementId
    = Some (row_value row)
  /\ fst (getElement elementType elementId w) = Returned (row_value row).
Proof.
  intros Hs Harrives Hin Hkey Hactive Honly.
  injection Hkey as Hu Hty Hid.
  split.
  - pose proof (loadAllData_rows w) as Hload. rewrite Hs in Hload.
    unfold next_request_arrives in Harrives.
    assert (Hex : exists rows,
               (forall r, In r rows <->
                  In r (portfolio_data_v2 (db w)) /\ user_id r = user
                  /\ is_active r = Some true)
               /\ fst (Lifecycle.loadAllData w) =
                  foldl (fun dataMap item =>
                           <[key_of (element_type item) (element_id item)
                               := row_value item]> dataMap) ∅ rows).
    { destruct (faults w) as [|[m|] fs]; [exact Hload|contradiction|exact Hload]. }
    destruct Hex as (rows & Hrows & ->).
    destruct (foldl_insert_is_Some
                (fun item => key_of (element_type item) (element_id item))
                row_value rows ∅ (key_of elementType elementId)) as [v Hv].
    { right. exists row. split; [apply Hrows; auto|now rewrite Hty, Hid]. }
    rewrite Hv. f_equal.
    apply foldl_insert_lookup in Hv as [Hv|(r & Hr & Hk & <-)];
      [rewrite lookup_empty in Hv; discriminate|].
    apply Hrows in Hr as (Hr & Hru & Hra).
    now rewrite (Honly r Hr Hru Hra Hk).
  - apply (getElement_found _ _ _ user); auto.
    + unfold element_key. now rewrite Hu, Hty, Hid.
    + intros r Hr [= Hru Hrt Hri] Hra.
      apply Honly; auto. now rewrite Hrt, Hri.
Qed.

Section FormsNeverStored.
Context `{Host}.
Import FormsWrite.

Lemma share_not_allowed : lit "share" ∉ allowed_element_types.
Proof.
  intros Hin. apply (bool_decide_eq_true_2 _) in Hin.
  vm_compute in Hin. discriminate.
Qed.

Lemma form_submission_not_allowed : lit "form_submission" ∉ allowed_element_types.
Proof.
  intros Hin. apply (bool_decide_eq_true_2 _) in Hin.
  vm_compute in Hin. discriminate.
Qed.

(** Without a row of type [share] in the table, no share link is found. *)
Lemma validateShareLink_not_found shareId w :
  checked_types (portfolio_data_v2 (db w)) ->
  fst (validateShareLink shareId w) = Thrown (lit "Share link not found").
Proof.
  intros Hchk. unfold validateShareLink.
  assert (Hnull : fst (getElement (lit "share") shareId w) = Returned JNull).
  { apply getElement_null. intros u r _ Hin Hk _.
    unfold checked_types in Hchk. rewrite Forall_forall in Hchk.
    apply list_elem_of_In, Hchk in Hin.
    injection Hk as _ Hty _. rewrite Hty in Hin.
    exact (share_not_allowed Hin). }
  destruct (getElement (lit "share") shareId w) as [[v|m] w1]; cbn [fst] in *.
  - injection Hnull as ->. reflexivity.
  - discriminate.
Qed.

End FormsNeverStored.

(** ** Share links on a table that keeps its element-type check *)

Section ShareLinksOnTheTable.
Context `{Host}.

Lemma getElement_share_null shareId w :
  checked_types (portfolio_data_v2 (db w)) ->
  fst (getElement (lit "share") shareId w) = Returned JNull.
Proof.
  intros Hchk. apply getElement_null. intros u r _ Hin Hk _.
  unfold checked_types in Hchk. rewrite Forall_forall in Hchk.
  apply list_elem_of_In, Hchk in Hin.
  injection Hk as _ Hty _. rewrite Hty in Hin.
  exact (share_not_allowed Hin).
Qed.

End ShareLinksOnTheTable.


Section ShareLinkOnTheTableExamples.
#[local] Existing Instance ConcreteHost.host.


End ShareLinkOnTheTableExamples.

(** X17: a link made by [createShareLink] is never valid.  When the call
    resolves, it returns [origin/forms?share=share_<formId>_<now>], but the
    [saveElement] call inside it has failed (the table accepts no element of
    type [share]) and its result is ignored: the database is unchanged, an
    error toast is shown, and on a table that satisfies the element-type
    check [validateShareLink] of the new share id fails with
    "Share link not found". *)
Theorem created_share_link_is_not_found `{Host}
    (origin formId : jsstring) (options : FormsWrite.ShareOptions)
    (w : world) (url : jsstring) :
  checked_types (portfolio_data_v2 (db w)) ->
  fst (FormsWrite.createShareLink origin formId options w) = Returned url ->
  let shareId := lit "share_" ++ formId ++ lit "_" ++ lit (pretty (now w)) in
  let w' := snd (FormsWrite.createShareLink origin formId options w) in
  url = origin ++ lit "/forms?share=" ++ shareId
  /\ db w' = db w
  /\ (exists message, toasts w' = toasts w ++ [ToastError message])
  /\ forall later,
       db later = db w' ->
       fst (validateShareLink shareId later) = Thrown (lit "Share link not found").
Proof.
  intros Hchk Hurl shareId w'. subst w'.
  unfold FormsWrite.createShareLink in *.
  destruct (session w) as [user|]; [|discriminate].
  destruct (FormsWrite.iso _) as [expires|m]; [|discriminate].
  fold shareId in Hurl |- *.
  set (shareData := FormsWrite.share_record _ _ _ _ _ _) in *.
  destruct (saveElement_refused_type (lit "share") shareId shareData no_options w
              share_not_allowed) as (Hfail & Hdb & _).
  destruct (saveElement_cases (lit "share") shareId shareData no_options w)
    as (_ & _ & [(_ & _ & _ & Htoast)|(u & cur & i & d' & md & Hok & _)]);
    [|congruence].
  destruct (saveElement (lit "share") shareId shareData no_options w) as [r w1].
  cbn [fst snd] in *. injection Hurl as <-.
  split; [reflexivity|]. split; [exact Hdb|]. split; [exact Htoast|].
  intros later Hlater. apply validateShareLink_not_found.
  now rewrite Hlater, Hdb.
Qed.

(** X18: [submitForm] never stores the submission.  It always resolves to
    the submission object (with the form id and the data given), but the
    [saveElement] call inside it fails for the element type
    [form_submission] and its result is ignored: the database is unchanged,
    no change event is emitted, and an error toast is shown. *)
Theorem submitForm_stores_nothing `{Host}
    (clientIP : option jsstring) (formId : jsstring) (data : json) (w : world) :
  let w' := snd (FormsWrite.submitForm clientIP formId data w) in
  (exists submission,
     fst (FormsWrite.submitForm clientIP formId data w) = Returned submission
     /\ get_prop submission (lit "formId") = Some (JStr formId)
     /\ get_prop submission (lit "submittedData") = Some data)
  /\ db w' = db w
  /\ emitted w' = emitted w
  /\ exists message, toasts w' = toasts w ++ [ToastError message].
Proof.
  intros w'. subst w'. unfold FormsWrite.submitForm.
  set (sid := lit "submission_" ++ lit (pretty (now w))).
  set (submission := FormsWrite.submission_record _ _ _ _ _ _).
  destruct (saveElement_refused_type (lit "form_submission") sid submission
              no_options w form_submission_not_allowed) as (Hfail & Hdb & Hem).
  destruct (saveElement_cases (lit "form_submission") sid submission no_options w)
    as (_ & _ & [(_ & _ & _ & Htoast)|(u & cur & i & d' & md & Hok & _)]);
    [|congruence].
  destruct (saveElement (lit "form_submission") sid submission no_options w)
    as [r w1].
  cbn [fst snd] in *.
  split; [|auto].
  exists submission. split; [reflexivity|].
  split; reflexivity.
Qed.

(** ** Cleaning up expired share links *)

Section Cleanup.
Import Statements.

Lemma expired_share_deactivated now r : expired_share now (deactivate_share now r) = false.
Proof.
  unfold expired_share, deactivate_share. cbn.
  now rewrite andb_false_r.
Qed.

Lemma cleaned_not_expired now shares :
  Forall (fun r => expired_share now r = false)
    (map (fun r => if expired_share now r then deactivate_share now r else r) shares).
Proof.
  apply Forall_forall. intros r' Hin.
  apply list_elem_of_In, in_map_iff in Hin as (r & <- & _).
  destruct (expired_share now r) eqn:E; [apply expired_share_deactivated|exact E].
Qed.

Lemma map_id_when {A} (f : A -> bool) (g : A -> A) (l : list A) :
  Forall (fun x => f x = false) l -> map (fun x => if f x then g x else x) l = l.
Proof.
  induction 1 as [|x l Hx _ IH]; [reflexivity|].
  cbn [map]. now rewrite Hx, IH.
Qed.

(** The rows that are active. *)
Lemma active_after_cleanup now shares :
  (List.length (List.filter (fun r => bool_decide (s_is_active r = Some true))
                  (map (fun r => if expired_share now r
                                 then deactivate_share now r else r) shares))
   + List.length (List.filter (expired_share now) shares)
   = List.length (List.filter (fun r => bool_decide (s_is_active r = Some true))
                    shares))%nat.
Proof.
  induction shares as [|r shares IH]; [reflexivity|].
  cbn [map List.filter].
  destruct (expired_share now r) eqn:E.
  - assert (Ha : bool_decide (s_is_active r = Some true) = true)
      by (unfold expired_share in E; now apply andb_prop in E as [_ E]).
    rewrite Ha. cbn [deactivate_share s_is_active].
    rewrite bool_decide_eq_false_2 by discriminate.
    cbn [List.length]. lia.
  - destruct (bool_decide (s_is_active r = Some true)); cbn [List.length]; lia.
Qed.

Lemma share_selected_after_cleanup p cleaned_at now r :
  cleaned_at <= now ->
  share_selected p now
    (if expired_share cleaned_at r then deactivate_share cleaned_at r else r)
  = share_selected p now r.
Proof.
  intros Hle. destruct (expired_share cleaned_at r) eqn:E; [|reflexivity].
  unfold expired_share in E. apply andb_prop in E as [Ee Ea].
  destruct (expires_at r) as [e|] eqn:Eexp; [|discriminate].
  apply Z.ltb_lt in Ee.
  assert (Hgt : (e >? now) = false) by (rewrite Z.gtb_ltb; apply Z.ltb_ge; lia).
  unfold share_selected, deactivate_share.
  cbn [share_id s_is_active expires_at]. rewrite Eexp, Hgt.
  now rewrite !andb_false_r.
Qed.

Lemma selected_not_expired p cleaned_at now r :
  cleaned_at <= now ->
  share_selected p now r = true -> expired_share cleaned_at r = false.
Proof.
  unfold share_selected, expired_share. intros Hle Hs.
  apply andb_prop in Hs as [_ He].
  destruct (expires_at r) as [e|]; [|reflexivity].
  rewrite Z.gtb_ltb in He. apply Z.ltb_lt in He.
  assert (Hlt : (e <? cleaned_at) = false) by (apply Z.ltb_ge; lia).
  now rewrite Hlt.
Qed.

Lemma find_share_after_cleanup p cleaned_at now shares :
  cleaned_at <= now ->
  List.find (share_selected p now)
    (map (fun r => if expired_share cleaned_at r
                   then deactivate_share cleaned_at r else r) shares)
  = List.find (share_selected p now) shares.
Proof.
  intros Hle. induction shares as [|r shares IH]; [reflexivity|].
  cbn [map List.find]. rewrite share_selected_after_cleanup, IH by exact Hle.
  destruct (share_selected p now r) eqn:Es; [|reflexivity].
  now rewrite (selected_not_expired _ _ _ _ Hle Es).
Qed.

Lemma update_access_after_cleanup p now at_time shares :
  update_access p at_time
    (map (fun r => if expired_share now r then deactivate_share now r else r) shares)
  = match update_access p at_time shares with
    | Ok shares' =>
        Ok (map (fun r => if expired_share now r then deactivate_share now r else r)
                shares')
    | Raise m => Raise m
    end.
Proof.
  induction shares as [|r shares IH]; [reflexivity|].
  cbn [map update_access]. unfold mbind, result_bind. rewrite IH.
  assert (Hid : share_id (if expired_share now r then deactivate_share now r else r)
                = share_id r) by (destruct (expired_share now r); reflexivity).
  rewrite Hid.
  destruct (bool_decide (share_id r = p)).
  - unfold record_access, mbind, result_bind.
    assert (Hc : access_count (if expired_share now r then deactivate_share now r else r)
                 = access_count r) by (destruct (expired_share now r); reflexivity).
    rewrite Hc.
    destruct (access_count r) as [c|].
    + destruct (int4_add c 1) as [c'|]; [|reflexivity].
      destruct (update_access p at_time shares) as [rest|]; [|reflexivity].
      cbn [map]. f_equal. f_equal.
      destruct (expired_share now r) eqn:E; unfold expired_share; cbn;
        unfold expired_share in E; rewrite E; reflexivity.
    + destruct (update_access p at_time shares) as [rest|]; [|reflexivity].
      cbn [map]. f_equal. f_equal.
      destruct (expired_share now r) eqn:E; unfold expired_share; cbn;
        unfold expired_share in E; rewrite E; reflexivity.
  - destruct (update_access p at_time shares) as [rest|]; reflexivity.
Qed.

End Cleanup.

(** X19: when [cleanup_expired_shares] completes, no active link with an
    expiry date in the past is left; no row is removed; the number returned
    is the number of links that went from active to inactive; and a second
    run at the same time returns 0 and changes nothing. *)
Theorem cleanup_expired_shares_deactivates_expired
    (now : timestamptz) (shares shares' : list share_row) (deleted_count : Z) :
  Statements.cleanup_expired_shares now shares = Ok (deleted_count, shares') ->
  Forall (fun r => Statements.expired_share now r = false) shares'
  /\ map share_id shares' = map share_id shares
  /\ deleted_count =
     Z.of_nat (List.length (List.filter
                              (fun r => bool_decide (s_is_active r = Some true))
                              shares))
     - Z.of_nat (List.length (List.filter
                                (fun r => bool_decide (s_is_active r = Some true))
                                shares'))
  /\ Statements.cleanup_expired_shares now shares' = Ok (0, shares').
Proof.
  unfold Statements.cleanup_expired_shares.
  destruct (_ >? int4_max) eqn:Ebig; [discriminate|].
  intros [= <- <-].
  pose proof (cleaned_not_expired now shares) as Hclean.
  split; [exact Hclean|]. split.
  { rewrite map_map. apply map_ext. intros r.
    destruct (Statements.expired_share now r); reflexivity. }
  split.
  { pose proof (active_after_cleanup now shares). lia. }
  rewrite (filter_none _ _ Hclean). cbn [List.length].
  rewrite (map_id_when _ _ _ Hclean). reflexivity.
Qed.

(** X20: [cleanup_expired_shares] never changes what a later
    [validate_share_link] answers: for every share id and every time not
    before the clean-up, the validation (valid or not, form id, permissions,
    password flag) is the same on the cleaned table as on the table before
    the clean-up, and it raises on the one exactly when it raises on the
    other. *)
Theorem cleanup_expired_shares_keeps_valid_links
    (p_share_id : jsstring) (cleaned_at now : timestamptz)
    (shares shares' : list share_row) (deleted_count : Z) :
  Statements.cleanup_expired_shares cleaned_at shares = Ok (deleted_count, shares') ->
  cleaned_at <= now ->
  match validate_share_link p_share_id now shares,
        validate_share_link p_share_id now shares' with
  | Ok (before, _), Ok (after, _) => after = before
  | Raise m, Raise m' => m' = m
  | _, _ => False
  end.
Proof.
  unfold Statements.cleanup_expired_shares.
  destruct (_ >? int4_max) eqn:Ebig; [discriminate|].
  intros [= _ <-] Hle.
  unfold validate_share_link.
  rewrite find_share_after_cleanup by exact Hle.
  destruct (List.find _ shares) as [share_record|]; [|reflexivity].
  unfold mbind, result_bind. rewrite update_access_after_cleanup.
  destruct (update_access p_share_id now shares); reflexivity.
Qed.

(** ** E-mail addresses *)

Section EmailShape.
Import Email.

Lemma span_take f s : forallb f (take (span f s) s) = true.
Proof.
  induction s as [|c s IH]; [reflexivity|].
  cbn [span]. destruct (f c) eqn:E; [|reflexivity].
  cbn [take forallb]. now rewrite E, IH.
Qed.

Lemma span_stops f a c rest :
  forallb f a = true -> f c = false -> span f (a ++ c :: rest) = List.length a.
Proof.
  intros Ha Hc. induction a as [|x a IH]; cbn [app span List.length].
  - now rewrite Hc.
  - cbn [forallb] in Ha. apply andb_prop in Ha as [Hx Ha].
    now rewrite Hx, IH.
Qed.

Lemma span_le f s : (span f s <= List.length s)%nat.
Proof.
  induction s as [|c s IH]; [reflexivity|].
  cbn [span List.length]. destruct (f c); lia.
Qed.

Lemma in_removelast_split {A} (x : A) (l : list A) :
  In x (removelast l) -> exists pre post, l = pre ++ x :: post /\ post <> [].
Proof.
  induction l as [|y l IH]; [contradiction|].
  cbn [removelast]. destruct l as [|z l]; [contradiction|].
  intros [<-|Hin].
  - exists [], (z :: l). split; [reflexivity|discriminate].
  - destruct (IH Hin) as (pre & post & Heq & Hpost).
    exists (y :: pre), post. split; [cbn; now rewrite Heq|exact Hpost].
Qed.

Lemma validateEmail_regex toLowerCase email :
  isValid (validateEmail toLowerCase email) = emailRegex email.
Proof.
  unfold validateEmail. destruct email as [|c email]; [reflexivity|].
  destruct (emailRegex (c :: email)); reflexivity.
Qed.

End EmailShape.

(** X21: [validateEmail] accepts exactly the strings of the form
    [local@name.extension] in which the three parts are non-empty and hold
    neither white space nor [@] (dots are allowed in each part).  An address
    with a blank in front or behind is therefore rejected, not trimmed. *)
Theorem validateEmail_valid_iff (toLowerCase : jsstring -> jsstring) (email : jsstring) :
  isValid (Email.validateEmail toLowerCase email) = true <->
  exists local name extension,
    email = local ++ [64%N] ++ name ++ [46%N] ++ extension
    /\ local <> [] /\ name <> [] /\ extension <> []
    /\ forallb Email.address_unit (local ++ name ++ extension) = true.
Proof.
  rewrite validateEmail_regex. unfold Email.emailRegex. split.
  - pose proof (span_take Email.address_unit email) as Hlocal.
    pose proof (take_drop (span Email.address_unit email) email) as Hsplit.
    revert Hlocal Hsplit.
    destruct (span Email.address_unit email) as [|n]; [discriminate|].
    intros Hlocal Hsplit. revert Hsplit.
    destruct (drop (S n) email) as [|c domain]; [discriminate|].
    intros Hsplit Hm. apply andb_prop in Hm as [Hm Hdot].
    apply andb_prop in Hm as [Hat Hdomain].
    apply N.eqb_eq in Hat. subst c.
    apply existsb_exists in Hdot as (x & Hin & Hx).
    apply N.eqb_eq in Hx. subst x.
    apply in_removelast_split in Hin as (pre & post & Htail & Hpost).
    destruct domain as [|d0 rest]; [destruct pre; discriminate|].
    cbn [tail] in Htail. subst rest.
    exists (take (S n) email), (d0 :: pre), post.
    split; [now rewrite <- Hsplit at 1|].
    split; [destruct email; discriminate|].
    split; [discriminate|]. split; [exact Hpost|].
    change (d0 :: pre ++ 46%N :: post) with ((d0 :: pre) ++ 46%N :: post) in Hdomain.
    rewrite forallb_app in Hdomain. apply andb_prop in Hdomain as [Hname Hext].
    cbn [forallb] in Hext. apply andb_prop in Hext as [_ Hext].
    rewrite !forallb_app.
    apply andb_true_intro. split; [exact Hlocal|].
    apply andb_true_intro. split; [exact Hname|exact Hext].
  - intros (local & name & extension & -> & Hl & Hn & He & Hall).
    rewrite forallb_app in Hall. apply andb_prop in Hall as [Hlocal Hrest].
    rewrite forallb_app in Hrest. apply andb_prop in Hrest as [Hname Hext].
    cbn [app].
    rewrite (span_stops _ _ _ _ Hlocal) by reflexivity.
    destruct local as [|l0 local]; [contradiction|]. cbn [List.length].
    change (drop (S (List.length local)) ((l0 :: local) ++ 64%N :: name ++ 46%N :: extension))
      with (drop (List.length local) (local ++ 64%N :: name ++ 46%N :: extension)).
    rewrite drop_app_length. rewrite N.eqb_refl. cbn [andb].
    rewrite forallb_app, Hname. cbn [forallb andb].
    change (Email.address_unit 46%N) with true. cbn [andb]. rewrite Hext. cbn [andb].
    destruct name as [|n0 name]; [contradiction|]. cbn [app tail].
    rewrite removelast_app by discriminate.
    rewrite existsb_app. cbn [removelast].
    destruct extension as [|e0 extension]; [contradiction|].
    cbn [existsb]. rewrite N.eqb_refl. now rewrite orb_true_r.
Qed.

(** ** Change listeners *)

Section Bus.
Import Listeners.

Lemma indexOf_fresh cb l :
  ~ In cb l -> indexOf cb (l ++ [cb]) = Some (List.length l).
Proof.
  induction l as [|x l IH]; intros Hnot; cbn [app indexOf List.length].
  - now rewrite Nat.eqb_refl.
  - destruct (Nat.eqb_spec x cb) as [->|_]; [exfalso; apply Hnot; now left|].
    rewrite IH; [reflexivity|]. intros Hin. apply Hnot. now right.
Qed.

Lemma indexOf_absent cb l : ~ In cb l -> indexOf cb l = None.
Proof.
  induction l as [|x l IH]; intros Hnot; cbn [indexOf]; [reflexivity|].
  destruct (Nat.eqb_spec x cb) as [->|_]; [exfalso; apply Hnot; now left|].
  rewrite IH; [reflexivity|]. intros Hin. apply Hnot. now right.
Qed.

Lemma splice1_last (l : list callback) cb : splice1 (List.length l) (l ++ [cb]) = l.
Proof.
  unfold splice1.
  rewrite take_app_length.
  rewrite drop_ge by (rewrite length_app; cbn; lia).
  apply app_nil_r.
Qed.

(** Every listener is called once, in the order of the array, whether or
    not a listener before it throws. *)
Lemma deliver_all throws e l b :
  calls (foldl (deliver throws e) b l) = calls b ++ map (fun cb => (cb, e)) l
  /\ changeListeners (foldl (deliver throws e) b l) = changeListeners b.
Proof.
  revert b. induction l as [|cb l IH]; intros b; cbn [foldl map].
  - now rewrite app_nil_r.
  - destruct (IH (deliver throws e b cb)) as [Hc Hl]. rewrite Hc, Hl.
    unfold deliver. destruct (throws cb e); cbn [calls changeListeners];
      now rewrite <- app_assoc.
Qed.

End Bus.

(** X22: a callback that is not yet subscribed is called after the listeners
    subscribed before it, each listener being called exactly once per event
    and in subscription order even when a listener throws; the function
    [onDataChange] returned restores the previous list of listeners, after
    which the callback is not called any more, and calling that function a
    second time does nothing. *)
Theorem onDataChange_unsubscribe_round_trip
    (throws : Listeners.callback -> DataChangeEvent -> option jsstring)
    (e : DataChangeEvent) (cb : Listeners.callback) (b : Listeners.bus) :
  ~ In cb (Listeners.changeListeners b) ->
  let subscribed := Listeners.onDataChange cb b in
  Listeners.calls (Listeners.emitDataChange throws e subscribed) =
    Listeners.calls b
    ++ map (fun l => (l, e)) (Listeners.changeListeners b ++ [cb])
  /\ Listeners.changeListeners (Listeners.unsubscribe cb subscribed) =
     Listeners.changeListeners b
  /\ Listeners.calls
       (Listeners.emitDataChange throws e (Listeners.unsubscribe cb subscribed)) =
     Listeners.calls b ++ map (fun l => (l, e)) (Listeners.changeListeners b)
  /\ Listeners.unsubscribe cb (Listeners.unsubscribe cb subscribed) =
     Listeners.unsubscribe cb subscribed.
Proof.
  intros Hfresh subscribed.
  assert (Hun : Listeners.unsubscribe cb subscribed =
                {| Listeners.changeListeners := Listeners.changeListeners b;
                   Listeners.calls := Listeners.calls b;
                   Listeners.console_errors := Listeners.console_errors b |}).
  { unfold Listeners.unsubscribe, subscribed, Listeners.onDataChange.
    cbn [Listeners.changeListeners Listeners.calls Listeners.console_errors].
    rewrite (indexOf_fresh _ _ Hfresh). now rewrite splice1_last. }
  split.
  { unfold Listeners.emitDataChange.
    destruct (deliver_all throws e (Listeners.changeListeners subscribed) subscribed)
      as [Hc _].
    exact Hc. }
  rewrite Hun. split; [reflexivity|]. split.
  { unfold Listeners.emitDataChange.
    cbn [Listeners.changeListeners].
    destruct (deliver_all throws e (Listeners.changeListeners b)
                {| Listeners.changeListeners := Listeners.changeListeners b;
                   Listeners.calls := Listeners.calls b;
                   Listeners.console_errors := Listeners.console_errors b |})
      as [Hc _].
    exact Hc. }
  unfold Listeners.unsubscribe at 1. cbn [Listeners.changeListeners].
  now rewrite (indexOf_absent _ _ Hfresh).
Qed.

(** ** Examples *)

Section ExtraExamples.
#[local] Existing Instance ConcreteHost.host.

Lemma onDataChange_unsubscribe_round_trip_witness :
  Listeners.calls
    (Listeners.emitDataChange Cases.first_throws Cases.a_change
       (Listeners.onDataChange 3%nat Cases.two_listeners)) =
    [(1%nat, Cases.a_change); (2%nat, Cases.a_change); (3%nat, Cases.a_change)]
  /\ Listeners.changeListeners
       (Listeners.unsubscribe 3%nat
          (Listeners.onDataChange 3%nat Cases.two_listeners)) = [1%nat; 2%nat].
Proof.
  destruct (onDataChange_unsubscribe_round_trip Cases.first_throws Cases.a_change
              3%nat Cases.two_listeners) as (Hcalls & Hlist & _).
  - cbn. intros [H|[H|[]]]; discriminate.
  - split; [exact Hcalls|exact Hlist].
Defined.

Lemma saveElement_failure_changes_nothing_witness :
  faults Scenario.signed_in = []
  /\ (exists md message,
        upsert_portfolio_data (session Scenario.signed_in) (now Scenario.signed_in)
          (lit "share") (lit "s1") None (Some (JObj [])) md (db Scenario.signed_in)
        = Raise message)
  /\ db (snd (saveElement (lit "share") (lit "s1") (JObj []) no_options
                Scenario.signed_in)) = db Scenario.signed_in
  /\ emitted (snd (saveElement (lit "share") (lit "s1") (JObj []) no_options
                     Scenario.signed_in)) = emitted Scenario.signed_in.
Proof.
  split; [reflexivity|].
  destruct (saveElement_failure_changes_nothing (lit "share") (lit "s1") (JObj [])
              no_options Scenario.signed_in) as (Hwhy & Hdb & Hemitted & _).
  - constructor.
  - vm_compute. reflexivity.
  - split; [|split; [exact Hdb|exact Hemitted]].
    destruct Hwhy as [Hwhy|[[_ Hwhy]|Hwhy]].
    + discriminate.
    + vm_compute in Hwhy. discriminate.
    + exact Hwhy.
Defined.

Lemma saveElement_success_emits_one_event_witness :
  exists user current,
    session Cases.editing = Some user
    /\ fst (getElement (lit "text") (lit "a1") Cases.editing) = Returned current
    /\ emitted (snd (saveElement (lit "text") (lit "a1") (JStr (lit "<b>hi</b>"))
                       no_options Cases.editing)) =
       [ {| ev_elementType := lit "text"; ev_elementId := lit "a1";
            oldValue := current;
            newValue := sanitized_or (validation_for (JStr (lit "<b>hi</b>")))
                          (JStr (lit "<b>hi</b>"));
            timestamp := 1753747200000; userId := user |} ].
Proof.
  destruct (saveElement_success_emits_one_event (lit "text") (lit "a1")
              (JStr (lit "<b>hi</b>")) no_options Cases.editing)
    as (user & current & Hs & _ & Hcur & Hemitted & _).
  - vm_compute. reflexivity.
  - exists user, current. split; [exact Hs|]. split; [exact Hcur|exact Hemitted].
Defined.

Lemma saveElement_then_getElement_witness :
  fst (getElement (lit "text") (lit "a1")
         (snd (saveElement (lit "text") (lit "a1")
                 (JObj [(lit "title", JStr (lit "<b>hi</b>"))])
                 no_options Cases.editing))) =
    Returned (JObj [(lit "title", JStr (lit "<b>hi</b>"))]).
Proof.
  destruct (saveElement_then_getElement (lit "text") (lit "a1")
              (JObj [(lit "title", JStr (lit "<b>hi</b>"))]) no_options
              Cases.editing
              (snd (saveElement (lit "text") (lit "a1")
                      (JObj [(lit "title", JStr (lit "<b>hi</b>"))])
                      no_options Cases.editing)))
    as (user & _ & Hget).
  - vm_compute. reflexivity.
  - intros u r _ [<-|[]] _. reflexivity.
  - reflexivity.
  - vm_compute. reflexivity.
  - vm_compute. exact I.
  - exact Hget.
Defined.

Lemma service_keeps_table_constraints_witness :
  Constraints.consistent
    (db (snd (saveElement (lit "text") (lit "a2") (JStr (lit "second"))
                no_options Cases.editing))).
Proof.
  apply (service_keeps_table_constraints Cases.editing).
  split.
  - vm_compute. apply NoDup_singleton.
  - constructor; [|constructor].
    apply (bool_decide_eq_true_1
             (element_type Cases.hello_row ∈ allowed_element_types)).
    vm_compute. reflexivity.
Defined.

Lemma upsert_portfolio_data_versions_and_backs_up_witness :
  exists result_id d',
    upsert_portfolio_data (Some Scenario.owner) 1753747200000 (lit "text") (lit "a1")
      (Some (lit "hello again")) None None Cases.one_text = Ok (result_id, d')
    /\ exists NEW,
         portfolio_data_v2 d' = [NEW]
         /\ id NEW = id Cases.hello_row
         /\ version NEW = Some 2
         /\ portfolio_data_backup d' =
            [Constraints.pre_update_backup 1753747200000 Cases.hello_row].
Proof.
  destruct (upsert_portfolio_data (Some Scenario.owner) 1753747200000 (lit "text")
              (lit "a1") (Some (lit "hello again")) None None Cases.one_text)
    as [[result_id d']|] eqn:Eu; [|vm_compute in Eu; discriminate].
  exists result_id, d'. split; [reflexivity|].
  destruct (upsert_portfolio_data_versions_and_backs_up _ _ _ _ _ _ _ _ _ _ Eu)
    as (user & [= <-] & Hcase).
  change (List.find (Constraints.is_element Scenario.owner (lit "text") (lit "a1"))
            (portfolio_data_v2 Cases.one_text)) with (Some Cases.hello_row) in Hcase.
  destruct Hcase as (NEW & Hrows & Hid & _ & Hver & _ & Hbackup).
  exists NEW. split; [exact Hrows|]. split; [exact Hid|].
  split; [exact Hver|exact Hbackup].
Defined.

Lemma getElement_reads_own_active_rows_only_witness :
  exists user row,
    session Cases.editing = Some user
    /\ In row (portfolio_data_v2 (db Cases.editing))
    /\ user_id row = user
    /\ is_active row = Some true
    /\ row_value row = JStr (lit "hello").
Proof.
  destruct (getElement_reads_own_active_rows_only (lit "text") (lit "a1")
              Cases.editing (JStr (lit "hello")))
    as (user & row & Hs & Hin & Hu & _ & _ & Ha & Hv).
  - vm_compute. reflexivity.
  - discriminate.
  - exists user, row. auto.
Defined.

Lemma deleteElement_soft_deletes_witness :
  fst (getElement (lit "text") (lit "a1")
         (snd (Lifecycle.deleteElement (lit "text") (lit "a1") Cases.editing)))
    = Returned JNull
  /\ map id (portfolio_data_v2
               (db (snd (Lifecycle.deleteElement (lit "text") (lit "a1")
                           Cases.editing))))
     = [id Cases.hello_row].
Proof.
  destruct (deleteElement_soft_deletes (lit "text") (lit "a1") Cases.editing
              (snd (Lifecycle.deleteElement (lit "text") (lit "a1") Cases.editing)))
    as (user & _ & Hget & Hids & _).
  - vm_compute. reflexivity.
  - reflexivity.
  - vm_compute. reflexivity.
  - split; [exact Hget|exact Hids].
Defined.

Lemma deleteElement_of_missing_element_reports_success_witness :
  fst (Lifecycle.deleteElement (lit "text") (lit "no-such-element")
         Scenario.signed_in) = true
  /\ db (snd (Lifecycle.deleteElement (lit "text") (lit "no-such-element")
                Scenario.signed_in)) = db Scenario.signed_in.
Proof.
  destruct (deleteElement_of_missing_element_reports_success (lit "text")
              (lit "no-such-element") Scenario.signed_in Scenario.owner)
    as (Hok & Hdb & _).
  - reflexivity.
  - constructor.
  - constructor.
  - split; [exact Hok|exact Hdb].
Defined.

Lemma deleted_element_cannot_be_saved_back_witness :
  success (fst (saveElement (lit "text") (lit "a1") (JStr (lit "hello again"))
                  no_options
                  (snd (Lifecycle.deleteElement (lit "text") (lit "a1")
                          Cases.editing)))) = true
  /\ fst (getElement (lit "text") (lit "a1")
            (snd (saveElement (lit "text") (lit "a1") (JStr (lit "hello again"))
                    no_options
                    (snd (Lifecycle.deleteElement (lit "text") (lit "a1")
                            Cases.editing))))) = Returned JNull.
Proof.
  split; [vm_compute; reflexivity|].
  apply (deleted_element_cannot_be_saved_back (lit "text") (lit "a1")
           (JStr (lit "hello again")) no_options Cases.editing).
  - vm_compute. reflexivity.
  - exists Scenario.owner, Cases.hello_row.
    split; [reflexivity|]. split; [now left|reflexivity].
  - reflexivity.
  - vm_compute. reflexivity.
Defined.

Lemma created_share_link_is_not_found_witness :
  exists url,
    fst (FormsWrite.createShareLink (lit "https://example.org") (lit "contact")
           {| FormsWrite.expiresIn := None; FormsWrite.o_permissions := None;
              FormsWrite.password := None |} Scenario.signed_in) = Returned url
    /\ url = lit "https://example.org/forms?share=share_contact_1753747200000"
    /\ fst (validateShareLink (lit "share_contact_1753747200000")
              (snd (FormsWrite.createShareLink (lit "https://example.org")
                      (lit "contact")
                      {| FormsWrite.expiresIn := None;
                         FormsWrite.o_permissions := None;
                         FormsWrite.password := None |} Scenario.signed_in)))
       = Thrown (lit "Share link not found").
Proof.
  destruct (fst (FormsWrite.createShareLink (lit "https://example.org")
                   (lit "contact")
                   {| FormsWrite.expiresIn := None; FormsWrite.o_permissions := None;
                      FormsWrite.password := None |} Scenario.signed_in))
    as [url|] eqn:Eu; [|vm_compute in Eu; discriminate].
  exists url. split; [reflexivity|].
  destruct (created_share_link_is_not_found (lit "https://example.org")
              (lit "contact")
              {| FormsWrite.expiresIn := None; FormsWrite.o_permissions := None;
                 FormsWrite.password := None |} Scenario.signed_in url)
    as (Hurl & _ & _ & Hlater).
  - constructor.
  - exact Eu.
  - split; [rewrite Hurl; vm_compute; reflexivity|].
    apply Hlater. reflexivity.
Defined.

Lemma cleanup_expired_shares_deactivates_expired_witness :
  exists shares',
    Statements.cleanup_expired_shares (Scenario.expiry + 1)
      [Scenario.share_link; Cases.permanent_link] = Ok (1, shares')
    /\ Forall (fun r => Statements.expired_share (Scenario.expiry + 1) r = false)
         shares'
    /\ Statements.cleanup_expired_shares (Scenario.expiry + 1) shares'
       = Ok (0, shares').
Proof.
  destruct (Statements.cleanup_expired_shares (Scenario.expiry + 1)
              [Scenario.share_link; Cases.permanent_link])
    as [[n shares']|] eqn:Ec; [|vm_compute in Ec; discriminate].
  assert (Hn : n = 1) by (vm_compute in Ec; injection Ec as <- _; reflexivity).
  subst n. exists shares'. split; [reflexivity|].
  destruct (cleanup_expired_shares_deactivates_expired _ _ _ _ Ec)
    as (Hclean & _ & _ & Hagain).
  split; [exact Hclean|exact Hagain].
Defined.

Lemma cleanup_expired_shares_keeps_valid_links_witness :
  exists n shares' before rows after rows',
    Statements.cleanup_expired_shares (Scenario.expiry + 1)
      [Scenario.share_link; Cases.permanent_link] = Ok (n, shares')
    /\ validate_share_link (share_id Cases.permanent_link) (Scenario.expiry + 2)
         [Scenario.share_link; Cases.permanent_link] = Ok (before, rows)
    /\ validate_share_link (share_id Cases.permanent_link) (Scenario.expiry + 2)
         shares' = Ok (after, rows')
    /\ after = before.
Proof.
  destruct (Statements.cleanup_expired_shares (Scenario.expiry + 1)
              [Scenario.share_link; Cases.permanent_link])
    as [[n shares']|] eqn:Ec; [|vm_compute in Ec; discriminate].
  pose proof (cleanup_expired_shares_keeps_valid_links
                (share_id Cases.permanent_link) (Scenario.expiry + 1)
                (Scenario.expiry + 2) _ _ _ Ec) as Hsame.
  destruct (validate_share_link (share_id Cases.permanent_link) (Scenario.expiry + 2)
              [Scenario.share_link; Cases.permanent_link])
    as [[before rows]|] eqn:Eb; [|vm_compute in Eb; discriminate].
  destruct (validate_share_link (share_id Cases.permanent_link) (Scenario.expiry + 2)
              shares') as [[after rows']|] eqn:Ea.
  - exists n, shares', before, rows, after, rows'.
    split; [reflexivity|]. split; [reflexivity|]. split; [exact Ea|].
    apply Hsame. vm_compute. discriminate.
  - exfalso. apply Hsame. vm_compute. discriminate.
Defined.

Lemma deleteElement_failure_changes_nothing_witness :
  faults Cases.signed_out = []
  /\ db (snd (Lifecycle.deleteElement (lit "text") (lit "a1") Cases.signed_out))
     = db Cases.signed_out
  /\ toasts (snd (Lifecycle.deleteElement (lit "text") (lit "a1") Cases.signed_out))
     = [ToastError (lit "Failed to delete: User must be authenticated")].
Proof.
  split; [reflexivity|].
  destruct (deleteElement_failure_changes_nothing (lit "text") (lit "a1")
              Cases.signed_out) as (_ & Hdb & _ & _).
  - constructor.
  - reflexivity.
  - split; [exact Hdb|reflexivity].
Defined.

Lemma loadAllData_agrees_with_getElement_witness :
  fst (Lifecycle.loadAllData Cases.editing) !! key_of (lit "text") (lit "a1")
    = Some (JStr (lit "hello"))
  /\ fst (getElement (lit "text") (lit "a1") Cases.editing)
     = Returned (JStr (lit "hello")).
Proof.
  apply (loadAllData_agrees_with_getElement (lit "text") (lit "a1") Cases.editing
           Scenario.owner Cases.hello_row).
  - reflexivity.
  - exact I.
  - now left.
  - reflexivity.
  - reflexivity.
  - intros r [<-|[]] _ _ _. reflexivity.
Defined.

End ExtraExamples.

(** * Auto-save bursts among calls for other keys *)

Import Interleaving.

Section EventOrder.

Lemma earliest_least {A} (time : A -> Z) (l : list A) (x : A) :
  earliest time l = Some x -> forall y, In y l -> time x <= time y.
Proof.
  revert x. induction l as [|z l IH]; intros x; cbn [earliest]; [discriminate|].
  destruct (earliest time l) as [m|] eqn:Em.
  - specialize (IH m eq_refl).
    destruct (Z.ltb_spec (time m) (time z)); intros [= <-] y [<-|Hy];
      try lia; specialize (IH y Hy); lia.
  - intros [= <-] y [<-|Hy]; [lia|].
    destruct l as [|w l]; [contradiction|].
    cbn [earliest] in Em. destruct (earliest time l) as [m|];
      [destruct (time m <? time w)|]; discriminate.
Qed.

Lemma next_event_scheduled p ev :
  next_event p = Some ev ->
  match ev with
  | Fire tm => In tm (timers p)
  | Land f => In f (in_flight p)
  end.
Proof.
  unfold next_event.
  destruct (earliest lands (in_flight p)) as [f|] eqn:Ef;
    destruct (earliest due (timers p)) as [tm|] eqn:Et;
    try discriminate;
    try (destruct (due tm <? lands f));
    intros [= <-]; eauto using earliest_in.
Qed.

(** The loop runs events in the order of their times. *)
Lemma next_event_first p ev :
  next_event p = Some ev ->
  (forall tm, In tm (timers p) -> event_time ev <= due tm)
  /\ (forall f, In f (in_flight p) -> event_time ev <= lands f).
Proof.
  unfold next_event.
  destruct (earliest lands (in_flight p)) as [f|] eqn:Ef;
    destruct (earliest due (timers p)) as [tm|] eqn:Et.
  - pose proof (earliest_least _ _ _ Ef) as Hf.
    pose proof (earliest_least _ _ _ Et) as Ht.
    destruct (Z.ltb_spec (due tm) (lands f)); intros [= <-]; cbn [event_time];
      split; intros x Hx; [specialize (Ht x Hx)|specialize (Hf x Hx)
                          |specialize (Ht x Hx)|specialize (Hf x Hx)]; lia.
  - pose proof (earliest_least _ _ _ Ef) as Hf.
    intros [= <-]. cbn [event_time]. split; [|exact Hf].
    intros x Hx. destruct (timers p); [contradiction|].
    cbn [earliest] in Et. destruct (earliest due l) as [m|];
      [destruct (due m <? due t)|]; discriminate.
  - pose proof (earliest_least _ _ _ Et) as Ht.
    intros [= <-]. cbn [event_time]. split; [exact Ht|].
    intros x Hx. destruct (in_flight p); [contradiction|].
    cbn [earliest] in Ef. destruct (earliest lands l) as [m|];
      [destruct (lands m <? lands f)|]; discriminate.
  - discriminate.
Qed.

Lemma step_clock ev p : clock (step ev p) = Z.max (clock p) (event_time ev).
Proof.
  destruct ev as [tm|f]; cbn [step event_time]; [|reflexivity].
  unfold fire. destruct (pendingChanges p !! _); reflexivity.
Qed.

(** Letting time pass until [t] leaves no timer that is due by [t]. *)
Lemma run_until_leaves_later fuel t p :
  (events_left p <= fuel)%nat ->
  forall tm, In tm (timers (run fuel (Some t) p)) -> t < due tm.
Proof.
  revert p. induction fuel as [|fuel IH]; intros p Hfuel; cbn [run].
  - unfold events_left in Hfuel. destruct (timers p); [contradiction|].
    cbn in Hfuel. lia.
  - destruct (next_event p) as [ev|] eqn:Hnext.
    + cbn [due_by]. destruct (Z.leb_spec (event_time ev) t).
      * apply IH. pose proof (step_decreases p ev Hnext). lia.
      * intros tm Htm. pose proof (proj1 (next_event_first p ev Hnext) tm Htm). lia.
    + apply next_event_none in Hnext as [Ht _]. rewrite Ht. contradiction.
Qed.

Lemma run_until_clock fuel t p :
  clock p <= clock (run fuel (Some t) p) <= Z.max (clock p) t.
Proof.
  revert p. induction fuel as [|fuel IH]; intros p; cbn [run]; [lia|].
  destruct (next_event p) as [ev|]; [|lia].
  cbn [due_by]. destruct (Z.leb_spec (event_time ev) t); [|lia].
  specialize (IH (step ev p)). rewrite step_clock in IH. lia.
Qed.

Lemma advance_clock t p : clock p <= t -> clock (advance t p) = t.
Proof.
  intros Hle. unfold advance, set_clock. cbn [clock].
  pose proof (run_until_clock (events_left p) t p). lia.
Qed.

End EventOrder.

(** ** The bookkeeping of handles and calls *)

Section WellFormed.

Lemma Forall_filter_keeps {A} (P : A -> Prop) (f : A -> bool) (l : list A) :
  Forall P l -> Forall P (List.filter f l).
Proof.
  induction 1 as [|x l Hx _ IH]; cbn [List.filter]; [constructor|].
  destruct (f x); [constructor|]; auto.
Qed.

Lemma filter_swap {A} (f g : A -> bool) (l : list A) :
  List.filter f (List.filter g l) = List.filter g (List.filter f l).
Proof.
  induction l as [|x l IH]; [reflexivity|].
  cbn [List.filter].
  destruct (f x) eqn:Ef; destruct (g x) eqn:Eg; cbn [List.filter];
    rewrite ?Ef, ?Eg, IH; reflexivity.
Qed.

Lemma filter_nil_all {A} (f : A -> bool) (l : list A) (x : A) :
  List.filter f l = [] -> In x l -> f x = false.
Proof.
  intros Hnil Hin. destruct (f x) eqn:E; [|reflexivity].
  assert (Hx : In x (List.filter f l)) by (apply filter_In; auto).
  rewrite Hnil in Hx. contradiction.
Qed.

Lemma filter_one {A} (f : A -> bool) (l : list A) (x y : A) :
  List.filter f l = [x] -> In y l -> f y = true -> y = x.
Proof.
  intros Hone Hin Hy.
  assert (Hx : In y (List.filter f l)) by (apply filter_In; auto).
  rewrite Hone in Hx. destruct Hx as [<-|[]]. reflexivity.
Qed.

Lemma well_formed_fresh latency : well_formed (fresh latency).
Proof.
  unfold well_formed, fresh. cbn.
  split; [discriminate|]. split; [constructor|].
  split; [intros key h; rewrite lookup_empty; discriminate|].
  split; [constructor|]. intros f g [].
Qed.

Lemma well_formed_set_clock t p : well_formed p -> well_formed (set_clock t p).
Proof. intros Hwf. exact Hwf. Qed.

Lemma well_formed_step ev p : well_formed p -> well_formed (step ev p).
Proof.
  intros (Hn & Hts & Hmap & Hfs & Huniq).
  destruct ev as [tm|f]; cbn [step].
  - assert (Hts' : Forall (fun x => (handle x < next_handle p)%nat)
                     (clearTimeout (handle tm) (timers p)))
      by (apply Forall_filter_keeps, Hts).
    assert (Hmap' : forall key h, autoSaveTimeouts p !! key = Some h ->
              (h < next_handle p)%nat
              /\ Forall (fun x => handle x = h -> key_of_timer x = key)
                   (clearTimeout (handle tm) (timers p))).
    { intros key h Hkey. destruct (Hmap key h Hkey) as [Hlt Hown].
      split; [exact Hlt|apply Forall_filter_keeps, Hown]. }
    unfold fire. destruct (pendingChanges p !! _) as [v|];
      unfold well_formed;
      cbn [next_handle timers autoSaveTimeouts in_flight save_calls];
      (split; [exact Hn|]); (split; [exact Hts'|]); (split; [exact Hmap'|]);
      [|split; [exact Hfs|exact Huniq]].
    split.
    + apply Forall_app. split.
      * eapply Forall_impl; [exact Hfs|]. intros f Hf. cbn beta in *.
        rewrite length_app. cbn. lia.
      * constructor; [|constructor]. cbn. rewrite length_app. cbn. lia.
    + rewrite Forall_forall in Hfs.
      intros f g Hf Hg Heq.
      apply in_app_or in Hf as [Hf|[<-|[]]];
        apply in_app_or in Hg as [Hg|[<-|[]]].
      * now apply Huniq.
      * apply list_elem_of_In, Hfs in Hf. cbn in Heq. lia.
      * apply list_elem_of_In, Hfs in Hg. cbn in Heq. lia.
      * reflexivity.
  - unfold land, well_formed.
    cbn [next_handle timers autoSaveTimeouts in_flight save_calls].
    split; [exact Hn|]. split; [exact Hts|]. split.
    + intros key h Hkey. apply lookup_delete_Some in Hkey as [_ Hkey].
      exact (Hmap key h Hkey).
    + split; [apply Forall_filter_keeps, Hfs|].
      intros x y Hx Hy. apply filter_In in Hx as [Hx _].
      apply filter_In in Hy as [Hy _]. now apply Huniq.
Qed.

Lemma well_formed_run fuel until p : well_formed p -> well_formed (run fuel until p).
Proof.
  revert p. induction fuel as [|fuel IH]; intros p Hwf; cbn [run]; [exact Hwf|].
  destruct (next_event p) as [ev|]; [|exact Hwf].
  destruct (due_by until (event_time ev)); [|exact Hwf].
  apply IH, well_formed_step, Hwf.
Qed.

Lemma well_formed_advance t p : well_formed p -> well_formed (advance t p).
Proof. intros Hwf. apply well_formed_set_clock, well_formed_run, Hwf. Qed.

Lemma well_formed_autoSave ty id v d p :
  well_formed p -> well_formed (autoSave ty id v d p).
Proof.
  intros (Hn & Hts & Hmap & Hfs & Huniq).
  set (timers1 := match autoSaveTimeouts p !! key_of ty id with
                  | Some existingTimeout =>
                      if (existingTimeout =? 0)%nat then timers p
                      else clearTimeout existingTimeout (timers p)
                  | None => timers p
                  end).
  assert (Hsub : forall P : timer -> Prop, Forall P (timers p) -> Forall P timers1).
  { intros P HP. unfold timers1.
    destruct (autoSaveTimeouts p !! key_of ty id) as [h|]; [|exact HP].
    destruct (h =? 0)%nat; [exact HP|apply Forall_filter_keeps, HP]. }
  unfold well_formed, autoSave.
  cbn [next_handle timers autoSaveTimeouts in_flight save_calls]. fold timers1.
  split; [discriminate|]. split.
  { apply Forall_app. split.
    - apply Hsub. eapply Forall_impl; [exact Hts|]. intros tm Htm. cbn beta in *. lia.
    - constructor; [|constructor]. cbn. lia. }
  split; [|split; [exact Hfs|exact Huniq]].
  intros key h Hkey.
  destruct (decide (key = key_of ty id)) as [->|Hne].
  - rewrite lookup_insert_eq in Hkey. injection Hkey as <-.
    split; [lia|]. apply Forall_app. split.
    + apply Hsub. eapply Forall_impl; [exact Hts|].
      intros tm Htm Heq. cbn beta in *. lia.
    + constructor; [|constructor]. intros _. reflexivity.
  - rewrite lookup_insert_ne in Hkey by congruence.
    destruct (Hmap key h Hkey) as [Hlt Hown].
    split; [lia|]. apply Forall_app. split; [apply Hsub, Hown|].
    constructor; [|constructor]. cbn. intros Heq. lia.
Qed.

Lemma well_formed_clear p :
  well_formed p -> well_formed (Lifecycle.clearAllAutoSaveTimeouts p).
Proof.
  intros (Hn & Hts & Hmap & Hfs & Huniq).
  unfold well_formed, Lifecycle.clearAllAutoSaveTimeouts.
  cbn [next_handle timers autoSaveTimeouts in_flight save_calls].
  split; [exact Hn|]. split.
  { induction (map_to_list (autoSaveTimeouts p)) as [|entry entries IH];
      cbn [foldr]; [exact Hts|apply Forall_filter_keeps, IH]. }
  split; [intros key h; rewrite lookup_empty; discriminate|].
  split; [exact Hfs|exact Huniq].
Qed.

(** Every reachable page is well formed. *)
Lemma reachable_well_formed p : reachable p -> well_formed p.
Proof.
  induction 1 as [latency|ty id v d p _ IH|t p _ IH|p _ IH|p _ IH].
  - apply well_formed_fresh.
  - apply well_formed_autoSave, IH.
  - apply well_formed_advance, IH.
  - apply well_formed_run, IH.
  - apply well_formed_clear, IH.
Qed.

End WellFormed.

(** ** One key among the others *)

Section OneKey.
Variable k : jsstring.

Lemma filter_clearTimeout (f : timer -> bool) h ts :
  List.filter f (clearTimeout h ts) = clearTimeout h (List.filter f ts).
Proof. unfold clearTimeout. apply filter_swap. Qed.

Lemma timer_for_false tm : timer_for k tm = false -> key_of_timer tm <> k.
Proof. unfold timer_for. intros Hf. now apply bool_decide_eq_false in Hf. Qed.

Lemma flight_for_false f : flight_for k f = false -> f_key f <> k.
Proof. unfold flight_for. intros Hf. now apply bool_decide_eq_false in Hf. Qed.

(** What the callback of a timer of another key adds does not belong to the
    key. *)
Lemma fire_other tm p :
  timer_for k tm = false ->
  List.filter (timer_for k) (timers (fire tm p))
  = clearTimeout (handle tm) (List.filter (timer_for k) (timers p))
  /\ List.filter (flight_for k) (in_flight (fire tm p))
     = List.filter (flight_for k) (in_flight p)
  /\ List.filter (save_for k) (save_calls (fire tm p))
     = List.filter (save_for k) (save_calls p)
  /\ autoSaveTimeouts (fire tm p) = autoSaveTimeouts p
  /\ pendingChanges (fire tm p) = pendingChanges p.
Proof.
  intros Hother. apply timer_for_false in Hother.
  unfold fire. destruct (pendingChanges p !! _) as [v|];
    cbn [timers in_flight save_calls autoSaveTimeouts pendingChanges];
    rewrite filter_clearTimeout; (split; [reflexivity|]).
  - rewrite !List.filter_app. cbn [List.filter].
    unfold flight_for at 2. cbn [f_key].
    unfold save_for at 2, key_of_save. cbn [c_elementType c_elementId].
    fold (key_of_timer tm).
    rewrite !bool_decide_eq_false_2 by exact Hother.
    rewrite !app_nil_r. auto.
  - auto.
Qed.

(** What the resumed callback of another key's flush removes does not
    belong to the key. *)
Lemma land_other f p :
  flight_for k f = false ->
  List.filter (timer_for k) (timers (land f p)) = List.filter (timer_for k) (timers p)
  /\ List.filter (flight_for k) (in_flight (land f p))
     = List.filter (fun g => negb (call_no g =? call_no f)%nat)
         (List.filter (flight_for k) (in_flight p))
  /\ save_calls (land f p) = save_calls p
  /\ autoSaveTimeouts (land f p) !! k = autoSaveTimeouts p !! k
  /\ pendingChanges (land f p) !! k = pendingChanges p !! k.
Proof.
  intros Hother. apply flight_for_false in Hother.
  unfold land. cbn [timers in_flight save_calls autoSaveTimeouts pendingChanges].
  split; [reflexivity|]. split; [apply filter_swap|]. split; [reflexivity|].
  split; apply lookup_delete_ne; exact Hother.
Qed.

(** While nothing is scheduled for the key, no event concerns it. *)
Lemma step_at_rest ev p :
  at_rest k p -> next_event p = Some ev ->
  at_rest k (step ev p)
  /\ List.filter (save_for k) (save_calls (step ev p))
     = List.filter (save_for k) (save_calls p).
Proof.
  intros [Ht Hf] Hnext. apply next_event_scheduled in Hnext.
  destruct ev as [tm|f]; cbn [step].
  - destruct (fire_other tm p (filter_nil_all _ _ _ Ht Hnext))
      as (Ht' & Hf' & Hs' & _).
    unfold at_rest. rewrite Ht', Hf', Hs', Ht, Hf. auto.
  - destruct (land_other f p (filter_nil_all _ _ _ Hf Hnext))
      as (Ht' & Hf' & Hs' & _).
    unfold at_rest. rewrite Ht', Hf', Hs', Ht, Hf. auto.
Qed.

Lemma run_at_rest fuel until p :
  at_rest k p ->
  at_rest k (run fuel until p)
  /\ List.filter (save_for k) (save_calls (run fuel until p))
     = List.filter (save_for k) (save_calls p).
Proof.
  revert p. induction fuel as [|fuel IH]; intros p Hrest; cbn [run]; [auto|].
  destruct (next_event p) as [ev|] eqn:Hnext; [|auto].
  destruct (due_by until (event_time ev)); [|auto].
  destruct (step_at_rest ev p Hrest Hnext) as [Hrest' Hs'].
  destruct (IH _ Hrest') as [Hrest2 Hs2]. split; [exact Hrest2|congruence].
Qed.

Variable c : call.
Variable before : list save_call.
Hypothesis Hkey : key_of_call c = k.

Let due_c := e_time (what c) + Z.max 0 (e_delay (what c)).

Lemma own_timer_for h : timer_for k (timer_of (on_type c) (on_id c) (what c) h) = true.
Proof. unfold timer_for, key_of_timer. cbn. now apply bool_decide_eq_true_2. Qed.

(** The timer of the last edit fires: [saveElement] is called with the
    buffered value. *)
Lemma fire_own h p :
  tracks k c before (Waiting h) p ->
  exists n resolves,
    tracks k c before (Saving n resolves)
      (fire (timer_of (on_type c) (on_id c) (what c) h) p).
Proof.
  intros (Hh & Ht & Hmap & Hpend & Hf & Hs & Hclock).
  unfold fire. cbn [timer_of t_elementType t_elementId handle due].
  change (key_of (on_type c) (on_id c)) with (key_of_call c). rewrite Hkey, Hpend.
  eexists _, _. unfold tracks.
  cbn [timers in_flight save_calls].
  rewrite filter_clearTimeout, Ht.
  split; [cbn; now rewrite Nat.eqb_refl|].
  rewrite !List.filter_app, Hf, Hs. cbn [List.filter app].
  unfold flight_for, save_for, key_of_save. cbn [f_key c_elementType c_elementId].
  change (key_of (on_type c) (on_id c)) with (key_of_call c). rewrite Hkey.
  rewrite !bool_decide_eq_true_2 by reflexivity.
  split; [reflexivity|]. f_equal. f_equal.
  unfold flush, flush_of. f_equal. fold due_c. lia.
Qed.

(** Any other event leaves the last edit waiting. *)
Lemma step_waiting h ev p :
  well_formed p ->
  tracks k c before (Waiting h) p ->
  next_event p = Some ev ->
  ev <> Fire (timer_of (on_type c) (on_id c) (what c) h) ->
  tracks k c before (Waiting h) (step ev p).
Proof.
  intros (_ & _ & Hwf & _) (Hh & Ht & Hmap & Hpend & Hf & Hs & Hclock) Hnext Hother.
  assert (Hown : In (timer_of (on_type c) (on_id c) (what c) h) (timers p)).
  { assert (Hin : In (timer_of (on_type c) (on_id c) (what c) h)
                    (List.filter (timer_for k) (timers p)))
      by (rewrite Ht; now left).
    now apply filter_In in Hin as [Hin _]. }
  pose proof (proj1 (next_event_first p ev Hnext) _ Hown) as Hfirst.
  cbn [due timer_of] in Hfirst. fold due_c in Hfirst, Hclock.
  assert (Hclock' : clock (step ev p) <= due_c) by (rewrite step_clock; lia).
  pose proof (next_event_scheduled p ev Hnext) as Hin.
  destruct ev as [tm|f]; cbn [step] in *.
  - assert (Hnot : timer_for k tm = false).
    { destruct (timer_for k tm) eqn:E; [|reflexivity].
      exfalso. apply Hother. f_equal. exact (filter_one _ _ _ _ Ht Hin E). }
    destruct (fire_other tm p Hnot) as (Ht' & Hf' & Hs' & Hm' & Hp').
    unfold tracks. rewrite Ht', Hf', Hs', Hm', Hp', Ht.
    split; [exact Hh|]. split.
    { cbn. destruct (Nat.eqb_spec h (handle tm)) as [Heq|_]; [|reflexivity].
      exfalso. destruct (Hwf k h Hmap) as [_ Hmine].
      rewrite Forall_forall in Hmine.
      apply list_elem_of_In, Hmine in Hin. apply timer_for_false in Hnot.
      apply Hnot, Hin. congruence. }
    repeat split; try assumption; exact Hclock'.
  - assert (Hnot : flight_for k f = false) by exact (filter_nil_all _ _ _ Hf Hin).
    destruct (land_other f p Hnot) as (Ht' & Hf' & Hs' & Hm' & Hp').
    unfold tracks. rewrite Ht', Hf', Hs', Hm', Hp', Hf.
    repeat split; try assumption; exact Hclock'.
Qed.

(** While the last edit is being saved, the call resolves or stays
    awaited. *)
Lemma step_saving n resolves ev p :
  well_formed p ->
  tracks k c before (Saving n resolves) p ->
  next_event p = Some ev ->
  tracks k c before (Saving n resolves) (step ev p)
  \/ tracks k c before Saved (step ev p).
Proof.
  intros (_ & _ & _ & _ & Huniq) (Ht & Hf & Hs) Hnext.
  pose proof (next_event_scheduled p ev Hnext) as Hin.
  assert (Hown : In {| call_no := n; lands := resolves; f_key := k |} (in_flight p)).
  { assert (Hx : In {| call_no := n; lands := resolves; f_key := k |}
                   (List.filter (flight_for k) (in_flight p)))
      by (rewrite Hf; now left).
    now apply filter_In in Hx as [Hx _]. }
  destruct ev as [tm|f]; cbn [step] in *.
  - left.
    destruct (fire_other tm p (filter_nil_all _ _ _ Ht Hin)) as (Ht' & Hf' & Hs' & _).
    unfold tracks. rewrite Ht', Hf', Hs', Ht, Hf. auto.
  - destruct (flight_for k f) eqn:Efor.
    + right. pose proof (filter_one _ _ _ _ Hf Hin Efor) as ->.
      unfold land, tracks.
      cbn [timers in_flight save_calls pendingChanges f_key call_no].
      split; [exact Ht|]. rewrite filter_swap, Hf. cbn [List.filter call_no].
      rewrite Nat.eqb_refl. cbn [negb].
      split; [reflexivity|]. split; [apply lookup_delete_eq|exact Hs].
    + left. destruct (land_other f p Efor) as (Ht' & Hf' & Hs' & _).
      unfold tracks. rewrite Ht', Hf', Hs', Hf. cbn [List.filter call_no].
      destruct (Nat.eqb_spec n (call_no f)) as [Heq|_]; [|auto].
      exfalso. rewrite <- (Huniq _ _ Hown Hin Heq) in Efor.
      unfold flight_for in Efor. cbn [f_key] in Efor.
      now rewrite bool_decide_eq_true_2 in Efor.
Qed.

Lemma step_saved ev p :
  tracks k c before Saved p ->
  next_event p = Some ev ->
  tracks k c before Saved (step ev p).
Proof.
  intros (Ht & Hf & Hp & Hs) Hnext.
  pose proof (next_event_scheduled p ev Hnext) as Hin.
  destruct ev as [tm|f]; cbn [step] in *.
  - destruct (fire_other tm p (filter_nil_all _ _ _ Ht Hin))
      as (Ht' & Hf' & Hs' & _ & Hp').
    unfold tracks. rewrite Ht', Hf', Hs', Hp', Ht, Hf. auto.
  - destruct (land_other f p (filter_nil_all _ _ _ Hf Hin))
      as (Ht' & Hf' & Hs' & _ & Hp').
    unfold tracks. rewrite Ht', Hf', Hs', Hp', Hf. auto.
Qed.

(** Every event moves the last edit on or leaves it where it is. *)
Lemma step_tracks s ev p :
  well_formed p ->
  tracks k c before s p ->
  next_event p = Some ev ->
  exists s', tracks k c before s' (step ev p).
Proof.
  intros Hwf Htracks Hnext. destruct s as [h|n resolves|].
  - assert (Hcases : ev = Fire (timer_of (on_type c) (on_id c) (what c) h)
                     \/ ev <> Fire (timer_of (on_type c) (on_id c) (what c) h)).
    { pose proof (next_event_scheduled p ev Hnext) as Hin.
      destruct ev as [tm|f]; [|right; discriminate].
      destruct (timer_for k tm) eqn:E.
      - left. f_equal.
        destruct Htracks as (_ & Ht & _). exact (filter_one _ _ _ _ Ht Hin E).
      - right. intros [= ->]. now rewrite own_timer_for in E. }
    destruct Hcases as [->|Hother].
    + destruct (fire_own h p Htracks) as (n & resolves & Hsaving).
      exists (Saving n resolves). exact Hsaving.
    + exists (Waiting h). now apply step_waiting.
  - destruct (step_saving n resolves ev p Hwf Htracks Hnext); eauto.
  - exists Saved. now apply step_saved.
Qed.

Lemma run_tracks fuel until s p :
  well_formed p -> tracks k c before s p ->
  exists s', tracks k c before s' (run fuel until p).
Proof.
  revert s p. induction fuel as [|fuel IH]; intros s p Hwf Htracks; cbn [run]; [eauto|].
  destruct (next_event p) as [ev|] eqn:Hnext; [|eauto].
  destruct (due_by until (event_time ev)); [|eauto].
  destruct (step_tracks s ev p Hwf Htracks Hnext) as [s' Hs'].
  exact (IH s' _ (well_formed_step ev p Hwf) Hs').
Qed.

(** Before its timer is due, the last edit stays waiting. *)
Lemma run_waiting fuel t h p :
  well_formed p -> tracks k c before (Waiting h) p -> t < due_c ->
  tracks k c before (Waiting h) (run fuel (Some t) p).
Proof.
  intros Hwf Htracks Ht. revert p Hwf Htracks.
  induction fuel as [|fuel IH]; intros p Hwf Htracks; cbn [run]; [exact Htracks|].
  destruct (next_event p) as [ev|] eqn:Hnext; [|exact Htracks].
  cbn [due_by]. destruct (Z.leb_spec (event_time ev) t) as [Hdue|_]; [|exact Htracks].
  apply IH; [apply well_formed_step, Hwf|].
  apply step_waiting; auto.
  intros ->. cbn [event_time due timer_of] in Hdue. fold due_c in Hdue. lia.
Qed.

(** Once nothing is scheduled any more, the last edit has been saved. *)
Lemma settle_tracks s p :
  well_formed p -> tracks k c before s p -> tracks k c before Saved (settle p).
Proof.
  intros Hwf Htracks.
  destruct (run_tracks (events_left p) None s p Hwf Htracks) as [s' Hs'].
  fold (settle p) in Hs'.
  destruct (settle_quiescent p) as [Ht Hf].
  destruct s' as [h|n resolves|]; [| |exact Hs'].
  - destruct Hs' as (_ & Hts & _). rewrite Ht in Hts. discriminate.
  - destruct Hs' as (_ & Hfs & _). rewrite Hf in Hfs. discriminate.
Qed.

Lemma advance_tracks t s p :
  well_formed p -> tracks k c before s p ->
  exists s', tracks k c before s' (advance t p).
Proof.
  intros Hwf Htracks.
  destruct (run_tracks (events_left p) (Some t) s p Hwf Htracks) as [s' Hs'].
  exists s'. unfold advance.
  destruct s' as [h|n resolves|]; [|exact Hs'|exact Hs'].
  destruct Hs' as (Hh & Hts & Hmap & Hpend & Hf & Hs & Hclock).
  unfold tracks, set_clock.
  cbn [timers autoSaveTimeouts pendingChanges in_flight save_calls clock].
  repeat (split; [assumption|]).
  assert (Hin : In (timer_of (on_type c) (on_id c) (what c) h)
                  (timers (run (events_left p) (Some t) p))).
  { assert (Hx : In (timer_of (on_type c) (on_id c) (what c) h)
                   (List.filter (timer_for k)
                      (timers (run (events_left p) (Some t) p))))
      by (rewrite Hts; now left).
    now apply filter_In in Hx as [Hx _]. }
  pose proof (run_until_leaves_later (events_left p) t p (Nat.le_refl _) _ Hin) as Hlater.
  cbn [due timer_of] in Hlater. lia.
Qed.

Lemma advance_waiting t h p :
  well_formed p -> tracks k c before (Waiting h) p -> t < due_c ->
  tracks k c before (Waiting h) (advance t p).
Proof.
  intros Hwf Htracks Ht.
  destruct (run_waiting (events_left p) t h p Hwf Htracks Ht)
    as (Hh & Hts & Hmap & Hpend & Hf & Hs & Hclock).
  unfold advance, tracks, set_clock.
  cbn [timers autoSaveTimeouts pendingChanges in_flight save_calls clock].
  repeat (split; [assumption|]). fold due_c in Hclock |- *. lia.
Qed.

(** An [autoSave] call for another key leaves the last edit where it is. *)
Lemma autoSave_other_tracks ty id v d s p :
  key_of ty id <> k -> well_formed p ->
  tracks k c before s p -> tracks k c before s (autoSave ty id v d p).
Proof.
  intros Hother (_ & _ & Hwf & _) Htracks.
  set (timers1 := match autoSaveTimeouts p !! key_of ty id with
                  | Some existingTimeout =>
                      if (existingTimeout =? 0)%nat then timers p
                      else clearTimeout existingTimeout (timers p)
                  | None => timers p
                  end).
  assert (Hnew : List.filter (timer_for k)
                   (timers (autoSave ty id v d p))
                 = List.filter (timer_for k) timers1).
  { unfold autoSave. cbn [timers]. fold timers1.
    rewrite List.filter_app. cbn [List.filter].
    unfold timer_for at 2, key_of_timer. cbn [t_elementType t_elementId].
    rewrite bool_decide_eq_false_2 by exact Hother. apply app_nil_r. }
  assert (Hmap : autoSaveTimeouts (autoSave ty id v d p) !! k = autoSaveTimeouts p !! k)
    by (unfold autoSave; cbn [autoSaveTimeouts]; now apply lookup_insert_ne).
  assert (Hpend : pendingChanges (autoSave ty id v d p) !! k = pendingChanges p !! k)
    by (unfold autoSave; cbn [pendingChanges]; now apply lookup_insert_ne).
  assert (Hempty : List.filter (timer_for k) (timers p) = [] ->
                   List.filter (timer_for k) timers1 = []).
  { intros Hnil. unfold timers1.
    destruct (autoSaveTimeouts p !! key_of ty id) as [h0|]; [|exact Hnil].
    destruct (h0 =? 0)%nat; [exact Hnil|].
    now rewrite filter_clearTimeout, Hnil. }
  destruct s as [h|n resolves|]; unfold tracks in *.
  - destruct Htracks as (Hh & Hts & Hm & Hp & Hf & Hs & Hclock).
    rewrite Hnew, Hmap, Hpend.
    split; [exact Hh|]. split; [|auto].
    unfold timers1.
    destruct (autoSaveTimeouts p !! key_of ty id) as [h0|] eqn:E0; [|exact Hts].
    destruct (h0 =? 0)%nat; [exact Hts|].
    rewrite filter_clearTimeout, Hts. cbn.
    destruct (Nat.eqb_spec h h0) as [<-|_]; [|reflexivity].
    exfalso. destruct (Hwf _ _ E0) as [_ Hmine].
    rewrite Forall_forall in Hmine.
    assert (Hin : In (timer_of (on_type c) (on_id c) (what c) h) (timers p)).
    { assert (Hx : In (timer_of (on_type c) (on_id c) (what c) h)
                     (List.filter (timer_for k) (timers p)))
        by (rewrite Hts; now left).
      now apply filter_In in Hx as [Hx _]. }
    apply list_elem_of_In in Hin. specialize (Hmine _ Hin eq_refl).
    apply Hother. rewrite <- Hmine. exact Hkey.
  - destruct Htracks as (Hts & Hf & Hs). rewrite Hnew. auto.
  - destruct Htracks as (Hts & Hf & Hp & Hs). rewrite Hnew, Hpend. auto.
Qed.

Lemma make_other_tracks c' s p :
  key_of_call c' <> k -> well_formed p -> tracks k c before s p ->
  exists s', tracks k c before s' (make c' p).
Proof.
  intros Hother Hwf Htracks.
  destruct (advance_tracks (e_time (what c')) s p Hwf Htracks) as [s' Hs'].
  exists s'. apply autoSave_other_tracks; auto. apply well_formed_advance, Hwf.
Qed.

Lemma make_other_waiting c' h p :
  key_of_call c' <> k -> well_formed p ->
  tracks k c before (Waiting h) p -> e_time (what c') < due_c ->
  tracks k c before (Waiting h) (make c' p).
Proof.
  intros Hother Hwf Htracks Ht.
  apply autoSave_other_tracks; auto; [apply well_formed_advance, Hwf|].
  now apply advance_waiting.
Qed.

(** The next edit of the key, inside the window: it clears the timer of the
    last edit, buffers its own value and starts its own timer. *)
Lemma make_own_waiting c' h p :
  key_of_call c' = k -> well_formed p ->
  tracks k c before (Waiting h) p ->
  clock p <= e_time (what c') -> e_time (what c') < due_c ->
  exists h', tracks k c' before (Waiting h') (make c' p).
Proof.
  intros Hown Hwf Htracks Hclock Ht.
  pose proof (advance_waiting _ _ _ Hwf Htracks Ht)
    as (Hh & Hts & Hmap & Hpend & Hf & Hs & _).
  pose proof (advance_clock _ _ Hclock) as Hnow.
  pose proof (well_formed_advance (e_time (what c')) p Hwf) as (Hn & _).
  unfold make, edit_at.
  set (q := advance (e_time (what c')) p) in *.
  exists (next_handle q). unfold tracks, autoSave.
  cbn [timers autoSaveTimeouts pendingChanges in_flight save_calls clock].
  change (key_of (on_type c') (on_id c')) with (key_of_call c').
  rewrite Hown, Hmap.
  destruct (Nat.eqb_spec h 0) as [|_]; [contradiction|].
  rewrite List.filter_app, filter_clearTimeout, Hts. cbn [List.filter clearTimeout].
  cbn [handle timer_of]. rewrite Nat.eqb_refl. cbn [negb app].
  unfold timer_for, key_of_timer. cbn [t_elementType t_elementId].
  change (key_of (on_type c') (on_id c')) with (key_of_call c'). rewrite Hown.
  rewrite bool_decide_eq_true_2 by reflexivity.
  rewrite !lookup_insert_eq, Hnow. unfold timer_of.
  repeat split; auto. lia.
Qed.

End OneKey.

Section Rest.
Variable k : jsstring.

Lemma advance_at_rest t p :
  at_rest k p ->
  at_rest k (advance t p)
  /\ List.filter (save_for k) (save_calls (advance t p))
     = List.filter (save_for k) (save_calls p).
Proof. intros Hrest. exact (run_at_rest k (events_left p) (Some t) p Hrest). Qed.

Lemma make_other_at_rest c' p :
  key_of_call c' <> k -> at_rest k p ->
  at_rest k (make c' p)
  /\ List.filter (save_for k) (save_calls (make c' p))
     = List.filter (save_for k) (save_calls p).
Proof.
  intros Hother Hrest.
  destruct (advance_at_rest (e_time (what c')) p Hrest) as [[Hts Hfs] Hs].
  unfold make, edit_at. set (q := advance (e_time (what c')) p) in *.
  unfold at_rest, autoSave. cbn [timers in_flight save_calls].
  split; [|exact Hs]. split; [|exact Hfs].
  rewrite List.filter_app. cbn [List.filter].
  unfold timer_for at 2, key_of_timer. cbn [t_elementType t_elementId].
  change (key_of (on_type c') (on_id c')) with (key_of_call c').
  rewrite bool_decide_eq_false_2 by exact Hother. rewrite app_nil_r.
  destruct (autoSaveTimeouts q !! key_of_call c') as [h0|]; [|exact Hts].
  destruct (h0 =? 0)%nat; [exact Hts|].
  now rewrite filter_clearTimeout, Hts.
Qed.

(** The first edit of the key while nothing is scheduled for it. *)
Lemma make_own_at_rest c' p :
  key_of_call c' = k -> well_formed p -> at_rest k p ->
  clock p <= e_time (what c') ->
  exists h,
    tracks k c' (List.filter (save_for k) (save_calls p)) (Waiting h) (make c' p).
Proof.
  intros Hown Hwf Hrest Hclock.
  destruct (advance_at_rest (e_time (what c')) p Hrest) as [[Hts Hfs] Hs].
  pose proof (advance_clock _ _ Hclock) as Hnow.
  pose proof (well_formed_advance (e_time (what c')) p Hwf) as (Hn & _).
  unfold make, edit_at. set (q := advance (e_time (what c')) p) in *.
  exists (next_handle q). unfold tracks, autoSave.
  cbn [timers autoSaveTimeouts pendingChanges in_flight save_calls clock].
  change (key_of (on_type c') (on_id c')) with (key_of_call c').
  rewrite Hown.
  assert (Hold : List.filter (timer_for k)
                   match autoSaveTimeouts q !! k with
                   | Some existingTimeout =>
                       if (existingTimeout =? 0)%nat then timers q
                       else clearTimeout existingTimeout (timers q)
                   | None => timers q
                   end = []).
  { destruct (autoSaveTimeouts q !! k) as [h0|]; [|exact Hts].
    destruct (h0 =? 0)%nat; [exact Hts|].
    now rewrite filter_clearTimeout, Hts. }
  rewrite List.filter_app, Hold. cbn [List.filter app].
  unfold timer_for, key_of_timer. cbn [t_elementType t_elementId].
  change (key_of (on_type c') (on_id c')) with (key_of_call c'). rewrite Hown.
  rewrite bool_decide_eq_true_2 by reflexivity.
  rewrite !lookup_insert_eq, Hnow. unfold timer_of.
  repeat split; auto. lia.
Qed.

Lemma make_clock c' p :
  clock p <= e_time (what c') -> clock (make c' p) = e_time (what c').
Proof. intros Hclock. exact (advance_clock _ _ Hclock). Qed.

Lemma well_formed_make c' p : well_formed p -> well_formed (make c' p).
Proof. intros Hwf. apply well_formed_autoSave, well_formed_advance, Hwf. Qed.

Lemma in_time_order_later t cs x :
  in_time_order t cs -> In x cs -> t <= e_time (what x).
Proof.
  revert t. induction cs as [|c cs IH]; intros t; [contradiction|].
  intros [Hc Hrest] [<-|Hin]; [exact Hc|].
  specialize (IH _ Hrest Hin). lia.
Qed.

End Rest.

(** ** A burst of calls for one key *)

Section Burst.
Variable k : jsstring.
Variable before : list save_call.

Lemma make_all_cons c cs p : make_all (c :: cs) p = make_all cs (make c p).
Proof. reflexivity. Qed.

(** The rest of a burst, from a page on which call [c0] is the last one made
    for the key. *)
Lemma burst_goes_on cs : forall p c0 s,
  well_formed p -> in_time_order (clock p) cs ->
  key_of_call c0 = k -> tracks k c0 before s p ->
  (List.filter (to_key k) cs <> [] -> exists h, s = Waiting h) ->
  within_window (what c0) (map what (List.filter (to_key k) cs)) ->
  well_formed (make_all cs p)
  /\ (exists s', tracks k (List.last (List.filter (to_key k) cs) c0) before s'
                   (make_all cs p))
  /\ (forall b c' a, cs = b ++ c' :: a -> key_of_call c' = k ->
        exists h, tracks k c' before (Waiting h) (make_all (b ++ [c']) p)).
Proof.
  induction cs as [|c1 cs IH]; intros p c0 s Hwf Horder Hkey Htracks Hwait Hwin.
  - cbn. split; [exact Hwf|]. split; [eauto|].
    intros [|? ?] ? ? ?; discriminate.
  - destruct Horder as [Hclock Horder].
    rewrite make_all_cons. cbn [List.filter] in Hwait, Hwin |- *.
    destruct (decide (key_of_call c1 = k)) as [Hown|Hother].
    + assert (Hto : to_key k c1 = true) by now apply bool_decide_eq_true_2.
      rewrite Hto in Hwait, Hwin |- *.
      destruct Hwait as [h ->]; [discriminate|].
      cbn [map within_window] in Hwin. destruct Hwin as ((Hafter & Hin) & Hwin).
      destruct (make_own_waiting k c0 before c1 h p Hown Hwf Htracks Hclock)
        as [h' Hnext]; [lia|].
      destruct (IH (make c1 p) c1 (Waiting h')) as (Hwf' & Hlast & Hevery); auto.
      { apply well_formed_make, Hwf. }
      { now rewrite make_clock. }
      { eauto. }
      split; [exact Hwf'|]. split.
      * rewrite last_cons. exact Hlast.
      * intros [|b0 b] c' a Hsplit Hk; injection Hsplit as <- Hrest.
        -- cbn. eauto.
        -- cbn [app]. rewrite make_all_cons. now apply (Hevery b c' a).
    + assert (Hto : to_key k c1 = false) by now apply bool_decide_eq_false_2.
      rewrite Hto in Hwait, Hwin |- *.
      assert (Hnext : exists s', tracks k c0 before s' (make c1 p)
                 /\ (List.filter (to_key k) cs <> [] -> exists h, s' = Waiting h)).
      { destruct (List.filter (to_key k) cs) as [|c2 r] eqn:Ef.
        - destruct (make_other_tracks k c0 before Hkey c1 s p Hother Hwf Htracks)
            as [s' Hs']. exists s'. split; [exact Hs'|]. intros []. reflexivity.
        - destruct Hwait as [h ->]; [discriminate|].
          exists (Waiting h). split; [|eauto].
          apply make_other_waiting; auto.
          cbn [map within_window] in Hwin. destruct Hwin as ((_ & Hin) & _).
          assert (Hc2 : In c2 cs).
          { assert (Hx : In c2 (List.filter (to_key k) cs)) by (rewrite Ef; now left).
            now apply filter_In in Hx as [Hx _]. }
          pose proof (in_time_order_later _ _ _ Horder Hc2). lia. }
      destruct Hnext as (s' & Hs' & Hwait').
      destruct (IH (make c1 p) c0 s') as (Hwf' & Hlast & Hevery); auto.
      { apply well_formed_make, Hwf. }
      { now rewrite make_clock. }
      split; [exact Hwf'|]. split; [exact Hlast|].
      intros [|b0 b] c' a Hsplit Hk; injection Hsplit as <- Hrest.
      * contradiction.
      * cbn [app]. rewrite make_all_cons. now apply (Hevery b c' a).
Qed.

(** A burst that starts while nothing is scheduled for the key. *)
Lemma burst_begins cs : forall p first rest,
  well_formed p -> in_time_order (clock p) cs ->
  at_rest k p -> List.filter (save_for k) (save_calls p) = before ->
  List.filter (to_key k) cs = first :: rest ->
  within_window (what first) (map what rest) ->
  well_formed (make_all cs p)
  /\ (exists s', tracks k (List.last rest first) before s' (make_all cs p))
  /\ (forall b c' a, cs = b ++ c' :: a -> key_of_call c' = k ->
        exists h, tracks k c' before (Waiting h) (make_all (b ++ [c']) p)).
Proof.
  induction cs as [|c1 cs IH]; intros p first rest Hwf Horder Hrest Hsaves Hf Hwin;
    [discriminate|].
  destruct Horder as [Hclock Horder].
  rewrite make_all_cons. cbn [List.filter] in Hf.
  destruct (decide (key_of_call c1 = k)) as [Hown|Hother].
  - assert (Hto : to_key k c1 = true) by now apply bool_decide_eq_true_2.
    rewrite Hto in Hf. injection Hf as <- <-.
    destruct (make_own_at_rest k c1 p Hown Hwf Hrest Hclock) as [h Hnext].
    rewrite Hsaves in Hnext.
    destruct (burst_goes_on cs (make c1 p) c1 (Waiting h)) as (Hwf' & Hlast & Hevery);
      auto.
    { apply well_formed_make, Hwf. }
    { now rewrite make_clock. }
    { eauto. }
    split; [exact Hwf'|]. split; [exact Hlast|].
    intros [|b0 b] c' a Hsplit Hk; injection Hsplit as <- Hcs.
    + cbn. eauto.
    + cbn [app]. rewrite make_all_cons. now apply (Hevery b c' a).
  - assert (Hto : to_key k c1 = false) by now apply bool_decide_eq_false_2.
    rewrite Hto in Hf.
    destruct (make_other_at_rest k c1 p Hother Hrest) as [Hrest' Hsaves'].
    destruct (IH (make c1 p) first rest) as (Hwf' & Hlast & Hevery); auto.
    { apply well_formed_make, Hwf. }
    { now rewrite make_clock. }
    { now rewrite Hsaves'. }
    split; [exact Hwf'|]. split; [exact Hlast|].
    intros [|b0 b] c' a Hsplit Hk; injection Hsplit as <- Hcs.
    + contradiction.
    + cbn [app]. rewrite make_all_cons. now apply (Hevery b c' a).
Qed.

End Burst.

Lemma last_is_member {A} (d : A) (l : list A) : In (List.last l d) (d :: l).
Proof.
  revert d. induction l as [|x l IH]; intros d; [now left|].
  rewrite last_cons. right. apply IH.
Qed.


Section BurstExamples.



End BurstExamples.
